(** * QA_MCP: the issue analyzer, the link parsers, the tools and the
    dispatcher

    A shallow embedding of [src/helpers/qa.ts], of the link parsers and
    the requests of [src/helpers/github.ts] and [src/helpers/gitlab.ts], of
    the handlers of the database, GitLab, GitHub and web search tools, and
    of the tool registry and the dispatcher of [src/service.ts], with the
    properties the specification states about them and further properties
    read off the code.

    JavaScript strings are sequences of UTF-16 code units; regular
    expressions are run by a backtracking matcher that follows the
    ECMAScript pattern semantics (priority of alternatives, greedy and lazy
    quantifiers, the empty-iteration check, numbered captures).  Handlers
    that call a driver or the network are computations over the log of the
    calls made; the driver and the network are parameters. *)

From Stdlib Require Import List NArith ZArith Arith Bool String Ascii Lia DecimalString.
From Stdlib Require QArith.
Import ListNotations.

Set Implicit Arguments.

(* ================================================================== *)
(** * Part I: definitions *)
(* ================================================================== *)

(** ** JavaScript strings *)

Module JS.

(** A string is the list of its UTF-16 code units. *)
Definition jsstring := list N.

Definition code_eqb (a b : N) : bool := N.eqb a b.

Fixpoint str_eqb (a b : jsstring) : bool :=
  match a, b with
  | [], [] => true
  | x :: a', y :: b' => N.eqb x y && str_eqb a' b'
  | _, _ => false
  end.

(** The literals of the source are written as Rocq strings, which hold
    UTF-8 bytes; [utf16_of_utf8] re-encodes them as code units (a code point
    above U+FFFF becomes a surrogate pair, as in a JavaScript literal). *)
Fixpoint utf16_of_utf8 (bs : list N) : jsstring :=
  match bs with
  | [] => []
  | b0 :: t0 =>
    if (b0 <? 0x80)%N then b0 :: utf16_of_utf8 t0
    else
      match t0 with
      | [] => [0xFFFD%N]
      | b1 :: t1 =>
        if (b0 <? 0xE0)%N
        then ((b0 - 0xC0) * 64 + (b1 - 0x80))%N :: utf16_of_utf8 t1
        else
          match t1 with
          | [] => [0xFFFD%N]
          | b2 :: t2 =>
            if (b0 <? 0xF0)%N
            then ((b0 - 0xE0) * 4096 + (b1 - 0x80) * 64 + (b2 - 0x80))%N
                   :: utf16_of_utf8 t2
            else
              match t2 with
              | [] => [0xFFFD%N]
              | b3 :: t3 =>
                let cp := ((b0 - 0xF0) * 262144 + (b1 - 0x80) * 4096
                           + (b2 - 0x80) * 64 + (b3 - 0x80) - 0x10000)%N in
                (0xD800 + cp / 1024)%N :: (0xDC00 + cp mod 1024)%N
                  :: utf16_of_utf8 t3
              end
          end
      end
  end.

Definition lit (s : string) : jsstring :=
  utf16_of_utf8 (map N_of_ascii (list_ascii_of_string s)).

Arguments lit s%_string : simpl never.

(** [WhiteSpace] and [LineTerminator] of ECMAScript: the characters of the
    class [\s], which are also the ones [String.prototype.trim] strips. *)
Definition isLineTerminator (c : N) : bool :=
  (N.eqb c 0x0A || N.eqb c 0x0D || N.eqb c 0x2028 || N.eqb c 0x2029)%N.

Definition isWhiteSpace (c : N) : bool :=
  (N.eqb c 0x09 || N.eqb c 0x0B || N.eqb c 0x0C || N.eqb c 0x20
   || N.eqb c 0xA0 || N.eqb c 0x1680
   || ((0x2000 <=? c) && (c <=? 0x200A))
   || N.eqb c 0x202F || N.eqb c 0x205F || N.eqb c 0x3000
   || N.eqb c 0xFEFF)%N.

Definition isSpace (c : N) : bool := isWhiteSpace c || isLineTerminator c.

Fixpoint trimStart (s : jsstring) : jsstring :=
  match s with
  | c :: s' => if isSpace c then trimStart s' else s
  | [] => []
  end.

(** [String.prototype.trim]. *)
Definition trim (s : jsstring) : jsstring :=
  rev (trimStart (rev (trimStart s))).

Fixpoint startsWith (s p : jsstring) {struct p} : bool :=
  match p, s with
  | [], _ => true
  | x :: p', y :: s' => N.eqb x y && startsWith s' p'
  | _ :: _, [] => false
  end.

(** [String.prototype.includes]: [p] occurs in [s] as a substring. *)
Fixpoint includes (s p : jsstring) : bool :=
  startsWith s p ||
  match s with
  | [] => false
  | _ :: s' => includes s' p
  end.

(** [Array.prototype.includes] on an array of strings. *)
Definition arr_includes (l : list jsstring) (x : jsstring) : bool :=
  existsb (str_eqb x) l.

(** [Array.prototype.join]. *)
Fixpoint join (sep : jsstring) (l : list jsstring) : jsstring :=
  match l with
  | [] => []
  | [x] => x
  | x :: l' => x ++ sep ++ join sep l'
  end.

(** [[...new Set(l)]]: the elements are inserted one after the other, an
    element already in the set is not inserted again, and the set iterates
    in insertion order. *)
Definition set_add (seen : list jsstring) (x : jsstring) : list jsstring :=
  if arr_includes seen x then seen else seen ++ [x].

Definition dedupe (l : list jsstring) : list jsstring :=
  fold_left set_add l [].

(** [Array.prototype.indexOf]: the position of the first occurrence. *)
Fixpoint indexOf (l : list jsstring) (x : jsstring) : option nat :=
  match l with
  | [] => None
  | y :: l' => if str_eqb y x then Some 0 else option_map S (indexOf l' x)
  end.

(** The elements that inserting [l] adds to a set that holds [seen], in
    the order of insertion: [dedupe] written as a recursion on [l]. *)
Fixpoint fresh (seen l : list jsstring) : list jsstring :=
  match l with
  | [] => []
  | x :: l' =>
    if arr_includes seen x then fresh seen l' else x :: fresh (seen ++ [x]) l'
  end.

(** The decimal rendering of a non-negative integer, as template literals
    and [join] print it. *)
Definition decimal (n : nat) : jsstring :=
  lit (NilEmpty.string_of_uint (Nat.to_uint n)).

(** [String.prototype.toLowerCase] is a parameter of the functions that
    call it: the full Unicode case table is not reproduced.  On strings
    whose code units all lie in Basic Latin and Latin-1 Supplement it is
    this function, which closed examples use. *)
Definition lower_code (c : N) : N :=
  if ((0x41 <=? c) && (c <=? 0x5A))%N then (c + 32)%N
  else if ((0xC0 <=? c) && (c <=? 0xDE) && negb (N.eqb c 0xD7))%N
       then (c + 32)%N
       else c.

Definition toLowerCase_latin1 (s : jsstring) : jsstring := map lower_code s.

(** Outcome of a call: a value, a thrown exception, or a loop that never
    ends. *)
Inductive outcome (E A : Type) : Type :=
| Ok (a : A)
| Throw (e : E)
| Diverge.

Arguments Ok {E A} a.
Arguments Throw {E A} e.
Arguments Diverge {E A}.

Definition bind {E A B} (x : outcome E A) (f : A -> outcome E B)
  : outcome E B :=
  match x with
  | Ok a => f a
  | Throw e => Throw e
  | Diverge => Diverge
  end.

End JS.

Import JS.

Notation "x <- c1 ;; c2" := (bind c1 (fun x => c2))
  (at level 61, c1 at next level, right associativity).

(** ** Regular expressions *)

Module RegExp.

(** Character classes and single-character atoms. *)
Inductive cset : Type :=
| CLit (c : N)              (* a literal character *)
| CRange (lo hi : N)        (* [lo-hi] *)
| CAny                      (* . *)
| CSpace                    (* \s *)
| CDigit                    (* \d *)
| CUnion (a b : cset)       (* [ab] *)
| CNot (a : cset).          (* [^a] *)

Inductive regex : Type :=
| Empty
| Chr (c : cset)
| Seq (a b : regex)
| Alt (a b : regex)              (* a|b, the left alternative first *)
| Star (greedy : bool) (a : regex)   (* a* and a*? *)
| Group (n : nat) (a : regex)    (* the n-th capturing group *)
| Bol                            (* ^ *)
| Eol.                           (* $ *)

(** The flags of a regular-expression literal. *)
Record flags : Type := {
  global : bool;       (* g *)
  ignoreCase : bool;   (* i *)
  dotAll : bool        (* s *)
}.

Record regexp : Type := { source : regex; flag : flags }.

(** Derived forms. *)
Definition Plus (greedy : bool) (a : regex) : regex := Seq a (Star greedy a).
Definition Opt (a : regex) : regex := Alt a Empty.

Fixpoint Str (s : jsstring) : regex :=
  match s with
  | [] => Empty
  | [c] => Chr (CLit c)
  | c :: s' => Seq (Chr (CLit c)) (Str s')
  end.

Definition str (s : string) : regex := Str (lit s).
Definition chr (s : string) : cset := CLit (hd 0%N (lit s)).

Arguments str s%_string.
Arguments chr s%_string.

Fixpoint alts (l : list regex) : regex :=
  match l with
  | [] => Empty
  | [a] => a
  | a :: l' => Alt a (alts l')
  end.

Fixpoint seqs (l : list regex) : regex :=
  match l with
  | [] => Empty
  | [a] => a
  | a :: l' => Seq a (seqs l')
  end.

(** Case folding of one code unit.  Without the [u] flag [Canonicalize]
    upper-cases a single code unit; for the characters the patterns of the
    source contain (Basic Latin and U+00F3) the input characters that match
    them are the two case variants computed here. *)
Definition upper_code (c : N) : N :=
  if ((0x61 <=? c) && (c <=? 0x7A))%N then (c - 32)%N
  else if ((0xE0 <=? c) && (c <=? 0xFE) && negb (N.eqb c 0xF7))%N
       then (c - 32)%N
       else c.

Definition variants (fl : flags) (c : N) : list N :=
  if ignoreCase fl then [c; upper_code c; lower_code c] else [c].

Definition in_range (lo hi c : N) : bool := ((lo <=? c) && (c <=? hi))%N.

(** [cset_mem fl a c]: the character [c] is accepted by the atom [a]. *)
Fixpoint cset_mem (fl : flags) (a : cset) (c : N) : bool :=
  match a with
  | CLit p => existsb (N.eqb p) (variants fl c)
  | CRange lo hi => existsb (in_range lo hi) (variants fl c)
  | CAny => dotAll fl || negb (isLineTerminator c)
  | CSpace => isSpace c
  | CDigit => in_range 0x30 0x39 c
  | CUnion a1 a2 => cset_mem fl a1 c || cset_mem fl a2 c
  | CNot a1 => negb (cset_mem fl a1 c)
  end.

(** The state of the matcher: the index reached, the input from there on,
    and the captures made so far (the latest binding of a group first). *)
Record mstate : Type := {
  pos : nat;
  rest : jsstring;
  caps : list (nat * jsstring)
}.

Definition cont : Type := mstate -> option mstate.

Fixpoint capture (n : nat) (c : list (nat * jsstring)) : option jsstring :=
  match c with
  | [] => None
  | (k, v) :: c' => if Nat.eqb k n then Some v else capture n c'
  end.

Definition set_cap (n : nat) (v : jsstring) (s : mstate) : mstate :=
  {| pos := pos s; rest := rest s; caps := (n, v) :: caps s |}.

Fixpoint groups (r : regex) : list nat :=
  match r with
  | Seq a b | Alt a b => groups a ++ groups b
  | Star _ a => groups a
  | Group n a => n :: groups a
  | _ => []
  end.

(** Captures of the groups inside a quantified atom are reset when an
    iteration starts. *)
Definition clear_caps (gs : list nat) (s : mstate) : mstate :=
  {| pos := pos s; rest := rest s;
     caps := filter (fun kv => negb (existsb (Nat.eqb (fst kv)) gs)) (caps s) |}.

(** [RepeatMatcher] for [{0,}]: an iteration that consumes nothing is
    rejected, so an iteration shortens the rest of the input and [fuel],
    started above its length, is never used up. *)
Fixpoint star_loop (step : cont -> cont) (greedy : bool) (gs : list nat)
         (fuel : nat) (k : cont) (s : mstate) : option mstate :=
  match fuel with
  | 0 => k s
  | S fuel' =>
    let iter :=
      step (fun s' => if Nat.eqb (pos s') (pos s) then None
                      else star_loop step greedy gs fuel' k s')
           (clear_caps gs s) in
    if greedy then
      match iter with Some x => Some x | None => k s end
    else
      match k s with Some x => Some x | None => iter end
  end.

(** The backtracking matcher, in continuation-passing style: [m fl r k s]
    matches [r] at [s] and hands the state reached to [k]; when [k] fails
    the next way of matching [r] is tried. *)
Fixpoint m (fl : flags) (r : regex) (k : cont) (s : mstate) {struct r}
  : option mstate :=
  match r with
  | Empty => k s
  | Chr a =>
    match rest s with
    | c :: t =>
      if cset_mem fl a c
      then k {| pos := S (pos s); rest := t; caps := caps s |}
      else None
    | [] => None
    end
  | Seq a b => m fl a (m fl b k) s
  | Alt a b =>
    match m fl a k s with
    | Some x => Some x
    | None => m fl b k s
    end
  | Star greedy a =>
    star_loop (m fl a) greedy (groups a) (S (List.length (rest s))) k s
  | Group n a =>
    m fl a (fun s' => k (set_cap n (firstn (pos s' - pos s) (rest s)) s')) s
  | Bol => if Nat.eqb (pos s) 0 then k s else None
  | Eol => match rest s with [] => k s | _ :: _ => None end
  end.

(** The result of a successful [exec]: where the match starts, where it
    ends (the new [lastIndex] of a global expression) and the captures. *)
Record match_result : Type := {
  index : nat;
  endIndex : nat;
  captures : list (nat * jsstring)
}.

(** The search of [RegExpBuiltinExec]: the matcher is tried at [i], then at
    [i + 1], up to the end of the input. *)
Fixpoint search (fl : flags) (r : regex) (i : nat) (input : jsstring)
  : option match_result :=
  match m fl r Some {| pos := i; rest := input; caps := [] |} with
  | Some s' => Some {| index := i; endIndex := pos s'; captures := caps s' |}
  | None =>
    match input with
    | [] => None
    | _ :: t => search fl r (S i) t
    end
  end.

(** [re.exec(input)] with [re.lastIndex = lastIndex]; an expression without
    the [g] flag starts at 0. *)
Definition exec (re : regexp) (input : jsstring) (lastIndex : nat)
  : option match_result :=
  let start := if global (flag re) then lastIndex else 0 in
  if Nat.leb start (List.length input)
  then search (flag re) (source re) start (skipn start input)
  else None.

(** [re.test(input)] on a freshly created expression. *)
Definition test (re : regexp) (input : jsstring) : bool :=
  match exec re input 0 with Some _ => true | None => false end.

(** [input.match(re)] for an expression without the [g] flag. *)
Definition str_match (input : jsstring) (re : regexp) : option match_result :=
  exec re input 0.

(** *** What a match is, without the search order

    [Matches fl r s s']: the expression [r] can take the matcher from [s]
    to [s'].  The matcher [m] returns the first such [s'], in the priority
    order of the pattern, that the continuation accepts. *)
Inductive Matches (fl : flags) : regex -> mstate -> mstate -> Prop :=
| M_Empty s : Matches fl Empty s s
| M_Chr a c t s :
    rest s = c :: t -> cset_mem fl a c = true ->
    Matches fl (Chr a) s {| pos := S (pos s); rest := t; caps := caps s |}
| M_Seq a b s1 s2 s3 :
    Matches fl a s1 s2 -> Matches fl b s2 s3 -> Matches fl (Seq a b) s1 s3
| M_AltL a b s s' : Matches fl a s s' -> Matches fl (Alt a b) s s'
| M_AltR a b s s' : Matches fl b s s' -> Matches fl (Alt a b) s s'
| M_StarStop g a s : Matches fl (Star g a) s s
| M_StarIter g a s s1 s2 :
    Matches fl a (clear_caps (groups a) s) s1 ->
    pos s1 <> pos s ->
    Matches fl (Star g a) s1 s2 ->
    Matches fl (Star g a) s s2
| M_Group n a s s' :
    Matches fl a s s' ->
    Matches fl (Group n a) s (set_cap n (firstn (pos s' - pos s) (rest s)) s')
| M_Bol s : pos s = 0 -> Matches fl Bol s s
| M_Eol s : rest s = [] -> Matches fl Eol s s.

(** [Accepts fl r u t]: wherever the input [u] stands and whatever has
    been captured, [r] can match the front of [u] and leave [t]. *)
Definition Accepts (fl : flags) (r : regex) (u t : jsstring) : Prop :=
  forall i c, exists j c',
      Matches fl r {| pos := i; rest := u; caps := c |}
                   {| pos := j; rest := t; caps := c' |}.

(** The least number of characters a match of [r] consumes. *)
Fixpoint min_len (r : regex) : nat :=
  match r with
  | Chr _ => 1
  | Seq a b => min_len a + min_len b
  | Alt a b => Nat.min (min_len a) (min_len b)
  | Group _ a => min_len a
  | _ => 0
  end.

(** [binds n r]: every match of [r] leaves the group [n] captured. *)
Fixpoint binds (n : nat) (r : regex) : bool :=
  match r with
  | Seq a b => (binds n a && negb (existsb (Nat.eqb n) (groups b))) || binds n b
  | Alt a b => binds n a && binds n b
  | Group k a => Nat.eqb n k || binds n a
  | _ => false
  end.

(** A pattern fit for the loop [while ((match = re.exec(text)) !== null)]
    that reads [match[1]]: it has the [g] flag, its matches are never empty
    and they always capture the first group. *)
Definition loop_safe (re : regexp) : bool :=
  global (flag re) && Nat.leb 1 (min_len (source re)) && binds 1 (source re).

Definition no_flags : flags :=
  {| global := false; ignoreCase := false; dotAll := false |}.
Definition flags_g : flags :=
  {| global := true; ignoreCase := false; dotAll := false |}.
Definition flags_gis : flags :=
  {| global := true; ignoreCase := true; dotAll := true |}.

End RegExp.

Import RegExp.

(** ** Errors of the protocol SDK and of the runtime *)

Module Mcp.

Inductive ErrorCode : Type :=
| InvalidParams
| InternalError
| MethodNotFound.

(** What a [throw] carries: an [McpError] built by the code, a [TypeError]
    of the runtime, the error of a database driver, or the [URIError] of
    [encodeURIComponent].  The code reads an error of a driver through
    [error?.message || String(error)] only, so such an error is kept as
    the text that expression gives: its [message], or the error as a
    string when the message is empty. *)
Inductive exn : Type :=
| McpError (code : ErrorCode) (message : jsstring)
| TypeError
| DriverError (message : jsstring)
| URIError.

End Mcp.

Import Mcp.

(** ** [src/helpers/qa.ts] *)

Module QA.

Record IssueData : Type := {
  title : jsstring;
  description : jsstring;
  labels : list jsstring;
  assignees : list jsstring;
  author : jsstring;
  state : jsstring;
  created_at : jsstring;
  updated_at : jsstring;
  web_url : jsstring;
  project_name : jsstring;
  iid : nat
}.

Record QAAnalysis : Type := {
  requirements : list jsstring;
  acceptanceCriteria : list jsstring;
  testingSuggestions : list jsstring;
  riskAreas : list jsstring;
  testTypes : list jsstring
}.

Definition LF : cset := CLit 0x0A.
Definition sep_class : cset := CUnion (chr ":") (CUnion (chr "-") CSpace).
Definition mk_gis (r : regex) : regexp := {| source := r; flag := flags_gis |}.
Definition mk_plain (r : regex) : regexp := {| source := r; flag := no_flags |}.

(** The loop [while ((match = pattern.exec(text)) !== null)] with its body
    [const x = match[1].trim(); if (x.length > threshold) out.push(x)].
    Every turn calls [exec] once; a turn whose match is empty leaves
    [lastIndex] where it was and the loop never ends, which is what running
    out of [fuel] stands for when [fuel] starts above the length of the
    text. *)
Fixpoint exec_loop (threshold : nat) (pattern : regexp) (text : jsstring)
         (fuel lastIndex : nat) (out : list jsstring)
  : outcome exn (list jsstring) :=
  match fuel with
  | 0 => Diverge
  | S fuel' =>
    match exec pattern text lastIndex with
    | None => Ok out
    | Some mt =>
      match capture 1 (captures mt) with
      | None => Throw TypeError
      | Some c =>
        let x := trim c in
        exec_loop threshold pattern text fuel' (endIndex mt)
                  (if Nat.ltb threshold (List.length x) then out ++ [x]
                   else out)
      end
    end
  end.

(** [patterns.forEach(pattern => { while ... })] pushing to [out]. *)
Fixpoint scan_patterns (threshold : nat) (patterns : list regexp)
         (text : jsstring) (out : list jsstring)
  : outcome exn (list jsstring) :=
  match patterns with
  | [] => Ok out
  | pattern :: ps =>
    out' <- exec_loop threshold pattern text (S (List.length text)) 0 out ;;
    scan_patterns threshold ps text out'
  end.

Definition line_end : regex := alts [Chr LF; Chr (chr "."); Eol].

Definition reqPatterns : list regexp := [
  (* /(?:requisito|requerimiento|requirement)s?[:\-\s]*(.*?)(?:\n\n|\n[A-Z]|$)/gis *)
  mk_gis (seqs [alts [str "requisito"; str "requerimiento"; str "requirement"];
                Opt (Chr (chr "s"));
                Star true (Chr sep_class);
                Group 1 (Star false (Chr CAny));
                alts [Seq (Chr LF) (Chr LF);
                      Seq (Chr LF) (Chr (CRange 0x41 0x5A));
                      Eol]]);
  (* /(?:necesita|debe|should|must)[:\-\s]*(.*?)(?:\n|\.|$)/gis *)
  mk_gis (seqs [alts [str "necesita"; str "debe"; str "should"; str "must"];
                Star true (Chr sep_class);
                Group 1 (Star false (Chr CAny));
                line_end]);
  (* /(?:como|as a).*?(?:quiero|want|need).*?(?:para|so that)(.*?)(?:\n|\.|$)/gis *)
  mk_gis (seqs [alts [str "como"; str "as a"];
                Star false (Chr CAny);
                alts [str "quiero"; str "want"; str "need"];
                Star false (Chr CAny);
                alts [str "para"; str "so that"];
                Group 1 (Star false (Chr CAny));
                line_end])
].

Definition extractRequirements (issueData : IssueData)
  : outcome exn (list jsstring) :=
  requirements <- scan_patterns 10 reqPatterns (description issueData) [] ;;
  Ok (if Nat.eqb (List.length requirements) 0
      then requirements ++ [lit "Implementar: " ++ title issueData]
      else requirements).

Definition criteriaPatterns : list regexp := [
  (* /(?:criterios? de aceptaci[oó]n|acceptance criteria)[:\-\s]*((?:.*\n)*?)(?:\n[A-Z]|\n\n|$)/gis *)
  mk_gis (seqs [alts [seqs [str "criterio"; Opt (Chr (chr "s"));
                            str " de aceptaci";
                            Chr (CUnion (chr "o") (chr "ó")); Chr (chr "n")];
                      str "acceptance criteria"];
                Star true (Chr sep_class);
                Group 1 (Star false (Seq (Star true (Chr CAny)) (Chr LF)));
                alts [Seq (Chr LF) (Chr (CRange 0x41 0x5A));
                      Seq (Chr LF) (Chr LF);
                      Eol]]);
  (* /(?:dado|given).*?(?:cuando|when).*?(?:entonces|then)(.*?)(?:\n|\.|$)/gis *)
  mk_gis (seqs [alts [str "dado"; str "given"];
                Star false (Chr CAny);
                alts [str "cuando"; str "when"];
                Star false (Chr CAny);
                alts [str "entonces"; str "then"];
                Group 1 (Star false (Chr CAny));
                line_end]);
  (* /[-\*]\s*(.+?)(?:\n|$)/g *)
  {| source := seqs [Chr (CUnion (chr "-") (chr "*"));
                     Star true (Chr CSpace);
                     Group 1 (Plus false (Chr CAny));
                     alts [Chr LF; Eol]];
     flag := flags_g |}
].

Definition extractAcceptanceCriteria (issueData : IssueData)
  : outcome exn (list jsstring) :=
  scan_patterns 5 criteriaPatterns (description issueData) [].

(** A markdown bullet in the words of the specification: a line that
    starts with [- ] or [* ]. *)
Fixpoint split_lines (s : jsstring) : list jsstring :=
  match s with
  | [] => [[]]
  | c :: s' =>
    if N.eqb c 0x0A then [] :: split_lines s'
    else match split_lines s' with
         | [] => [[c]]
         | l :: ls => (c :: l) :: ls
         end
  end.

Definition isBulletLine (l : jsstring) : bool :=
  startsWith l (lit "- ") || startsWith l (lit "* ").

Definition hasBulletLine (text : jsstring) : bool :=
  existsb isBulletLine (split_lines text).

(** The table of [generateTestingSuggestions]: keywords and the tests they
    bring. *)
Definition testingSuggestionsTable : list (list jsstring * list jsstring) := [
  ([lit "login"; lit "auth"; lit "password"; lit "usuario"],
   [lit "Verificar login con credenciales válidas";
    lit "Verificar error con credenciales inválidas";
    lit "Verificar logout funciona correctamente";
    lit "Probar casos de seguridad (inyección, XSS)"]);
  ([lit "form"; lit "formulario"; lit "input"; lit "campo"],
   [lit "Validar todos los campos obligatorios";
    lit "Probar validaciones de formato";
    lit "Verificar mensajes de error apropiados";
    lit "Probar envío con datos válidos e inválidos"]);
  ([lit "api"; lit "endpoint"; lit "service"],
   [lit "Probar respuestas con datos válidos";
    lit "Verificar manejo de errores HTTP";
    lit "Validar estructura de respuestas JSON";
    lit "Probar autenticación y autorización"]);
  ([lit "ui"; lit "interfaz"; lit "button"; lit "botón"],
   [lit "Verificar diseño responsive";
    lit "Probar accesibilidad (WCAG)";
    lit "Validar navegación entre pantallas";
    lit "Verificar estados de loading y error"]);
  ([lit "database"; lit "datos"; lit "guardar"; lit "save"],
   [lit "Verificar persistencia de datos";
    lit "Probar integridad referencial";
    lit "Validar rollback en errores";
    lit "Probar concurrencia de acceso"])
].

Definition universalSuggestions : list jsstring := [
  lit "Verificar que el cambio no rompe funcionalidad existente";
  lit "Probar en diferentes navegadores/dispositivos";
  lit "Validar performance bajo carga normal";
  lit "Revisar logs de errores durante las pruebas"
].

(** The array [suggestions] before the final [new Set]. *)
Definition pushedSuggestions (fullText : jsstring) : list jsstring :=
  flat_map (fun entry =>
              if existsb (fun keyword => includes fullText keyword) (fst entry)
              then snd entry else [])
           testingSuggestionsTable
  ++ universalSuggestions.

Definition generateTestingSuggestions (issueData : IssueData)
           (fullText : jsstring) : list jsstring :=
  dedupe (pushedSuggestions fullText).

Definition words (l : list regex) : regexp := mk_plain (alts l).

Definition riskIndicators : list (regexp * jsstring) := [
  (words [str "security"; str "seguridad"; str "auth"; str "password"],
   lit "Seguridad - requiere testing exhaustivo");
  (words [str "payment"; str "pago"; str "billing"; str "facturación"],
   lit "Pagos - crítico para el negocio");
  (words [str "data"; str "datos"; str "database"],
   lit "Integridad de datos - riesgo de pérdida");
  (words [str "migration"; str "migración"],
   lit "Migración - riesgo de downtime");
  (words [str "integration"; str "integración";
          seqs [str "third"; Chr CAny; str "party"]],
   lit "Integraciones externas - dependencias");
  (words [str "performance"; str "rendimiento"],
   lit "Performance - impacto en UX")
].

Definition criticalLabels : list jsstring :=
  [lit "critical"; lit "crítico"; lit "high-priority"; lit "security";
   lit "bug"].

Definition highPriorityRisk : jsstring :=
  lit "Alta prioridad - requiere testing completo antes de release".

(** [rules.forEach(({pattern, x}) => { if (pattern.test(fullText)) out.push(x) })]. *)
Definition push_matching (rules : list (regexp * jsstring))
           (fullText : jsstring) : list jsstring :=
  flat_map (fun rule => if test (fst rule) fullText then [snd rule] else [])
           rules.

Definition typeMapping : list (regexp * jsstring) := [
  (words [str "unit"; str "unitario"], lit "Testing Unitario");
  (words [str "integration"; str "integración"], lit "Testing de Integración");
  (words [str "ui"; str "interfaz"; str "frontend"], lit "Testing de UI/UX");
  (words [str "api"; str "service"; str "backend"], lit "Testing de API");
  (words [str "performance"; str "rendimiento"], lit "Testing de Performance");
  (words [str "security"; str "seguridad"], lit "Testing de Seguridad");
  (words [str "mobile"; str "móvil"], lit "Testing Mobile");
  (words [str "accessibility"; str "accesibilidad"],
   lit "Testing de Accesibilidad")
].

Definition baselineTypes : list jsstring :=
  [lit "Testing Funcional"; lit "Testing de Regresión"].

(** The array [testTypes] before the final [new Set]. *)
Definition pushedTypes (fullText : jsstring) : list jsstring :=
  push_matching typeMapping fullText ++ baselineTypes.

(** [labels] is accepted and not read. *)
Definition determineTestTypes (fullText : jsstring) (labels : list jsstring)
  : list jsstring :=
  dedupe (pushedTypes fullText).

Section WithToLowerCase.

(** [String.prototype.toLowerCase]. *)
Variable toLowerCase : jsstring -> jsstring.

Definition hasCriticalLabel (labels : list jsstring) : bool :=
  existsb (fun label => arr_includes criticalLabels (toLowerCase label)) labels.

Definition identifyRiskAreas (fullText : jsstring) (labels : list jsstring)
  : list jsstring :=
  push_matching riskIndicators fullText
  ++ (if hasCriticalLabel labels then [highPriorityRisk] else []).

Definition fullTextOf (issueData : IssueData) : jsstring :=
  toLowerCase (title issueData) ++ lit " " ++ toLowerCase (description issueData).

Definition analyzeIssueForQA (issueData : IssueData)
  : outcome exn QAAnalysis :=
  let fullText := fullTextOf issueData in
  requirements <- extractRequirements issueData ;;
  acceptanceCriteria <- extractAcceptanceCriteria issueData ;;
  let testingSuggestions := generateTestingSuggestions issueData fullText in
  let riskAreas := identifyRiskAreas fullText (labels issueData) in
  let testTypes := determineTestTypes fullText (labels issueData) in
  Ok {| requirements := requirements;
        acceptanceCriteria := acceptanceCriteria;
        testingSuggestions := testingSuggestions;
        riskAreas := riskAreas;
        testTypes := testTypes |}.

End WithToLowerCase.

(** [fullText] holds none of the keywords of the suggestion table. *)
Definition mentionsKeyword (fullText : jsstring) : bool :=
  existsb (fun entry => existsb (fun keyword => includes fullText keyword)
                                (fst entry))
          testingSuggestionsTable.

(** Some pattern of [rules] matches [fullText]. *)
Definition matchesAny (rules : list (regexp * jsstring))
           (fullText : jsstring) : bool :=
  existsb (fun rule => test (fst rule) fullText) rules.

(** An issue with the given title, description and labels, the other
    fields empty: the inputs of the closed examples. *)
Definition issueOf (t d : jsstring) (l : list jsstring) : IssueData :=
  {| title := t; description := d; labels := l; assignees := [];
     author := []; state := []; created_at := []; updated_at := [];
     web_url := []; project_name := []; iid := 1 |}.

End QA.

(** *** The report formatter *)

Module Report.

Import QA.

(** A comment as the formatter reads it: [comment.author.name],
    [comment.created_at] and [comment.body].  The comments are the objects
    of an answer of the API: [author_name] is [None] for a comment without
    [author], on which reading [comment.author.name] raises a
    [TypeError]. *)
Record Comment : Type := {
  author_name : option jsstring;
  comment_created_at : jsstring;
  body : jsstring
}.

Definition nl : jsstring := [0x0A%N].

Fixpoint numbered_from (i : nat) (l : list jsstring) : list jsstring :=
  match l with
  | [] => []
  | x :: l' => (decimal (i + 1) ++ lit ". " ++ x) :: numbered_from (S i) l'
  end.

(** [l.map((x, index) => `${index + 1}. ${x}`).join('\n')]. *)
Definition numbered (l : list jsstring) : jsstring :=
  join nl (numbered_from 0 l).

Definition or_text (l : list jsstring) (shown fallback : jsstring) : jsstring :=
  if Nat.ltb 0 (List.length l) then shown else fallback.

(** [Array.prototype.slice(0, n)]. *)
Definition slice0 {A} (n : nat) (l : list A) : list A := firstn n l.

Definition moreNote : jsstring :=
  nl ++ lit "*(Mostrando solo los 3 comentarios más recientes)*".

Definition footer : jsstring :=
  nl ++ nl ++ lit "---" ++ nl
  ++ lit "*Análisis generado automáticamente por GitLab QA MCP Server*".

(** The template up to and including the two line feeds that precede the
    comments section. *)
Definition reportBody (issueData : IssueData) (qaAnalysis : QAAnalysis)
  : jsstring :=
  lit "# 📋 Análisis QA Completo" ++ nl ++ nl
  ++ lit "## 📄 Información del Issue" ++ nl
  ++ lit "**Proyecto:** " ++ project_name issueData ++ nl
  ++ lit "**Issue:** #" ++ decimal (iid issueData) ++ lit " - "
  ++ title issueData ++ nl
  ++ lit "**Estado:** " ++ state issueData ++ nl
  ++ lit "**Autor:** " ++ author issueData ++ nl
  ++ lit "**Asignados:** "
  ++ or_text (assignees issueData) (join (lit ", ") (assignees issueData))
             (lit "Sin asignar") ++ nl
  ++ lit "**Etiquetas:** "
  ++ or_text (labels issueData) (join (lit ", ") (labels issueData))
             (lit "Sin etiquetas") ++ nl
  ++ lit "**URL:** " ++ web_url issueData ++ nl ++ nl
  ++ lit "## 🎯 Requerimientos Identificados" ++ nl
  ++ numbered (requirements qaAnalysis) ++ nl ++ nl
  ++ lit "## ✅ Criterios de Aceptación" ++ nl
  ++ or_text (acceptanceCriteria qaAnalysis)
             (numbered (acceptanceCriteria qaAnalysis))
             (lit "No se encontraron criterios de aceptación explícitos. Revisar descripción del issue.")
  ++ nl ++ nl
  ++ lit "## 🧪 Sugerencias de Testing" ++ nl
  ++ numbered (testingSuggestions qaAnalysis) ++ nl ++ nl
  ++ lit "## ⚠️ Áreas de Riesgo Identificadas" ++ nl
  ++ or_text (riskAreas qaAnalysis) (numbered (riskAreas qaAnalysis))
             (lit "No se identificaron áreas de riesgo específicas.")
  ++ nl ++ nl
  ++ lit "## 🔬 Tipos de Testing Recomendados" ++ nl
  ++ numbered (testTypes qaAnalysis) ++ nl ++ nl
  ++ lit "## 📝 Descripción Original del Issue" ++ nl
  ++ (match description issueData with
      | [] => lit "Sin descripción proporcionada"
      | _ :: _ => description issueData
      end)
  ++ nl ++ nl.

Section WithLocale.

(** [x => new Date(x).toLocaleDateString('es-ES')]: parsing and printing of
    dates are the host's. *)
Variable toLocaleDateString_esES : jsstring -> jsstring.

Definition renderComment (comment : Comment) : outcome exn jsstring :=
  match author_name comment with
  | Some name =>
    Ok (lit "**" ++ name ++ lit "** ("
        ++ toLocaleDateString_esES (comment_created_at comment) ++ lit "):"
        ++ nl ++ body comment ++ nl)
  | None => Throw TypeError
  end.

(** [l.map(f)] for an [f] that may throw. *)
Fixpoint mapM {A B} (f : A -> outcome exn B) (l : list A)
  : outcome exn (list B) :=
  match l with
  | [] => Ok []
  | x :: l' => y <- f x ;; ys <- mapM f l' ;; Ok (y :: ys)
  end.

Definition commentsHeading (n : nat) : jsstring :=
  lit "## 💬 Comentarios Relevantes (" ++ decimal n ++ lit ")" ++ nl.

Definition commentsSection (comments : list Comment)
  : outcome exn jsstring :=
  if Nat.ltb 0 (List.length comments)
  then
    rendered <- mapM renderComment (slice0 3 comments) ;;
    Ok (commentsHeading (List.length comments)
        ++ join (nl ++ lit "---" ++ nl) rendered
        ++ (if Nat.ltb 3 (List.length comments) then moreNote else []))
  else Ok [].

Definition formatQAAnalysis (issueData : IssueData) (qaAnalysis : QAAnalysis)
           (comments : list Comment) : outcome exn jsstring :=
  section <- commentsSection comments ;;
  Ok (reportBody issueData qaAnalysis ++ section ++ footer).

End WithLocale.

End Report.

(** ** The numbers of the link parsers *)

Module JSNumber.

(** The numbers that [parseInt] gives for a run of decimal digits: a whole
    number that a double holds, or [Infinity].  A whole number [n : N] is
    read as the number [Finite n]. *)
Inductive number : Type :=
| Finite (n : N)
| Infinity.

Coercion Finite : N >-> number.

(** The Number value for a whole number: the nearest double, the one with
    the even significand when two are as near; [Infinity] from
    2^1024 - 2^970 on.  A double holds 53 significant bits. *)
Definition toDouble (n : N) : number :=
  if (n <? 2 ^ 53)%N then Finite n
  else
    let e := (N.log2 n - 52)%N in
    let q := N.shiftr n e in
    let r := (n - N.shiftl q e)%N in
    let half := N.shiftl 1 (e - 1) in
    let q' := if (half <? r)%N || ((r =? half)%N && N.odd q)
              then (q + 1)%N else q in
    let v := N.shiftl q' e in
    if (2 ^ 1024 <=? v)%N then Infinity else Finite v.

(** The printing of a number in a template literal, for the whole numbers
    below 2^53, whose digits are printed as they are, and for [Infinity];
    a double from 2^53 on is printed by its shortest digits, which this
    function does not compute.  For the closed examples: the functions
    that print a number take the printing as a parameter. *)
Definition printSmall (n : number) : jsstring :=
  match n with
  | Finite v => decimal (N.to_nat v)
  | Infinity => lit "Infinity"
  end.

End JSNumber.

Import JSNumber.

(** ** [parseGitHubIssueUrl] of [src/helpers/github.ts] *)

Module GitHub.

Record IssueRef : Type := {
  owner : jsstring;
  repo : jsstring;
  issueNumber : number
}.

Definition digit_value (c : N) : N := (c - 0x30)%N.

(** The whole number that a run of decimal digits writes. *)
Definition digitsValue (s : jsstring) : N :=
  fold_left (fun acc c => (acc * 10 + digit_value c)%N) s 0%N.

(** [parseInt(s, 10)] on a string of decimal digits, which is what the
    group [(\d+)] captures: the double nearest to the number written (V8
    rounds the whole run; the standard lets an implementation read the
    digits after the 20th significant one as zeros). *)
Definition parseInt10 (s : jsstring) : number :=
  toDouble (digitsValue s).

(** [m[n]] for a group that took part in the match; every group of the
    patterns below does. *)
Definition group (n : nat) (mt : match_result) : jsstring :=
  match capture n (captures mt) with
  | Some v => v
  | None => []
  end.

Definition notSlash : cset := CNot (chr "/").

(* /^https?:\/\/github\.com\/([^\/]+)\/([^\/]+)\/issues\/(\d+)/ *)
Definition issueUrlPattern : regexp :=
  {| source := seqs [Bol; str "http"; Opt (Chr (chr "s")); str "://github.com/";
                     Group 1 (Plus true (Chr notSlash)); Chr (chr "/");
                     Group 2 (Plus true (Chr notSlash)); str "/issues/";
                     Group 3 (Plus true (Chr CDigit))];
     flag := no_flags |}.

(** The pattern without its anchor [^]. *)
Definition issueUrlBody : regex :=
  seqs [str "http"; Opt (Chr (chr "s")); str "://github.com/";
        Group 1 (Plus true (Chr notSlash)); Chr (chr "/");
        Group 2 (Plus true (Chr notSlash)); str "/issues/";
        Group 3 (Plus true (Chr CDigit))].

Definition invalidIssueUrl : exn :=
  McpError InvalidParams
    (lit "URL de issue de GitHub inválido. Formato esperado: https://github.com/owner/repo/issues/123").

Definition parseGitHubIssueUrl (url : jsstring) : outcome exn IssueRef :=
  match str_match url issueUrlPattern with
  | None => Throw invalidIssueUrl
  | Some m =>
    Ok {| owner := group 1 m; repo := group 2 m;
          issueNumber := parseInt10 (group 3 m) |}
  end.

(** The shape the parser expects, read off a string without the regular
    expression: [http://] or [https://], the host [github.com], an owner and
    a repository name without [/], [/issues/] and a decimal number; what
    follows the first digit is not looked at. *)
Definition strip (p s : jsstring) : option jsstring :=
  if startsWith s p then Some (skipn (List.length p) s) else None.

Fixpoint segment (s : jsstring) : jsstring * jsstring :=
  match s with
  | c :: s' =>
    if N.eqb c 0x2F then ([], s)
    else let (a, b) := segment s' in (c :: a, b)
  | [] => ([], [])
  end.

Definition after_scheme (url : jsstring) : option jsstring :=
  match strip (lit "https://") url with
  | Some r => Some r
  | None => strip (lit "http://") url
  end.

Definition issueShape (url : jsstring) : bool :=
  match after_scheme url with
  | None => false
  | Some r0 =>
    match strip (lit "github.com/") r0 with
    | None => false
    | Some r1 =>
      let (o, r2) := segment r1 in
      match o, r2 with
      | _ :: _, _ :: r3 =>
        let (p, r4) := segment r3 in
        match p, strip (lit "/issues/") r4 with
        | _ :: _, Some (d :: _) => in_range 0x30 0x39 d
        | _, _ => false
        end
      | _, _ => false
      end
    end
  end.

(** The shape the specification names,
    [https://github.com/owner/repo/issues/{n}], read to the letter: the
    scheme [https], the host [github.com], an owner and a repository name
    without [/], [/issues/], and decimal digits up to the end. *)
Definition statedShape (url : jsstring) : bool :=
  match strip (lit "https://") url with
  | None => false
  | Some r0 =>
    match strip (lit "github.com/") r0 with
    | None => false
    | Some r1 =>
      let (o, r2) := segment r1 in
      match o, r2 with
      | _ :: _, _ :: r3 =>
        let (p, r4) := segment r3 in
        match p, strip (lit "/issues/") r4 with
        | _ :: _, Some (d :: ds) => forallb (in_range 0x30 0x39) (d :: ds)
        | _, _ => false
        end
      | _, _ => false
      end
    end
  end.

End GitHub.

(** ** [parseGitLabUrl] of [src/helpers/gitlab.ts] *)

Module GitLab.

Import GitHub.

Record IssueRef : Type := {
  gitlabUrl : jsstring;
  projectId : jsstring;
  issueIid : number
}.

(* /^https?:\/\/([^\/]+)\/(.+)\/-\/issues\/(\d+)/ *)
Definition urlPattern : regexp :=
  {| source := seqs [Bol; str "http"; Opt (Chr (chr "s")); str "://";
                     Group 1 (Plus true (Chr notSlash)); Chr (chr "/");
                     Group 2 (Plus true (Chr CAny)); str "/-/issues/";
                     Group 3 (Plus true (Chr CDigit))];
     flag := no_flags |}.

Definition invalidIssueUrl : exn :=
  McpError InvalidParams
    (lit "URL de issue de GitLab inválido. Formato esperado: https://gitlab.com/namespace/project/-/issues/123").

Section WithUrl.

(** [x => new URL(x).hostname]; [None] when the constructor throws its
    [TypeError]. *)
Variable hostname : jsstring -> option jsstring.

Definition parseGitLabUrl (baseUrl url : jsstring) : outcome exn IssueRef :=
  match str_match url urlPattern with
  | None => Throw invalidIssueUrl
  | Some m =>
    let domain := group 1 m in
    let projectPath := group 2 m in
    let issueIid := group 3 m in
    match hostname baseUrl with
    | None => Throw TypeError
    | Some currentHost =>
      let gitlabUrl :=
        if negb (str_eqb domain currentHost) then lit "https://" ++ domain
        else baseUrl in
      Ok {| gitlabUrl := gitlabUrl; projectId := projectPath;
            issueIid := parseInt10 issueIid |}
    end
  end.

End WithUrl.

(** The host name of a URL of the plain form [scheme://host/...], for the
    closed examples. *)
Definition plain_hostname (u : jsstring) : option jsstring :=
  match after_scheme u with
  | Some r => Some (toLowerCase_latin1 (fst (segment r)))
  | None => None
  end.

End GitLab.

(** ** [mongoHandler] of the database tools *)

Module Db.

Section Mongo.

(** [String.prototype.toLowerCase]. *)
Variable toLowerCase : jsstring -> jsstring.

(** The documents and options passed to the driver and the values it
    returns; [JSON.stringify] prints a result. *)
Variable json : Type.
Variable emptyObject : json.
Variable stringify : json -> jsstring.

Record MongoArgs : Type := {
  uri : jsstring;
  database : jsstring;
  collection : jsstring;
  operation : option jsstring;
  filter : option json;
  update : option json;
  options : option json;
  document : option json
}.

(** The calls the handler makes into the [mongodb] package, in the order of
    the source. *)
Inductive MongoCall : Type :=
| ImportModule
| NewClient (uri : jsstring)
| Connect
| GetDb (database : jsstring)
| GetCollection (collection : jsstring)
| FindOne (filter : json)
| FindMany (filter options : json)
| InsertOne (document : json)
| UpdateMany (filter update options : json)
| DeleteMany (filter options : json)
| Close.

Definition isCollectionOperation (c : MongoCall) : bool :=
  match c with
  | FindOne _ | FindMany _ _ | InsertOne _ | UpdateMany _ _ _
  | DeleteMany _ _ => true
  | _ => false
  end.

(** The driver and the server behind it: a call returns a value or throws
    an error with a message. *)
Variable driver : MongoCall -> jsstring + json.

(** Computations that log the calls made and may throw. *)
Definition M (A : Type) : Type :=
  list MongoCall -> list MongoCall * outcome exn A.

Definition ret {A} (a : A) : M A := fun log => (log, Ok a).

Definition throw {A} (e : exn) : M A := fun log => (log, Throw e).

Definition mbind {A B} (x : M A) (f : A -> M B) : M B :=
  fun log =>
    match x log with
    | (log', Ok a) => f a log'
    | (log', Throw e) => (log', Throw e)
    | (log', Diverge) => (log', Diverge)
    end.

Definition call (c : MongoCall) : M json :=
  fun log =>
    (log ++ [c],
     match driver c with
     | inl message => Throw (DriverError message)
     | inr v => Ok v
     end).

(** [try { body } catch (error) { handler(error) }]. *)
Definition try_catch {A} (body : M A) (handler : exn -> M A) : M A :=
  fun log =>
    match body log with
    | (log', Throw e) => handler e log'
    | r => r
    end.

(** [x || d] for an optional argument. *)
Definition orElse {A} (x : option A) (d : A) : A :=
  match x with Some v => v | None => d end.

(** [x || ''] for a string: the empty string is falsy too. *)
Definition orEmpty (x : option jsstring) : jsstring := orElse x [].

Definition codeNumber (c : ErrorCode) : jsstring :=
  match c with
  | InvalidParams => lit "-32602"
  | InternalError => lit "-32603"
  | MethodNotFound => lit "-32601"
  end.

(** [error?.message || String(error)]: the SDK's [McpError] prefixes the
    message it is given with its code; a driver error carries the text
    this expression reads.  The message of a [URIError] is V8's; that of a
    [TypeError] depends on what raised it, and only the name of the error
    stands for it here: no property below reads it. *)
Definition messageOf (e : exn) : jsstring :=
  match e with
  | McpError c message => lit "MCP error " ++ codeNumber c ++ lit ": " ++ message
  | TypeError => lit "TypeError"
  | DriverError message => message
  | URIError => lit "URI malformed"
  end.

Record ToolResult : Type := { text : jsstring }.

Definition supportedOperations : list jsstring :=
  [lit "find_one"; lit "find_many"; lit "insert_one"; lit "update_many";
   lit "delete_many"].

Definition unsupported : exn :=
  McpError InvalidParams (lit "Operación no soportada").

Definition runOperation (args : MongoArgs) : M json :=
  let op := toLowerCase (orEmpty (operation args)) in
  if str_eqb op (lit "find_one") then
    call (FindOne (orElse (filter args) emptyObject))
  else if str_eqb op (lit "find_many") then
    call (FindMany (orElse (filter args) emptyObject)
                   (orElse (options args) emptyObject))
  else if str_eqb op (lit "insert_one") then
    call (InsertOne (orElse (document args) emptyObject))
  else if str_eqb op (lit "update_many") then
    call (UpdateMany (orElse (filter args) emptyObject)
                     (orElse (update args) emptyObject)
                     (orElse (options args) emptyObject))
  else if str_eqb op (lit "delete_many") then
    call (DeleteMany (orElse (filter args) emptyObject)
                     (orElse (options args) emptyObject))
  else throw unsupported.

Definition mongoHandler (args : MongoArgs) : M ToolResult :=
  try_catch
    (mbind (call ImportModule) (fun _ =>
     mbind (call (NewClient (uri args))) (fun _ =>
     mbind (call Connect) (fun _ =>
     mbind (call (GetDb (database args))) (fun _ =>
     mbind (call (GetCollection (collection args))) (fun _ =>
     mbind (runOperation args) (fun result =>
     mbind (call Close) (fun _ =>
     ret {| text := stringify result |}))))))))
    (fun error => throw (McpError InternalError (messageOf error))).

(** A call of the tool: the calls made into the driver and the outcome. *)
Definition run_mongoHandler (args : MongoArgs)
  : list MongoCall * outcome exn ToolResult :=
  mongoHandler args [].

End Mongo.

(** A driver that answers every call with [null], and the arguments of a
    query for a given operation: the inputs of the closed examples. *)
Definition nullDriver (c : MongoCall jsstring) : jsstring + jsstring :=
  inr (lit "null").

Definition queryArgs (op : jsstring) : MongoArgs jsstring :=
  {| uri := lit "mongodb://localhost:27017"; database := lit "qa";
     collection := lit "issues"; operation := Some op;
     filter := None; update := None; options := None; document := None |}.

Definition run_sample (op : jsstring)
  : list (MongoCall jsstring) * outcome exn ToolResult :=
  run_mongoHandler toLowerCase_latin1 (lit "{}") (fun v => v) nullDriver
                   (queryArgs op).

End Db.

(** ** Auxiliary notions for the properties of the analyzer *)

Module QAProps.

(** [x] occurs verbatim in [text]. *)
Definition excerpt (x text : jsstring) : Prop :=
  exists a b, text = a ++ x ++ b.

(** [x] has no white space at either end. *)
Definition isTrimmed (x : jsstring) : bool :=
  match x with
  | [] => true
  | c :: _ => negb (isSpace c) && negb (isSpace (last x 0%N))
  end.

End QAProps.

Import QAProps.

Module ListProps.

(** No string occurs twice in [l]. *)
Fixpoint nodupb (l : list jsstring) : bool :=
  match l with
  | [] => true
  | x :: l' => negb (arr_includes l' x) && nodupb l'
  end.

(** Some word of [ws] occurs in [text]. *)
Definition includesAny (text : jsstring) (ws : list jsstring) : bool :=
  existsb (fun w => includes text w) ws.

End ListProps.

Import ListProps.

Module RegExpProps.

(** The input [t] is at its end or goes on with a character outside [a]. *)
Definition stops_at (fl : flags) (a : cset) (t : jsstring) : Prop :=
  match t with
  | [] => True
  | x :: _ => cset_mem fl a x = false
  end.

End RegExpProps.

Import RegExpProps.

Module UrlProps.

Definition isDigit (c : N) : bool := in_range 0x30 0x39 c.

Definition isHex (c : N) : bool :=
  in_range 0x30 0x39 c || in_range 0x61 0x66 c || in_range 0x41 0x46 c.

(** A path segment: not empty and without [/]. *)
Definition isSegment (s : jsstring) : bool :=
  negb (Nat.eqb (List.length s) 0)
  && forallb (fun c => negb (N.eqb c 0x2F)) s.

(** A decimal number: one digit or more. *)
Definition isNumber (s : jsstring) : bool :=
  negb (Nat.eqb (List.length s) 0) && forallb isDigit s.

(** [rest] does not go on with a character that [p] accepts. *)
Definition endsRun (p : N -> bool) (rest : jsstring) : bool :=
  match rest with
  | [] => true
  | c :: _ => negb (p c)
  end.

Definition scheme (secure : bool) : jsstring :=
  if secure then lit "https" else lit "http".

End UrlProps.

Import UrlProps.

Module Links.

Import GitHub.

(** The four link parsers share one pattern:
    [^https?] [sep] [(A)] [/] [(B)] [mid] [(C)]. *)
Definition linkPattern (sep : jsstring) (A B : regex) (mid : jsstring)
           (C : regex) : regex :=
  seqs [Bol; str "http"; Opt (Chr (chr "s")); Str sep;
        Group 1 A; Chr (chr "/"); Group 2 B; Str mid; Group 3 C].

(** [r] can consume exactly [w]. *)
Definition Takes (fl : flags) (r : regex) (w : jsstring) : Prop :=
  exists s s', Matches fl r s s' /\ rest s = w ++ rest s'.

(** The quantifier [{lo,hi}] on an atom that consumes one character and
    captures nothing: [lo] copies, then up to [hi - lo] more, as many as
    can be had. *)
Fixpoint AtMost (n : nat) (a : regex) : regex :=
  match n with
  | 0 => Empty
  | S n' => Opt (Seq a (AtMost n' a))
  end.

Fixpoint Times (n : nat) (a r : regex) : regex :=
  match n with
  | 0 => r
  | S n' => Seq a (Times n' a r)
  end.

Definition Between (lo hi : nat) (a : regex) : regex :=
  Times lo a (AtMost (hi - lo) a).

(* [0-9a-fA-F] *)
Definition hexDigit : cset :=
  CUnion (CRange 0x30 0x39) (CUnion (CRange 0x61 0x66) (CRange 0x41 0x46)).

End Links.

(** ** [parseGitHubCommitUrl] of [src/helpers/github.ts] *)

Module GitHubCommit.

Import GitHub Links.

Record CommitRef : Type := {
  owner : jsstring;
  repo : jsstring;
  sha : jsstring
}.

(* /^https?:\/\/github\.com\/([^\/]+)\/([^\/]+)\/commit\/([0-9a-fA-F]{7,40})/ *)
Definition commitUrlPattern : regexp :=
  {| source := seqs [Bol; str "http"; Opt (Chr (chr "s")); str "://github.com/";
                     Group 1 (Plus true (Chr notSlash)); Chr (chr "/");
                     Group 2 (Plus true (Chr notSlash)); str "/commit/";
                     Group 3 (Between 7 40 (Chr hexDigit))];
     flag := no_flags |}.

Definition invalidCommitUrl : exn :=
  McpError InvalidParams
    (lit "URL de commit de GitHub inválido. Formato esperado: https://github.com/owner/repo/commit/<sha>").

Definition parseGitHubCommitUrl (url : jsstring) : outcome exn CommitRef :=
  match str_match url commitUrlPattern with
  | None => Throw invalidCommitUrl
  | Some m => Ok {| owner := group 1 m; repo := group 2 m; sha := group 3 m |}
  end.

End GitHubCommit.

(** ** [parseGitLabCommitUrl] of [src/helpers/gitlab.ts] *)

Module GitLabCommit.

Import GitHub Links.

Record CommitRef : Type := {
  gitlabUrl : jsstring;
  projectId : jsstring;
  sha : jsstring
}.

(* /^https?:\/\/([^\/]+)\/(.+)\/-\/commit\/([0-9a-fA-F]{7,40})/ *)
Definition urlPattern : regexp :=
  {| source := seqs [Bol; str "http"; Opt (Chr (chr "s")); str "://";
                     Group 1 (Plus true (Chr notSlash)); Chr (chr "/");
                     Group 2 (Plus true (Chr CAny)); str "/-/commit/";
                     Group 3 (Between 7 40 (Chr hexDigit))];
     flag := no_flags |}.

Definition invalidCommitUrl : exn :=
  McpError InvalidParams
    (lit "URL de commit de GitLab inválido. Formato esperado: https://gitlab.com/namespace/project/-/commit/<sha>").

Section WithUrl.

(** [x => new URL(x).hostname]; [None] when the constructor throws its
    [TypeError]. *)
Variable hostname : jsstring -> option jsstring.

Definition parseGitLabCommitUrl (baseUrl url : jsstring)
  : outcome exn CommitRef :=
  match str_match url urlPattern with
  | None => Throw invalidCommitUrl
  | Some m =>
    let domain := group 1 m in
    let projectPath := group 2 m in
    let sha := group 3 m in
    match hostname baseUrl with
    | None => Throw TypeError
    | Some currentHost =>
      let gitlabUrl :=
        if negb (str_eqb domain currentHost) then lit "https://" ++ domain
        else baseUrl in
      Ok {| gitlabUrl := gitlabUrl; projectId := projectPath; sha := sha |}
    end
  end.

End WithUrl.

End GitLabCommit.

Import Links.

(** ** The tool registry and the dispatcher of [src/service.ts] *)

Module Service.

Import Db.

Definition gitlabToolNames : list jsstring :=
  [lit "analyze_gitlab_issue_for_qa"; lit "get_gitlab_issue_qa_summary";
   lit "gitlab_get_commit_by_url"; lit "gitlab_get_commit";
   lit "gitlab_api_get"].

Definition httpToolNames : list jsstring := [lit "http_request"].

Definition dbToolNames : list jsstring :=
  [lit "postgres_query"; lit "mysql_query"; lit "mongo_query"].

Definition webToolNames : list jsstring := [lit "web_search"].

Definition githubToolNames : list jsstring :=
  [lit "analyze_github_issue_for_qa"; lit "get_github_issue_qa_summary";
   lit "github_get_commit_by_url"; lit "github_get_commit";
   lit "github_api_get"].

(** A string in a condition: the empty string is false. *)
Definition truthy (s : jsstring) : bool :=
  match s with [] => false | _ :: _ => true end.

(** [process.env.X || d]. *)
Definition envOr (v : option jsstring) (d : jsstring) : jsstring :=
  match v with
  | Some s => if truthy s then s else d
  | None => d
  end.

Section Server.

(** What the handlers act on (the network, the databases, the context of
    the GitLab tools), their arguments and their results. *)
Variable World Args Result : Type.

Definition Handler : Type := Args -> World -> World * outcome exn Result.

Record McpTool : Type := { name : jsstring; handler : Handler }.

(** The bodies of the handlers, by the name of their tool. *)
Variable handlerOf : jsstring -> Handler.

Definition toolsNamed (names : list jsstring) : list McpTool :=
  map (fun n => {| name := n; handler := handlerOf n |}) names.

Definition createGitLabTools : list McpTool := toolsNamed gitlabToolNames.
Definition createHttpTools : list McpTool := toolsNamed httpToolNames.
Definition createDbTools : list McpTool := toolsNamed dbToolNames.
Definition createWebTools : list McpTool := toolsNamed webToolNames.
Definition createGitHubTools : list McpTool := toolsNamed githubToolNames.

(** The constructor of the server: the tools it registers, given the
    environment variable [GITLAB_ACCESS_TOKEN]. *)
Definition serverTools (GITLAB_ACCESS_TOKEN : option jsstring)
  : list McpTool :=
  let accessToken := envOr GITLAB_ACCESS_TOKEN [] in
  (if truthy accessToken then createGitLabTools else [])
  ++ createHttpTools ++ createDbTools ++ createWebTools ++ createGitHubTools.

(** The handler of [ListToolsRequestSchema], by names. *)
Definition listTools (tools : list McpTool) : list jsstring :=
  map name tools.

(** The [catch] clause of the dispatcher. *)
Definition rethrow (toolName : jsstring) (r : World * outcome exn Result)
  : World * outcome exn Result :=
  match r with
  | (w, Throw (McpError code message)) => (w, Throw (McpError code message))
  | (w, Throw error) =>
    (w, Throw (McpError InternalError
                 (lit "Error ejecutando " ++ toolName ++ lit ": "
                  ++ messageOf error)))
  | _ => r
  end.

(** The handler of [CallToolRequestSchema]. *)
Definition callTool (tools : list McpTool) (toolName : jsstring)
           (args : Args) (w : World) : World * outcome exn Result :=
  match find (fun t => str_eqb (name t) toolName) tools with
  | None =>
    (w, Throw (McpError MethodNotFound
                 (lit "Herramienta desconocida: " ++ toolName)))
  | Some tool => rethrow toolName (handler tool args w)
  end.

End Server.

End Service.

(** ** [encodeURIComponent] *)

Module Uri.

(** The characters that [encodeURIComponent] keeps: letters, digits and
    [- _ . ! ~ * ' ( )]. *)
Definition unreserved (c : N) : bool :=
  in_range 0x41 0x5A c || in_range 0x61 0x7A c || in_range 0x30 0x39 c
  || existsb (N.eqb c)
             [0x2D; 0x5F; 0x2E; 0x21; 0x7E; 0x2A; 0x27; 0x28; 0x29]%N.

Definition hexDigitOf (n : N) : N :=
  if (n <? 10)%N then (0x30 + n)%N else (0x41 + (n - 10))%N.

(** [%XX] for an octet, in upper case. *)
Definition percent (octet : N) : jsstring :=
  [0x25%N; hexDigitOf (octet / 16); hexDigitOf (octet mod 16)].

(** The octets of the UTF-8 encoding of a code point. *)
Definition utf8 (cp : N) : list N :=
  if (cp <? 0x80)%N then [cp]
  else if (cp <? 0x800)%N then [0xC0 + cp / 64; 0x80 + cp mod 64]%N
  else if (cp <? 0x10000)%N
       then [0xE0 + cp / 4096; 0x80 + (cp / 64) mod 64; 0x80 + cp mod 64]%N
       else [0xF0 + cp / 262144; 0x80 + (cp / 4096) mod 64;
             0x80 + (cp / 64) mod 64; 0x80 + cp mod 64]%N.

Definition isLeadSurrogate (c : N) : bool := in_range 0xD800 0xDBFF c.
Definition isTrailSurrogate (c : N) : bool := in_range 0xDC00 0xDFFF c.

(** [encodeURIComponent(s)]; [None] when it throws its [URIError], which
    it does on a surrogate that is not part of a pair. *)
Fixpoint encodeURIComponent (s : jsstring) : option jsstring :=
  match s with
  | [] => Some []
  | c :: t =>
    if unreserved c then option_map (cons c) (encodeURIComponent t)
    else if isLeadSurrogate c then
      match t with
      | d :: t' =>
        if isTrailSurrogate d
        then option_map
               (app (flat_map percent
                       (utf8 (0x10000 + (c - 0xD800) * 1024 + (d - 0xDC00))%N)))
               (encodeURIComponent t')
        else None
      | [] => None
      end
    else if isTrailSurrogate c then None
    else option_map (app (flat_map percent (utf8 c))) (encodeURIComponent t)
  end.

End Uri.

(** ** The GitLab tools of [src/tools/gitlab.ts] and the requests of
    [src/helpers/gitlab.ts] *)

Module GitLabTools.

Import QA Report.

(** The object [ctx] that the five tools share; the server creates it from
    [GITLAB_URL] and [GITLAB_ACCESS_TOKEN]. *)
Record Ctx : Type := {
  gitlabUrl : jsstring;
  accessToken : jsstring
}.

(** What [axios.get] raises: the server answered with an error status
    ([error.response] is set), or there is no answer. *)
Inductive AxiosError : Type :=
| Responded (status : jsstring) (message : jsstring)
| NoResponse (message : jsstring).

Section Tools.

Variable toLowerCase : jsstring -> jsstring.
Variable toLocaleDateString_esES : jsstring -> jsstring.

(** [x => new URL(x).hostname]; [None] when the constructor throws. *)
Variable hostname : jsstring -> option jsstring.

(** The printing of a number in a template literal. *)
Variable numberToString : number -> jsstring.

(** The data of a response, and [JSON.stringify]. *)
Variable json : Type.
Variable stringify : json -> jsstring.

(** [axios.get(url, { headers: { Authorization: `Bearer ${bearer}`, ... },
    params })]. *)
Record Request : Type := {
  url : jsstring;
  bearer : jsstring;
  params : option json
}.

(** The network: the answer to a request, given the requests made before. *)
Variable network : list Request -> Request -> AxiosError + json.

(** The object literal that [getIssueData] builds from the two answers;
    reading [issue.author.username] raises a [TypeError] when the answer
    has no author. *)
Variable issueDataOf : json -> json -> outcome exn IssueData.

(** [comments.filter(c => !c.system)], as the comments the formatter
    reads; a [TypeError] when the answer is not an array. *)
Variable userCommentsOf : json -> outcome exn (list Comment).

(** When both requests of a [Promise.all] fail: whether the second one is
    the first to do so. *)
Variable secondRejectsFirst : bool.

(** The tools run on the shared context and the requests made so far. *)
Definition World : Type := (Ctx * list Request)%type.

Definition T (A : Type) : Type := World -> World * outcome exn A.

Definition ret {A} (a : A) : T A := fun w => (w, Ok a).

Definition lift {A} (o : outcome exn A) : T A := fun w => (w, o).

Definition tbind {A B} (x : T A) (f : A -> T B) : T B :=
  fun w =>
    match x w with
    | (w', Ok a) => f a w'
    | (w', Throw e) => (w', Throw e)
    | (w', Diverge) => (w', Diverge)
    end.

Definition getCtx : T Ctx := fun w => (w, Ok (fst w)).

(** [ctx.gitlabUrl = u]. *)
Definition setGitlabUrl (u : jsstring) : T unit :=
  fun w => (({| gitlabUrl := u; accessToken := accessToken (fst w) |}, snd w),
            Ok tt).

(** [encodeURIComponent(s)] inside a template literal. *)
Definition encoded (s : jsstring) : outcome exn jsstring :=
  match Uri.encodeURIComponent s with
  | Some e => Ok e
  | None => Throw URIError
  end.

Definition makeGitLabRequest (gitlabUrl accessToken endpoint : jsstring)
           (params : option json) : T json :=
  fun w =>
    let request := {| url := gitlabUrl ++ lit "/api/v4" ++ endpoint;
                      bearer := accessToken; params := params |} in
    ((fst w, snd w ++ [request]),
     match network (snd w) request with
     | inr data => Ok data
     | inl (Responded status message) =>
       Throw (McpError InternalError
                (lit "Error de GitLab API: " ++ status ++ lit " - " ++ message))
     | inl (NoResponse message) =>
       Throw (McpError InternalError (lit "Error de conexión: " ++ message))
     end).

(** [`/projects/${project}/issues/${issueIid}`], [project] being the
    encoded project. *)
Definition issueEndpoint (project : jsstring) (issueIid : number)
  : jsstring :=
  lit "/projects/" ++ project ++ lit "/issues/" ++ numberToString issueIid.

Definition projectEndpoint (project : jsstring) : jsstring :=
  lit "/projects/" ++ project.

Definition commitEndpoint (project sha : jsstring) : jsstring :=
  lit "/projects/" ++ project ++ lit "/repository/commits/" ++ sha.

(** [Promise.all] of two requests: the two endpoints are computed and the
    requests sent, in this order, before either is answered; when the
    project cannot be encoded no request is sent. *)
Definition getIssueData (gitlabUrl accessToken projectId : jsstring)
           (issueIid : number) : T IssueData :=
  tbind (lift (encoded projectId)) (fun project =>
  fun w =>
    let (w1, issue) :=
        makeGitLabRequest gitlabUrl accessToken
                          (issueEndpoint project issueIid) None w in
    let (w2, answer) :=
        makeGitLabRequest gitlabUrl accessToken
                          (projectEndpoint project) None w1 in
    (w2,
     match issue, answer with
     | Ok i, Ok p => issueDataOf i p
     | Throw e1, Throw e2 => Throw (if secondRejectsFirst then e2 else e1)
     | Throw e1, _ => Throw e1
     | _, Throw e2 => Throw e2
     | _, _ => Diverge
     end)).

Definition getGitLabCommit (gitlabUrl accessToken projectId sha : jsstring)
  : T json :=
  tbind (lift (encoded projectId)) (fun project =>
  makeGitLabRequest gitlabUrl accessToken (commitEndpoint project sha) None).

(** The handler of [analyze_gitlab_issue_for_qa]. *)
Definition analyzeHandler (issueUrl : jsstring) (argToken : option jsstring)
  : T Db.ToolResult :=
  tbind getCtx (fun ctx =>
  tbind (lift (GitLab.parseGitLabUrl hostname (gitlabUrl ctx) issueUrl))
        (fun parsed =>
  tbind (setGitlabUrl (GitLab.gitlabUrl parsed)) (fun _ =>
  tbind getCtx (fun ctx =>
  let token := Service.envOr argToken (accessToken ctx) in
  tbind (getIssueData (gitlabUrl ctx) token (GitLab.projectId parsed)
                      (GitLab.issueIid parsed)) (fun issueData =>
  tbind (lift (encoded (GitLab.projectId parsed))) (fun project =>
  tbind (makeGitLabRequest (gitlabUrl ctx) token
           (issueEndpoint project (GitLab.issueIid parsed) ++ lit "/notes")
           None) (fun comments =>
  tbind (lift (userCommentsOf comments)) (fun userComments =>
  tbind (lift (analyzeIssueForQA toLowerCase issueData)) (fun qaAnalysis =>
  tbind (lift (formatQAAnalysis toLocaleDateString_esES issueData
                                qaAnalysis userComments)) (fun formatted =>
  ret {| Db.text := formatted |})))))))))).

(** The handler of [gitlab_get_commit_by_url]. *)
Definition getCommitByUrlHandler (commitUrl : jsstring)
           (argToken : option jsstring) : T Db.ToolResult :=
  tbind getCtx (fun ctx =>
  tbind (lift (GitLabCommit.parseGitLabCommitUrl hostname (gitlabUrl ctx)
                                                  commitUrl))
        (fun parsed =>
  tbind (setGitlabUrl (GitLabCommit.gitlabUrl parsed)) (fun _ =>
  tbind getCtx (fun ctx =>
  let token := Service.envOr argToken (accessToken ctx) in
  tbind (getGitLabCommit (gitlabUrl ctx) token (GitLabCommit.projectId parsed)
                         (GitLabCommit.sha parsed)) (fun commit =>
  ret {| Db.text := stringify commit |}))))).

(** The handler of [gitlab_get_commit]. *)
Definition getCommitHandler (projectId sha : jsstring)
           (argToken : option jsstring) : T Db.ToolResult :=
  tbind getCtx (fun ctx =>
  let token := Service.envOr argToken (accessToken ctx) in
  tbind (getGitLabCommit (gitlabUrl ctx) token projectId sha) (fun commit =>
  ret {| Db.text := stringify commit |})).

(** The handler of [gitlab_api_get]. *)
Definition apiGetHandler (endpoint : jsstring) (params : option json)
           (argToken : option jsstring) : T Db.ToolResult :=
  tbind getCtx (fun ctx =>
  let token := Service.envOr argToken (accessToken ctx) in
  tbind (makeGitLabRequest (gitlabUrl ctx) token endpoint params) (fun data =>
  ret {| Db.text := stringify data |})).

End Tools.

(** A context and two networks for the closed examples: one that is
    unreachable and one that answers every request with an empty object. *)
Definition configured : Ctx :=
  {| gitlabUrl := lit "https://gitlab.com";
     accessToken := lit "glpat-configured" |}.

Definition offline (log : list (Request jsstring)) (r : Request jsstring)
  : AxiosError + jsstring :=
  inl (NoResponse (lit "ECONNREFUSED")).

Definition echo (log : list (Request jsstring)) (r : Request jsstring)
  : AxiosError + jsstring :=
  inr (lit "{}").

End GitLabTools.

(** ** The GitHub tools of [src/tools/github.ts] and the requests of
    [src/helpers/github.ts] *)

Module GitHubTools.

Import QA Report.

Section Tools.

Variable toLowerCase : jsstring -> jsstring.
Variable toLocaleDateString_esES : jsstring -> jsstring.

(** The printing of a number in a template literal. *)
Variable numberToString : number -> jsstring.

Variable json : Type.
Variable stringify : json -> jsstring.

(** [axios.get(url, { headers: { Authorization: `Bearer ${bearer}`, ... },
    params })]. *)
Record Request : Type := {
  url : jsstring;
  bearer : jsstring;
  params : option json
}.

Variable network :
  list Request -> Request -> GitLabTools.AxiosError + json.

(** The object literal that [getGitHubIssueData] builds from the two
    answers; reading [issue.user.login] may raise a [TypeError]. *)
Variable issueDataOf : json -> json -> outcome exn IssueData.

(** [comments || []], as the comments the formatter reads. *)
Variable commentsOf : json -> list Comment.

Variable secondRejectsFirst : bool.

(** The tools run on the requests made so far. *)
Definition T (A : Type) : Type :=
  list Request -> list Request * outcome exn A.

Definition ret {A} (a : A) : T A := fun w => (w, Ok a).

Definition throw {A} (e : exn) : T A := fun w => (w, Throw e).

Definition lift {A} (o : outcome exn A) : T A := fun w => (w, o).

Definition tbind {A B} (x : T A) (f : A -> T B) : T B :=
  fun w =>
    match x w with
    | (w', Ok a) => f a w'
    | (w', Throw e) => (w', Throw e)
    | (w', Diverge) => (w', Diverge)
    end.

Definition makeGitHubRequest (accessToken endpoint : jsstring)
           (params : option json) : T json :=
  fun w =>
    let request := {| url := lit "https://api.github.com" ++ endpoint;
                      bearer := accessToken; params := params |} in
    (w ++ [request],
     match network w request with
     | inr data => Ok data
     | inl (GitLabTools.Responded status message) =>
       Throw (McpError InternalError
                (lit "Error de GitHub API: " ++ status ++ lit " - " ++ message))
     | inl (GitLabTools.NoResponse message) =>
       Throw (McpError InternalError (lit "Error de conexión: " ++ message))
     end).

Definition repoEndpoint (owner repo : jsstring) : jsstring :=
  lit "/repos/" ++ owner ++ lit "/" ++ repo.

Definition issueEndpoint (owner repo : jsstring) (issueNumber : number)
  : jsstring :=
  repoEndpoint owner repo ++ lit "/issues/" ++ numberToString issueNumber.

(** [Promise.all] of two requests: both are sent, in this order, before
    either is answered. *)
Definition getGitHubIssueData (accessToken owner repo : jsstring)
           (issueNumber : number) : T IssueData :=
  fun w =>
    let (w1, issue) :=
        makeGitHubRequest accessToken (issueEndpoint owner repo issueNumber)
                          None w in
    let (w2, repository) :=
        makeGitHubRequest accessToken (repoEndpoint owner repo) None w1 in
    (w2,
     match issue, repository with
     | Ok i, Ok p => issueDataOf i p
     | Throw e1, Throw e2 => Throw (if secondRejectsFirst then e2 else e1)
     | Throw e1, _ => Throw e1
     | _, Throw e2 => Throw e2
     | _, _ => Diverge
     end).

Definition getGitHubCommit (accessToken owner repo sha : jsstring) : T json :=
  makeGitHubRequest accessToken
    (repoEndpoint owner repo ++ lit "/commits/" ++ sha) None.

Definition tokenRequiredForIssues : exn :=
  McpError InvalidParams
    (lit "Se requiere un token de acceso de GitHub. Proporciona 'accessToken' en los argumentos o configura GITHUB_ACCESS_TOKEN en las variables de entorno.").

Definition tokenRequired : exn :=
  McpError InvalidParams
    (lit "Se requiere un token de acceso de GitHub. Proporciona 'accessToken' o configura GITHUB_ACCESS_TOKEN.").

(** [createGitHubTools({ defaultAccessToken })]: the handlers close over
    the default token. *)
Variable defaultAccessToken : jsstring.

(** The handler of [analyze_github_issue_for_qa]. *)
Definition analyzeHandler (issueUrl : jsstring) (argToken : option jsstring)
  : T Db.ToolResult :=
  let accessToken := Service.envOr argToken defaultAccessToken in
  if negb (Service.truthy accessToken) then throw tokenRequiredForIssues
  else
    tbind (lift (GitHub.parseGitHubIssueUrl issueUrl)) (fun parsed =>
    let owner := GitHub.owner parsed in
    let repo := GitHub.repo parsed in
    let issueNumber := GitHub.issueNumber parsed in
    tbind (getGitHubIssueData accessToken owner repo issueNumber)
          (fun issueData =>
    tbind (lift (analyzeIssueForQA toLowerCase issueData)) (fun qa =>
    tbind (makeGitHubRequest accessToken
             (issueEndpoint owner repo issueNumber ++ lit "/comments") None)
          (fun comments =>
    tbind (lift (formatQAAnalysis toLocaleDateString_esES issueData qa
                                  (commentsOf comments)))
          (fun formatted =>
    ret {| Db.text := formatted |}))))).

(** The handler of [github_get_commit_by_url]. *)
Definition getCommitByUrlHandler (commitUrl : jsstring)
           (argToken : option jsstring) : T Db.ToolResult :=
  let accessToken := Service.envOr argToken defaultAccessToken in
  if negb (Service.truthy accessToken) then throw tokenRequired
  else
    tbind (lift (GitHubCommit.parseGitHubCommitUrl commitUrl)) (fun parsed =>
    tbind (getGitHubCommit accessToken (GitHubCommit.owner parsed)
                           (GitHubCommit.repo parsed)
                           (GitHubCommit.sha parsed)) (fun commit =>
    ret {| Db.text := stringify commit |})).

(** The handler of [github_get_commit]. *)
Definition getCommitHandler (owner repo sha : jsstring)
           (argToken : option jsstring) : T Db.ToolResult :=
  let accessToken := Service.envOr argToken defaultAccessToken in
  if negb (Service.truthy accessToken) then throw tokenRequired
  else
    tbind (getGitHubCommit accessToken owner repo sha) (fun commit =>
    ret {| Db.text := stringify commit |}).

(** The handler of [github_api_get]. *)
Definition apiGetHandler (endpoint : jsstring) (params : option json)
           (argToken : option jsstring) : T Db.ToolResult :=
  let accessToken := Service.envOr argToken defaultAccessToken in
  if negb (Service.truthy accessToken) then throw tokenRequired
  else
    tbind (makeGitHubRequest accessToken endpoint params) (fun data =>
    ret {| Db.text := stringify data |}).

End Tools.

(** A network that answers every request with an empty object, for the
    closed examples. *)
Definition echo (log : list (Request jsstring)) (r : Request jsstring)
  : GitLabTools.AxiosError + jsstring :=
  inr (lit "{}").

End GitHubTools.

(** ** The SQL tools of [src/tools/db.ts] *)

Module Sql.

Import Db.

Section Log.

(** Computations that log the calls made into a driver and may throw. *)
Variable Call : Type.
Variable json : Type.
Variable driver : Call -> jsstring + json.

Definition L (A : Type) : Type := list Call -> list Call * outcome exn A.





End Log.

Section Handlers.

Variable json : Type.
Variable emptyArray : json.
Variable stringify : json -> jsstring.

(** *** [postgresHandler] *)



(** [{ rowCount: res.rowCount, rows: res.rows }] of a result. *)
Variable rowCountAndRows : json -> json.


(** *** [mysqlHandler] *)




(** [const [rows] = ...]: the first element of the result. *)
Variable firstOf : json -> json.


End Handlers.

End Sql.

(** ** The web search tool of [src/tools/web.ts] *)

Module Web.

(** The answer of the search service, as the handler reads it.  A property
    that is missing is the empty string here: the handler only tests such
    a property for truth or replaces it by [""]. *)
Record Entry : Type := {
  Text : jsstring;
  FirstURL : jsstring
}.

(** An element of [RelatedTopics]: a topic, or a group with [Topics]. *)
Record Related : Type := {
  own : Entry;
  Topics : option (list Entry)
}.

Record Answer : Type := {
  Abstract : jsstring;
  AbstractURL : jsstring;
  Heading : jsstring;
  RelatedTopics : option (list Related)
}.

Record Item : Type := {
  title : jsstring;
  url : jsstring;
  snippet : jsstring
}.

(** [res.data || {}]. *)
Definition noAnswer : Answer :=
  {| Abstract := []; AbstractURL := []; Heading := []; RelatedTopics := None |}.

(** The body of the [forEach]. *)
Definition topicItems (t : Related) : list Item :=
  let topic :=
      if Service.truthy (Text (own t)) then Some (own t)
      else match Topics t with
           | Some (first :: _) => Some first
           | _ => None
           end in
  match topic with
  | Some topic =>
    if Service.truthy (FirstURL topic)
    then [{| title := Text topic; url := FirstURL topic;
             snippet := Text topic |}]
    else []
  | None => []
  end.

Definition collect (data : Answer) : list Item :=
  (if Service.truthy (Abstract data) && Service.truthy (AbstractURL data)
   then [{| title := Heading data; url := AbstractURL data;
            snippet := Abstract data |}]
   else [])
  ++ match RelatedTopics data with
     | Some topics => flat_map topicItems topics
     | None => []
     end.

(** The number [maxResults] may be: a JavaScript number is a fraction (every
    finite double is one), an infinity or [NaN]. *)
Inductive number : Type :=
| Num (q : QArith_base.Q)
| PosInfinity
| NegInfinity
| NaN.

(** The number as a condition: [0] and [NaN] are false. *)
Definition truthyNumber (n : number) : bool :=
  match n with
  | Num q => negb (QArith_base.Qeq_bool q (QArith_base.inject_Z 0))
  | PosInfinity | NegInfinity => true
  | NaN => false
  end.

(** [n > 0]. *)
Definition greaterThanZero (n : number) : bool :=
  match n with
  | Num q => negb (QArith_base.Qle_bool q (QArith_base.inject_Z 0))
  | PosInfinity => true
  | NegInfinity | NaN => false
  end.

(** [args.maxResults && args.maxResults > 0 ? args.maxResults : 5]; an
    argument that is absent is [undefined], which is false. *)
Definition maxOf (maxResults : option number) : number :=
  match maxResults with
  | Some n => if truthyNumber n && greaterThanZero n then n
              else Num (QArith_base.inject_Z 5)
  | None => Num (QArith_base.inject_Z 5)
  end.

(** The whole part of a fraction, towards zero. *)
Definition truncate (q : QArith_base.Q) : Z :=
  Z.quot (QArith_base.Qnum q) (Z.pos (QArith_base.Qden q)).

(** [items.slice(0, max)]: the end is [max] without its fractional part
    ([NaN] counts as 0), counted from the end of the list when it is
    negative, and never beyond the list. *)
Definition slice (A : Type) (max : number) (items : list A) : list A :=
  match max with
  | Num q =>
    let relativeEnd := truncate q in
    if (relativeEnd <? 0)%Z
    then firstn (Z.to_nat (Z.of_nat (List.length items) + relativeEnd)) items
    else firstn (Z.to_nat relativeEnd) items
  | PosInfinity => items
  | NegInfinity | NaN => []
  end.

Definition searchItems (data : option Answer) (maxResults : option number)
  : list Item :=
  let data := match data with Some d => d | None => noAnswer end in
  slice (maxOf maxResults) (collect data).

Section Handler.

(** [JSON.stringify] of the items. *)
Variable stringify : list Item -> jsstring.

(** [axios.get] of the search service for a query: the data of the
    answer, or the message of the error. *)
Variable network : jsstring -> jsstring + option Answer.

Definition webSearchHandler (query : jsstring) (maxResults : option number)
  : outcome exn Db.ToolResult :=
  match network query with
  | inr data => Ok {| Db.text := stringify (searchItems data maxResults) |}
  | inl message => Throw (McpError InternalError message)
  end.

End Handler.

End Web.

Module ReportProps.

(** The comment has an [author]. *)
Definition hasAuthor (c : Report.Comment) : bool :=
  match Report.author_name c with Some _ => true | None => false end.

End ReportProps.

Import ReportProps.

(* ================================================================== *)
(** * Part II: properties *)
(* ================================================================== *)

(** ** Strings and ordered sets *)

Lemma str_eqb_eq (a b : jsstring) : str_eqb a b = true <-> a = b.
Proof.
  revert b; induction a as [|x a IH]; intros [|y b]; simpl;
    try (split; [discriminate | congruence]); try tauto.
  rewrite andb_true_iff, N.eqb_eq, IH.
  split; [intros [-> ->]; reflexivity | intros [= -> ->]; auto].
Qed.

Lemma str_eqb_refl (a : jsstring) : str_eqb a a = true.
Proof. apply str_eqb_eq; reflexivity. Qed.

Lemma str_eqb_neq (a b : jsstring) : str_eqb a b = false <-> a <> b.
Proof.
  rewrite <- str_eqb_eq. destruct (str_eqb a b); split; congruence.
Qed.

Lemma arr_includes_In (l : list jsstring) (x : jsstring) :
  arr_includes l x = true <-> In x l.
Proof.
  unfold arr_includes. rewrite existsb_exists. split.
  - intros (y & Hy & E). apply str_eqb_eq in E. subst; assumption.
  - intros H. exists x. split; [assumption | apply str_eqb_refl].
Qed.

Lemma arr_includes_not_In (l : list jsstring) (x : jsstring) :
  arr_includes l x = false <-> ~ In x l.
Proof.
  rewrite <- arr_includes_In. destruct (arr_includes l x); split; congruence.
Qed.

Lemma fold_set_add (l seen : list jsstring) :
  fold_left set_add l seen = seen ++ fresh seen l.
Proof.
  revert seen; induction l as [|x l IH]; intros seen; simpl.
  - now rewrite app_nil_r.
  - rewrite IH. unfold set_add. destruct (arr_includes seen x); [reflexivity|].
    now rewrite <- app_assoc.
Qed.

Lemma dedupe_fresh (l : list jsstring) : dedupe l = fresh [] l.
Proof. unfold dedupe. now rewrite fold_set_add. Qed.

Lemma fresh_In (l seen : list jsstring) (x : jsstring) :
  In x (fresh seen l) <-> In x l /\ ~ In x seen.
Proof.
  revert seen; induction l as [|y l IH]; intros seen; simpl; [tauto|].
  destruct (arr_includes seen y) eqn:E.
  - apply arr_includes_In in E. rewrite IH. split.
    + tauto.
    + intros [[->|H] N]; [contradiction | tauto].
  - apply arr_includes_not_In in E. simpl. rewrite IH, in_app_iff. simpl.
    split.
    + intros [->|[H N]]; [tauto | tauto].
    + intros [[->|H] N]; [tauto|].
      destruct (str_eqb y x) eqn:Eyx.
      * apply str_eqb_eq in Eyx. tauto.
      * apply str_eqb_neq in Eyx. right. split; [assumption|]. tauto.
Qed.

Lemma fresh_NoDup (l seen : list jsstring) : NoDup (fresh seen l).
Proof.
  revert seen; induction l as [|y l IH]; intros seen; simpl; [constructor|].
  destruct (arr_includes seen y); [apply IH|].
  constructor; [|apply IH].
  rewrite fresh_In, in_app_iff. simpl. tauto.
Qed.

Lemma indexOf_cons_neq (l : list jsstring) (x y : jsstring) (a : nat) :
  x <> y -> indexOf l y = Some a -> indexOf (x :: l) y = Some (S a).
Proof.
  intros N H. simpl. apply str_eqb_neq in N. now rewrite N, H.
Qed.

Lemma indexOf_In (l : list jsstring) (x : jsstring) :
  In x l -> exists a, indexOf l x = Some a.
Proof.
  induction l as [|y l IH]; simpl; [tauto|]. intros H.
  destruct (str_eqb y x) eqn:E; [now exists 0|].
  apply str_eqb_neq in E. destruct H as [H|H]; [contradiction|].
  destruct (IH H) as [a Ha]. exists (S a). now rewrite Ha.
Qed.

(** The elements added keep the order of their first occurrences. *)
Lemma fresh_order (l seen : list jsstring) (i j : nat) (x y : jsstring) :
  i < j ->
  nth_error (fresh seen l) i = Some x ->
  nth_error (fresh seen l) j = Some y ->
  exists a b, indexOf l x = Some a /\ indexOf l y = Some b /\ a < b.
Proof.
  revert seen i j; induction l as [|z l IH]; intros seen i j Hij Hx Hy; simpl in *.
  - destruct i; discriminate.
  - destruct (arr_includes seen z) eqn:E.
    + apply arr_includes_In in E.
      destruct (IH _ _ _ Hij Hx Hy) as (a & b & Ha & Hb & Hab).
      apply nth_error_In, fresh_In in Hx. apply nth_error_In, fresh_In in Hy.
      exists (S a), (S b). repeat split; [| |lia].
      * destruct (str_eqb z x) eqn:Ezx;
          [apply str_eqb_eq in Ezx; subst; tauto | now rewrite Ha].
      * destruct (str_eqb z y) eqn:Ezy;
          [apply str_eqb_eq in Ezy; subst; tauto | now rewrite Hb].
    + destruct j as [|j]; [lia|]. simpl in Hy.
      pose proof (nth_error_In _ _ Hy) as Iy. apply fresh_In in Iy.
      rewrite in_app_iff in Iy. simpl in Iy.
      assert (Nzy : str_eqb z y = false) by (apply str_eqb_neq; intros ->; tauto).
      destruct i as [|i]; simpl in Hx.
      * injection Hx as ->. rewrite str_eqb_refl, Nzy.
        destruct (indexOf_In l y) as [b Hb]; [tauto|].
        exists 0, (S b). rewrite Hb. repeat split; lia.
      * pose proof (nth_error_In _ _ Hx) as Ix. apply fresh_In in Ix.
        rewrite in_app_iff in Ix. simpl in Ix.
        assert (Nzx : str_eqb z x = false)
          by (apply str_eqb_neq; intros ->; tauto).
        destruct (IH (seen ++ [z]) i j) as (a & b & Ha & Hb & Hab);
          [lia | assumption | assumption |].
        exists (S a), (S b). rewrite Nzx, Nzy, Ha, Hb. repeat split; lia.
Qed.

Lemma dedupe_In (l : list jsstring) (x : jsstring) : In x (dedupe l) <-> In x l.
Proof. rewrite dedupe_fresh, fresh_In. simpl. tauto. Qed.

Lemma dedupe_NoDup (l : list jsstring) : NoDup (dedupe l).
Proof. rewrite dedupe_fresh. apply fresh_NoDup. Qed.

Lemma dedupe_order (l : list jsstring) (i j : nat) (x y : jsstring) :
  i < j ->
  nth_error (dedupe l) i = Some x ->
  nth_error (dedupe l) j = Some y ->
  exists a b, indexOf l x = Some a /\ indexOf l y = Some b /\ a < b.
Proof. rewrite dedupe_fresh. apply fresh_order. Qed.

(** ** The analyzer: suggestions, test types and risk areas *)

Import QA.

Lemma push_matching_In (rules : list (regexp * jsstring))
      (fullText x : jsstring) :
  In x (push_matching rules fullText) ->
  In x (map snd rules).
Proof.
  unfold push_matching. rewrite in_flat_map. intros (rule & Hr & Hx).
  destruct (test (fst rule) fullText); simpl in Hx; [|tauto].
  destruct Hx as [<-|[]]. now apply in_map.
Qed.

(** C4. For every issue and every [fullText], the list returned by
    [generateTestingSuggestions] contains each of the four universal
    suggestions and no string twice; its members are the strings pushed,
    and they stand in the order of their first occurrences among them. *)
Theorem generateTestingSuggestions_universal_nodup :
  forall (issueData : IssueData) (fullText : jsstring),
    In (lit "Verificar que el cambio no rompe funcionalidad existente")
       (generateTestingSuggestions issueData fullText)
    /\ In (lit "Probar en diferentes navegadores/dispositivos")
          (generateTestingSuggestions issueData fullText)
    /\ In (lit "Validar performance bajo carga normal")
          (generateTestingSuggestions issueData fullText)
    /\ In (lit "Revisar logs de errores durante las pruebas")
          (generateTestingSuggestions issueData fullText)
    /\ NoDup (generateTestingSuggestions issueData fullText)
    /\ (forall x, In x (generateTestingSuggestions issueData fullText)
                  <-> In x (pushedSuggestions fullText))
    /\ (forall i j x y,
           i < j ->
           nth_error (generateTestingSuggestions issueData fullText) i = Some x ->
           nth_error (generateTestingSuggestions issueData fullText) j = Some y ->
           exists a b,
             indexOf (pushedSuggestions fullText) x = Some a
             /\ indexOf (pushedSuggestions fullText) y = Some b
             /\ a < b).
Proof.
  intros issueData fullText. unfold generateTestingSuggestions.
  assert (U : forall u, In u universalSuggestions ->
                        In u (dedupe (pushedSuggestions fullText))).
  { intros u Hu. apply dedupe_In. unfold pushedSuggestions.
    apply in_or_app. now right. }
  refine (conj _ (conj _ (conj _ (conj _ (conj _ (conj _ _)))))).
  - apply U, arr_includes_In. vm_compute. reflexivity.
  - apply U, arr_includes_In. vm_compute. reflexivity.
  - apply U, arr_includes_In. vm_compute. reflexivity.
  - apply U, arr_includes_In. vm_compute. reflexivity.
  - apply dedupe_NoDup.
  - intros x. apply dedupe_In.
  - intros i j x y. apply dedupe_order.
Qed.

(** C5. For every [fullText] and every label list, the list returned by
    [determineTestTypes] contains "Testing Funcional" and "Testing de
    Regresión" and no string twice. *)
Theorem determineTestTypes_baseline_nodup :
  forall (fullText : jsstring) (labels : list jsstring),
    In (lit "Testing Funcional") (determineTestTypes fullText labels)
    /\ In (lit "Testing de Regresión") (determineTestTypes fullText labels)
    /\ NoDup (determineTestTypes fullText labels).
Proof.
  intros fullText labels. unfold determineTestTypes, pushedTypes.
  refine (conj _ (conj _ _)).
  - apply dedupe_In, in_or_app. right. apply arr_includes_In.
    vm_compute. reflexivity.
  - apply dedupe_In, in_or_app. right. apply arr_includes_In.
    vm_compute. reflexivity.
  - apply dedupe_NoDup.
Qed.

Lemma highPriorityRisk_not_indicator :
  ~ In highPriorityRisk (map snd riskIndicators).
Proof. apply arr_includes_not_In. vm_compute. reflexivity. Qed.

(** C6. For every [fullText] and every label list, the output of
    [identifyRiskAreas] contains the high-priority message exactly when
    some label, lower-cased, is one of critical, crítico, high-priority,
    security, bug. *)
Theorem identifyRiskAreas_high_priority_iff :
  forall (toLowerCase : jsstring -> jsstring)
         (fullText : jsstring) (labels : list jsstring),
    In (lit "Alta prioridad - requiere testing completo antes de release")
       (identifyRiskAreas toLowerCase fullText labels)
    <-> exists label,
        In label labels
        /\ In (toLowerCase label)
              [lit "critical"; lit "crítico"; lit "high-priority";
               lit "security"; lit "bug"].
Proof.
  intros toLowerCase fullText labels.
  pose proof highPriorityRisk_not_indicator as NI.
  unfold highPriorityRisk in NI.
  unfold identifyRiskAreas. rewrite in_app_iff. split.
  - intros [H|H].
    + apply push_matching_In in H. exact (False_ind _ (NI H)).
    + destruct (hasCriticalLabel toLowerCase labels) eqn:E; [|destruct H].
      unfold hasCriticalLabel, criticalLabels in E. apply existsb_exists in E.
      destruct E as (label & Hl & Hc). exists label. split; [assumption|].
      exact (proj1 (arr_includes_In _ _) Hc).
  - intros (label & Hl & Hc). right.
    assert (E : hasCriticalLabel toLowerCase labels = true).
    { unfold hasCriticalLabel, criticalLabels. apply existsb_exists.
      exists label. split; [assumption|].
      exact (proj2 (arr_includes_In _ _) Hc). }
    rewrite E. left. reflexivity.
Qed.

(** ** The report formatter *)

Import Report.

(** C7. For every issue and analysis: with five comments of which the
    first three have an author, the report shows these three, separated by
    rules, and then the note that only three are shown, and the fourth and
    the fifth are not read; with two comments that have an author it shows
    both and no note; with no comment the section is absent and the footer
    follows the description. *)
Theorem formatQAAnalysis_comments :
  forall (toLocaleDateString_esES : jsstring -> jsstring)
         (issueData : IssueData) (qaAnalysis : QAAnalysis)
         (a1 d1 b1 a2 d2 b2 a3 d3 b3 : jsstring) (c4 c5 : Comment),
    formatQAAnalysis toLocaleDateString_esES issueData qaAnalysis
      [{| author_name := Some a1; comment_created_at := d1; body := b1 |};
       {| author_name := Some a2; comment_created_at := d2; body := b2 |};
       {| author_name := Some a3; comment_created_at := d3; body := b3 |};
       c4; c5]
    = Ok (reportBody issueData qaAnalysis
          ++ lit "## 💬 Comentarios Relevantes (" ++ lit "5" ++ lit ")" ++ nl
          ++ lit "**" ++ a1 ++ lit "** (" ++ toLocaleDateString_esES d1
          ++ lit "):" ++ nl ++ b1 ++ nl
          ++ nl ++ lit "---" ++ nl
          ++ lit "**" ++ a2 ++ lit "** (" ++ toLocaleDateString_esES d2
          ++ lit "):" ++ nl ++ b2 ++ nl
          ++ nl ++ lit "---" ++ nl
          ++ lit "**" ++ a3 ++ lit "** (" ++ toLocaleDateString_esES d3
          ++ lit "):" ++ nl ++ b3 ++ nl
          ++ nl ++ lit "*(Mostrando solo los 3 comentarios más recientes)*"
          ++ nl ++ nl ++ lit "---" ++ nl
          ++ lit "*Análisis generado automáticamente por GitLab QA MCP Server*")
    /\ formatQAAnalysis toLocaleDateString_esES issueData qaAnalysis
         [{| author_name := Some a1; comment_created_at := d1; body := b1 |};
          {| author_name := Some a2; comment_created_at := d2; body := b2 |}]
       = Ok (reportBody issueData qaAnalysis
             ++ lit "## 💬 Comentarios Relevantes (" ++ lit "2" ++ lit ")" ++ nl
             ++ lit "**" ++ a1 ++ lit "** (" ++ toLocaleDateString_esES d1
             ++ lit "):" ++ nl ++ b1 ++ nl
             ++ nl ++ lit "---" ++ nl
             ++ lit "**" ++ a2 ++ lit "** (" ++ toLocaleDateString_esES d2
             ++ lit "):" ++ nl ++ b2 ++ nl
             ++ nl ++ nl ++ lit "---" ++ nl
             ++ lit "*Análisis generado automáticamente por GitLab QA MCP Server*")
    /\ formatQAAnalysis toLocaleDateString_esES issueData qaAnalysis []
       = Ok (reportBody issueData qaAnalysis
             ++ nl ++ nl ++ lit "---" ++ nl
             ++ lit "*Análisis generado automáticamente por GitLab QA MCP Server*").
Proof.
  intros toLocale issueData qaAnalysis a1 d1 b1 a2 d2 b2 a3 d3 b3 c4 c5.
  assert (Five : decimal 5 = lit "5") by (vm_compute; reflexivity).
  assert (Two : decimal 2 = lit "2") by (vm_compute; reflexivity).
  unfold formatQAAnalysis, commentsSection, slice0, commentsHeading, moreNote,
    footer.
  cbn [List.length Nat.ltb Nat.leb firstn mapM renderComment bind join
       author_name comment_created_at body].
  rewrite Five, Two.
  refine (conj _ (conj _ _));
    apply (f_equal (@Ok exn jsstring));
    apply (f_equal (app (reportBody issueData qaAnalysis))).
  - rewrite <- ?app_assoc. reflexivity.
  - rewrite app_nil_r. rewrite <- ?app_assoc. reflexivity.
  - exact (app_nil_l _).
Qed.

(** A comment without [author] among the first three makes the formatter
    raise: nothing is rendered. *)
Lemma formatQAAnalysis_comment_without_author :
  formatQAAnalysis (fun date => date) (issueOf (lit "Login") [] [])
    {| requirements := [lit "Implementar: Login"]; acceptanceCriteria := [];
       testingSuggestions := []; riskAreas := []; testTypes := [] |}
    [{| author_name := None;
        comment_created_at := lit "2024-05-01T10:00:00Z";
        body := lit "first" |};
     {| author_name := Some (lit "Ana");
        comment_created_at := lit "2024-05-02T10:00:00Z";
        body := lit "second" |};
     {| author_name := Some (lit "Ana");
        comment_created_at := lit "2024-05-03T10:00:00Z";
        body := lit "third" |};
     {| author_name := Some (lit "Ana");
        comment_created_at := lit "2024-05-04T10:00:00Z";
        body := lit "fourth" |};
     {| author_name := Some (lit "Ana");
        comment_created_at := lit "2024-05-05T10:00:00Z";
        body := lit "fifth" |}]
  = Throw TypeError.
Proof. vm_compute. reflexivity. Qed.

(** ** The URL parsers *)

Import GitHub.

(** C8. With the default base URL [https://gitlab.com], whose host name is
    [gitlab.com], the link
    [https://gitlab.example.org/ns/proj/-/issues/42] parses to the base URL
    of the linked host, the project [ns/proj] and the issue 42. *)
Theorem parseGitLabUrl_linked_host :
  forall hostname : jsstring -> option jsstring,
    hostname (lit "https://gitlab.com") = Some (lit "gitlab.com") ->
    GitLab.parseGitLabUrl hostname (lit "https://gitlab.com")
      (lit "https://gitlab.example.org/ns/proj/-/issues/42")
    = Ok {| GitLab.gitlabUrl := lit "https://gitlab.example.org";
            GitLab.projectId := lit "ns/proj";
            GitLab.issueIid := 42%N |}.
Proof.
  intros hostname H. unfold GitLab.parseGitLabUrl. rewrite H.
  vm_compute. reflexivity.
Qed.

Lemma parseGitLabUrl_linked_host_witness :
  GitLab.plain_hostname (lit "https://gitlab.com") = Some (lit "gitlab.com")
  /\ GitLab.parseGitLabUrl GitLab.plain_hostname (lit "https://gitlab.com")
       (lit "https://gitlab.example.org/ns/proj/-/issues/42")
     = Ok {| GitLab.gitlabUrl := lit "https://gitlab.example.org";
             GitLab.projectId := lit "ns/proj";
             GitLab.issueIid := 42%N |}.
Proof.
  split.
  - vm_compute. reflexivity.
  - apply (parseGitLabUrl_linked_host GitLab.plain_hostname).
    vm_compute. reflexivity.
Defined.

(** When the link is on the configured host the base URL is kept. *)
Example parseGitLabUrl_same_host :
  GitLab.parseGitLabUrl GitLab.plain_hostname (lit "https://gitlab.com")
    (lit "https://gitlab.com/ns/proj/-/issues/42")
  = Ok {| GitLab.gitlabUrl := lit "https://gitlab.com";
          GitLab.projectId := lit "ns/proj";
          GitLab.issueIid := 42%N |}.
Proof. vm_compute. reflexivity. Qed.

(** ** Acceptance criteria: the bullet scan *)

(** C10. The third scan of [extractAcceptanceCriteria] takes a hyphen
    anywhere in the description: "the flow - covers the main case" has no
    line that starts with a bullet, and the text after its hyphen is
    returned as a criterion. *)
Theorem extractAcceptanceCriteria_hyphen_mid_line :
  forall issueData : IssueData,
    description issueData = lit "the flow - covers the main case" ->
    hasBulletLine (description issueData) = false
    /\ extractAcceptanceCriteria issueData = Ok [lit "covers the main case"].
Proof.
  intros issueData H. unfold extractAcceptanceCriteria. rewrite H.
  split; vm_compute; reflexivity.
Qed.

Lemma extractAcceptanceCriteria_hyphen_mid_line_witness :
  description (issueOf (lit "Checkout")
                       (lit "the flow - covers the main case") [])
  = lit "the flow - covers the main case"
  /\ hasBulletLine
       (description (issueOf (lit "Checkout")
                             (lit "the flow - covers the main case") []))
     = false
  /\ extractAcceptanceCriteria
       (issueOf (lit "Checkout") (lit "the flow - covers the main case") [])
     = Ok [lit "covers the main case"].
Proof.
  split; [reflexivity|].
  apply (extractAcceptanceCriteria_hyphen_mid_line
           (issueOf (lit "Checkout")
                    (lit "the flow - covers the main case") [])).
  reflexivity.
Defined.

(** A bullet at the start of a line is found by the same scan. *)
Example extractAcceptanceCriteria_bullet_line :
  hasBulletLine (lit "- Usuario puede iniciar sesión con Google") = true
  /\ extractAcceptanceCriteria
       (issueOf (lit "Login")
                (lit "- Usuario puede iniciar sesión con Google") [])
     = Ok [lit "Usuario puede iniciar sesión con Google"].
Proof. split; vm_compute; reflexivity. Qed.

(** ** The MongoDB tool *)

Import Db.

Section MongoFacts.

Variable toLowerCase : jsstring -> jsstring.
Variable json : Type.
Variable emptyObject : json.
Variable stringify : json -> jsstring.
Variable driver : MongoCall json -> jsstring + json.

Lemma runOperation_unsupported (args : MongoArgs json) :
  ~ In (toLowerCase (orEmpty (operation args))) supportedOperations ->
  runOperation toLowerCase emptyObject driver args = throw unsupported.
Proof.
  intros H. apply arr_includes_not_In in H.
  unfold arr_includes, supportedOperations in H. cbn [existsb] in H.
  repeat (apply orb_false_elim in H; destruct H as [? H]).
  unfold runOperation.
  repeat match goal with
         | E : str_eqb _ _ = false |- _ => rewrite E; clear E
         end.
  reflexivity.
Qed.

(** Whatever goes wrong inside the handler leaves it as an internal error:
    the [catch] clause wraps every exception, the [McpError] thrown for an
    unsupported operation included. *)
Lemma mongoHandler_throws_internal (args : MongoArgs json) (e : exn) :
  snd (run_mongoHandler toLowerCase emptyObject stringify driver args) = Throw e ->
  exists message, e = McpError InternalError message.
Proof.
  unfold run_mongoHandler, mongoHandler, try_catch, mbind, ret, throw, call.
  repeat match goal with
         | |- context [driver ?c] => destruct (driver c); simpl
         | |- context [runOperation ?f ?o ?d ?a ?l] =>
           destruct (runOperation f o d a l) as [? [?|?|]]; simpl
         end;
    try discriminate; intros [= <-]; eauto.
Qed.

End MongoFacts.

(** C2. What the code does on an unsupported operation. For every call of
    [mongo_query] whose operation, lower-cased, is none of find_one,
    find_many, insert_one, update_many, delete_many, no operation on the
    collection is performed and the handler fails; the error the caller
    gets is not the invalid-parameters error the default branch throws but
    the internal error the [catch] clause builds around it. *)
Theorem mongoHandler_unsupported_operation :
  forall (toLowerCase : jsstring -> jsstring) (json : Type)
         (emptyObject : json) (stringify : json -> jsstring)
         (driver : MongoCall json -> jsstring + json)
         (args : MongoArgs json),
    ~ In (toLowerCase (orEmpty (operation args)))
         [lit "find_one"; lit "find_many"; lit "insert_one";
          lit "update_many"; lit "delete_many"] ->
    (exists message,
        snd (run_mongoHandler toLowerCase emptyObject stringify driver args)
        = Throw (McpError InternalError message))
    /\ (forall c,
           In c (fst (run_mongoHandler toLowerCase emptyObject stringify
                                       driver args)) ->
           isCollectionOperation c = false).
Proof.
  intros toLowerCase json emptyObject stringify driver args H.
  unfold run_mongoHandler, mongoHandler.
  rewrite (runOperation_unsupported toLowerCase emptyObject driver args H).
  unfold try_catch, mbind, ret, throw, call.
  repeat match goal with
         | |- context [driver ?c] => destruct (driver c); simpl
         end;
    (split; [eauto|]);
    intros c Hc; repeat destruct Hc as [<-|Hc]; try reflexivity;
      contradiction.
Qed.

Lemma mongoHandler_unsupported_operation_witness :
  ~ In (toLowerCase_latin1 (orEmpty (operation (queryArgs (lit "drop")))))
       [lit "find_one"; lit "find_many"; lit "insert_one";
        lit "update_many"; lit "delete_many"]
  /\ (exists message,
         snd (run_sample (lit "drop")) = Throw (McpError InternalError message))
  /\ (forall c,
         In c (fst (run_sample (lit "drop"))) ->
         isCollectionOperation c = false).
Proof.
  assert (H : ~ In (toLowerCase_latin1
                      (orEmpty (operation (queryArgs (lit "drop")))))
                   [lit "find_one"; lit "find_many"; lit "insert_one";
                    lit "update_many"; lit "delete_many"]).
  { apply arr_includes_not_In. vm_compute. reflexivity. }
  split; [exact H|].
  exact (mongoHandler_unsupported_operation
           toLowerCase_latin1 (lit "{}") (fun v => v) nullDriver
           (queryArgs (lit "drop")) H).
Defined.

(** The names of the operations are compared after lower-casing: FIND_ONE
    runs [findOne]. *)
Example mongoHandler_find_one_upper_case :
  run_sample (lit "FIND_ONE")
  = ([ImportModule jsstring; NewClient jsstring (lit "mongodb://localhost:27017");
      Connect jsstring; GetDb jsstring (lit "qa");
      GetCollection jsstring (lit "issues"); FindOne (lit "{}");
      Close jsstring],
     Ok {| text := lit "null" |}).
Proof. vm_compute. reflexivity. Qed.

(** An operation the handler does not know: the [McpError] with the code
    for invalid parameters is thrown inside [try] and reaches the caller
    wrapped into an internal error; the client stays connected. *)
Example mongoHandler_drop :
  run_sample (lit "drop")
  = ([ImportModule jsstring; NewClient jsstring (lit "mongodb://localhost:27017");
      Connect jsstring; GetDb jsstring (lit "qa");
      GetCollection jsstring (lit "issues")],
     Throw (McpError InternalError
                     (lit "MCP error -32602: Operación no soportada"))).
Proof. vm_compute. reflexivity. Qed.

(** ** The matcher returns matches *)

Section MatcherSound.

Variable fl : flags.

Lemma star_loop_sound (a : regex) (g : bool) :
  (forall k s x, m fl a k s = Some x ->
                 exists s', Matches fl a s s' /\ k s' = Some x) ->
  forall fuel k s x,
    star_loop (m fl a) g (groups a) fuel k s = Some x ->
    exists s', Matches fl (Star g a) s s' /\ k s' = Some x.
Proof.
  intros IHa. induction fuel as [|fuel IH]; intros k s x H; simpl in H.
  - exists s. split; [constructor | assumption].
  - assert (Iter : forall x0,
               m fl a (fun s' => if Nat.eqb (pos s') (pos s) then None
                                 else star_loop (m fl a) g (groups a) fuel k s')
                 (clear_caps (groups a) s) = Some x0 ->
               exists s', Matches fl (Star g a) s s' /\ k s' = Some x0).
    { intros x0 Hx. apply IHa in Hx. destruct Hx as (s1 & M1 & K1).
      destruct (Nat.eqb (pos s1) (pos s)) eqn:E; [discriminate|].
      apply Nat.eqb_neq in E. apply IH in K1. destruct K1 as (s2 & M2 & K2).
      exists s2. split; [|assumption]. eapply M_StarIter; eassumption. }
    destruct g.
    + destruct (m fl a _ (clear_caps (groups a) s)) eqn:E.
      * injection H as <-. now apply Iter.
      * exists s. split; [constructor | assumption].
    + destruct (k s) eqn:E.
      * injection H as <-. exists s. split; [constructor | assumption].
      * now apply Iter.
Qed.

(** Soundness: what [m] hands to its continuation is a match. *)
Lemma m_sound (r : regex) :
  forall k s x, m fl r k s = Some x ->
                exists s', Matches fl r s s' /\ k s' = Some x.
Proof.
  induction r as [|c|a IHa b IHb|a IHa b IHb|g a IHa|n a IHa| |];
    intros k s x H; cbn [m] in H.
  - exists s. split; [constructor | assumption].
  - destruct (rest s) as [|c0 t] eqn:R; [discriminate|].
    destruct (cset_mem fl c c0) eqn:C; [|discriminate].
    eexists. split; [eapply M_Chr; eassumption | assumption].
  - apply IHa in H. destruct H as (s1 & M1 & H).
    apply IHb in H. destruct H as (s2 & M2 & H).
    exists s2. split; [econstructor; eassumption | assumption].
  - destruct (m fl a k s) eqn:E.
    + injection H as <-. apply IHa in E. destruct E as (s1 & M1 & E).
      exists s1. split; [now apply M_AltL | assumption].
    + apply IHb in H. destruct H as (s1 & M1 & H).
      exists s1. split; [now apply M_AltR | assumption].
  - eapply star_loop_sound; [exact IHa | exact H].
  - apply IHa in H. destruct H as (s1 & M1 & H).
    eexists. split; [apply M_Group; eassumption | assumption].
  - destruct (Nat.eqb (pos s) 0) eqn:E; [|discriminate].
    apply Nat.eqb_eq in E. exists s. split; [now constructor | assumption].
  - destruct (rest s) eqn:R; [|discriminate].
    exists s. split; [now constructor | assumption].
Qed.

(** A match consumes a prefix of the rest of the input. *)
Lemma Matches_consumes (r : regex) (s s' : mstate) :
  Matches fl r s s' ->
  exists w, rest s = w ++ rest s' /\ pos s' = pos s + List.length w.
Proof.
  induction 1 as [s|a c t s R C|a b s1 s2 s3 _ IH1 _ IH2|a b s s' _ IH
                  |a b s s' _ IH|g a s|g a s s1 s2 _ IH1 N _ IH2
                  |n a s s' _ IH|s P|s R].
  - exists []. simpl. split; [reflexivity | lia].
  - exists [c]. simpl. split; [assumption | lia].
  - destruct IH1 as (w1 & R1 & P1), IH2 as (w2 & R2 & P2).
    exists (w1 ++ w2). rewrite R1, R2, P2, P1, length_app, <- app_assoc.
    split; [reflexivity | lia].
  - exact IH.
  - exact IH.
  - exists []. simpl. split; [reflexivity | lia].
  - destruct IH1 as (w1 & R1 & P1), IH2 as (w2 & R2 & P2). simpl in R1, P1.
    exists (w1 ++ w2). rewrite R1, R2, P2, P1, length_app, <- app_assoc.
    split; [reflexivity | lia].
  - destruct IH as (w & R & P). exists w. simpl. split; assumption.
  - exists []. simpl. split; [reflexivity | lia].
  - exists []. simpl. split; [reflexivity | lia].
Qed.

Lemma Matches_min_len (r : regex) (s s' : mstate) :
  Matches fl r s s' -> pos s + min_len r <= pos s'.
Proof.
  induction 1; simpl in *; lia.
Qed.

Lemma capture_clear (n : nat) (gs : list nat) (s : mstate) :
  existsb (Nat.eqb n) gs = false ->
  capture n (caps (clear_caps gs s)) = capture n (caps s).
Proof.
  intros H. unfold clear_caps. simpl.
  induction (caps s) as [|[k v] c IH]; simpl; [reflexivity|].
  destruct (existsb (Nat.eqb k) gs) eqn:E; simpl.
  - destruct (Nat.eqb k n) eqn:Ekn; [|exact IH].
    apply Nat.eqb_eq in Ekn. subst. congruence.
  - rewrite IH. reflexivity.
Qed.

(** A match leaves the captures of the groups outside [r] as they were. *)
Lemma Matches_keeps (n : nat) (r : regex) (s s' : mstate) :
  Matches fl r s s' ->
  existsb (Nat.eqb n) (groups r) = false ->
  capture n (caps s') = capture n (caps s).
Proof.
  induction 1; simpl; intros G; try reflexivity;
    try (rewrite existsb_app in G; apply orb_false_elim in G;
         destruct G as [G1 G2]).
  - rewrite IHMatches2, IHMatches1 by assumption. reflexivity.
  - auto.
  - auto.
  - rewrite IHMatches2, IHMatches1 by assumption.
    now apply capture_clear.
  - apply orb_false_elim in G. destruct G as [G1 G2].
    rewrite Nat.eqb_sym in G1. rewrite G1. auto.
Qed.

Lemma Matches_binds (n : nat) (r : regex) (s s' : mstate) :
  Matches fl r s s' -> binds n r = true -> capture n (caps s') <> None.
Proof.
  induction 1; simpl; intros B; try discriminate.
  - apply orb_true_iff in B. destruct B as [B|B]; [|auto].
    apply andb_true_iff in B. destruct B as [B1 B2].
    apply negb_true_iff in B2.
    rewrite (Matches_keeps n H0 B2). auto.
  - apply andb_true_iff in B. destruct B as [B1 B2]. auto.
  - apply andb_true_iff in B. destruct B as [B1 B2]. auto.
  - destruct (Nat.eqb n0 n) eqn:E; [discriminate|].
    rewrite Nat.eqb_sym in E. rewrite E in B. simpl in B. auto.
Qed.

(** What [search] returns is a match that starts at or after [i]. *)
Lemma search_sound (r : regex) (input : jsstring) :
  forall i mt,
    search fl r i input = Some mt ->
    exists pre suf s',
      input = pre ++ suf
      /\ index mt = i + List.length pre
      /\ Matches fl r {| pos := index mt; rest := suf; caps := [] |} s'
      /\ endIndex mt = pos s'
      /\ captures mt = caps s'.
Proof.
  induction input as [|c input IH]; intros i mt H; simpl in H.
  - destruct (m fl r Some _) eqn:E; [|discriminate].
    injection H as <-. apply m_sound in E. destruct E as (s' & M & [= <-]).
    exists [], [], s'. simpl. rewrite Nat.add_0_r. auto.
  - destruct (m fl r Some _) eqn:E.
    + injection H as <-. apply m_sound in E. destruct E as (s' & M & [= <-]).
      exists [], (c :: input), s'. simpl. rewrite Nat.add_0_r. auto.
    + apply IH in H. destruct H as (pre & suf & s' & -> & I & M & E1 & E2).
      exists (c :: pre), suf, s'. simpl.
      repeat split; try assumption. lia.
Qed.

End MatcherSound.

(** ** The scanning loops end *)

Lemma exec_bounds (re : regexp) (input : jsstring) (lastIndex : nat)
      (mt : match_result) :
  exec re input lastIndex = Some mt ->
  global (flag re) = true ->
  lastIndex + min_len (source re) <= endIndex mt
  /\ endIndex mt <= List.length input
  /\ (binds 1 (source re) = true -> capture 1 (captures mt) <> None).
Proof.
  unfold exec. intros H G. rewrite G in H.
  destruct (Nat.leb lastIndex (List.length input)) eqn:L; [|discriminate].
  apply Nat.leb_le in L. apply search_sound in H.
  destruct H as (pre & suf & s' & S & I & M & E & C).
  pose proof (Matches_min_len M) as Hmin.
  pose proof (Matches_consumes M) as (w & R & P). simpl in Hmin, R, P.
  assert (Len : List.length (skipn lastIndex input)
                = List.length input - lastIndex) by apply length_skipn.
  rewrite S, length_app, R, length_app in Len.
  refine (conj _ (conj _ _)).
  - lia.
  - lia.
  - intros B. rewrite C. exact (Matches_binds 1 M B).
Qed.

Lemma exec_loop_total (threshold : nat) (pattern : regexp) (text : jsstring) :
  loop_safe pattern = true ->
  forall fuel lastIndex out,
    lastIndex <= List.length text ->
    List.length text < fuel + lastIndex ->
    exists found,
      exec_loop threshold pattern text fuel lastIndex out = Ok (out ++ found)
      /\ Forall (fun x => threshold < List.length x) found.
Proof.
  unfold loop_safe. intros S.
  apply andb_true_iff in S. destruct S as [S B].
  apply andb_true_iff in S. destruct S as [G L]. apply Nat.leb_le in L.
  induction fuel as [|fuel IH]; intros lastIndex out Hle Hlt; [lia|].
  simpl. destruct (exec pattern text lastIndex) as [mt|] eqn:E.
  - destruct (exec_bounds _ _ _ E G) as (Hlo & Hhi & Hcap).
    destruct (capture 1 (captures mt)) as [c|]; [|now elim (Hcap B)].
    destruct (IH (endIndex mt)
                 (if Nat.ltb threshold (List.length (trim c))
                  then out ++ [trim c] else out)) as (found & F & Long);
      [assumption | lia |].
    rewrite F.
    destruct (Nat.ltb threshold (List.length (trim c))) eqn:T.
    + exists (trim c :: found). rewrite <- app_assoc.
      split; [reflexivity|]. constructor; [|assumption].
      now apply Nat.ltb_lt.
    + exists found. split; [reflexivity | assumption].
  - exists []. rewrite app_nil_r. split; [reflexivity | constructor].
Qed.

Lemma scan_patterns_total (threshold : nat) (patterns : list regexp)
      (text : jsstring) :
  forallb loop_safe patterns = true ->
  forall out, exists found,
      scan_patterns threshold patterns text out = Ok (out ++ found)
      /\ Forall (fun x => threshold < List.length x) found.
Proof.
  induction patterns as [|p ps IH]; intros S out; cbn [scan_patterns].
  - exists []. rewrite app_nil_r. split; [reflexivity | constructor].
  - cbn [forallb] in S. apply andb_true_iff in S. destruct S as [Sp Sps].
    destruct (@exec_loop_total threshold p text Sp
                               (S (List.length text)) 0 out)
      as (f1 & F1 & L1); [lia | lia |].
    rewrite F1. cbn [bind]. destruct (IH Sps (out ++ f1)) as (f2 & F2 & L2).
    rewrite F2. exists (f1 ++ f2). rewrite app_assoc.
    split; [reflexivity | now apply Forall_app].
Qed.

Lemma reqPatterns_safe : forallb loop_safe reqPatterns = true.
Proof. vm_compute. reflexivity. Qed.

Lemma criteriaPatterns_safe : forallb loop_safe criteriaPatterns = true.
Proof. vm_compute. reflexivity. Qed.

(** ** Requirements *)


Example extractRequirements_no_match :
  extractRequirements
    (issueOf (lit "Arreglar el pie de página") (lit "El pie se ve mal") [])
  = Ok [lit "Implementar: Arreglar el pie de página"].
Proof. vm_compute. reflexivity. Qed.

Example extractRequirements_match :
  extractRequirements
    (issueOf (lit "Implementar login con Google OAuth")
             (lit "El sistema debe soportar OAuth2 completo. Nada mas") [])
  = Ok [lit "soportar OAuth2 completo"].
Proof. vm_compute. reflexivity. Qed.

(** A match whose trimmed capture has 10 characters or fewer does not
    count: here the second pattern matches with the capture "ser corto",
    nothing is collected and the synthetic entry is returned. *)
Example extractRequirements_short_match :
  extractRequirements
    (issueOf (lit "Login") (lit "debe: ser corto.") [])
  = Ok [lit "Implementar: Login"].
Proof. vm_compute. reflexivity. Qed.

(** ** The analyzer on an empty description *)

Lemma flat_map_none (A B : Type) (P : A -> bool) (f : A -> list B)
      (l : list A) :
  existsb P l = false ->
  flat_map (fun e => if P e then f e else []) l = [].
Proof.
  induction l as [|x l IH]; simpl; [reflexivity|]. intros H.
  apply orb_false_elim in H. destruct H as [Hx Hl].
  rewrite Hx, (IH Hl). reflexivity.
Qed.

Lemma pushedSuggestions_quiet (fullText : jsstring) :
  mentionsKeyword fullText = false ->
  pushedSuggestions fullText = universalSuggestions.
Proof.
  intros H. unfold pushedSuggestions.
  rewrite (flat_map_none
             (fun entry => existsb (fun keyword => includes fullText keyword)
                                   (fst entry))
             snd testingSuggestionsTable H).
  reflexivity.
Qed.

Lemma push_matching_quiet (rules : list (regexp * jsstring))
      (fullText : jsstring) :
  matchesAny rules fullText = false -> push_matching rules fullText = [].
Proof.
  intros H. unfold push_matching.
  exact (flat_map_none (fun rule => test (fst rule) fullText)
                       (fun rule => [snd rule]) rules H).
Qed.

Lemma scan_empty_description :
  scan_patterns 10 reqPatterns [] [] = Ok []
  /\ scan_patterns 5 criteriaPatterns [] [] = Ok [].
Proof. split; vm_compute; reflexivity. Qed.

(** C1, as the code has it. For every issue whose description is empty the
    analyzer returns; the requirements are the one synthetic entry and the
    acceptance criteria are empty whatever the title is; the suggestions
    are the four universal ones when the text analysed (the lower-cased
    title and description) holds no keyword of the table, the risk areas
    are empty when it matches no risk pattern and no label is critical, and
    the test types are the two baseline ones when it matches no type
    pattern. *)
Theorem analyzeIssueForQA_empty_description :
  forall (toLowerCase : jsstring -> jsstring) (issueData : IssueData),
    description issueData = [] ->
    exists analysis,
      analyzeIssueForQA toLowerCase issueData = Ok analysis
      /\ requirements analysis = [lit "Implementar: " ++ title issueData]
      /\ acceptanceCriteria analysis = []
      /\ (mentionsKeyword (fullTextOf toLowerCase issueData) = false ->
          testingSuggestions analysis
          = [lit "Verificar que el cambio no rompe funcionalidad existente";
             lit "Probar en diferentes navegadores/dispositivos";
             lit "Validar performance bajo carga normal";
             lit "Revisar logs de errores durante las pruebas"])
      /\ (matchesAny riskIndicators (fullTextOf toLowerCase issueData) = false ->
          hasCriticalLabel toLowerCase (labels issueData) = false ->
          riskAreas analysis = [])
      /\ (matchesAny typeMapping (fullTextOf toLowerCase issueData) = false ->
          testTypes analysis
          = [lit "Testing Funcional"; lit "Testing de Regresión"]).
Proof.
  intros toLowerCase issueData D.
  destruct scan_empty_description as [R C].
  unfold analyzeIssueForQA, extractRequirements, extractAcceptanceCriteria.
  rewrite D, R, C. cbn [bind List.length Nat.eqb app].
  eexists. split; [reflexivity|]. cbn [requirements acceptanceCriteria
    testingSuggestions riskAreas testTypes].
  refine (conj eq_refl (conj eq_refl (conj _ (conj _ _)))).
  - intros Q. unfold generateTestingSuggestions.
    rewrite (pushedSuggestions_quiet _ Q). vm_compute. reflexivity.
  - intros Q L. unfold identifyRiskAreas.
    rewrite (push_matching_quiet _ _ Q), L. reflexivity.
  - intros Q. unfold determineTestTypes, pushedTypes.
    rewrite (push_matching_quiet _ _ Q). vm_compute. reflexivity.
Qed.

Lemma analyzeIssueForQA_empty_description_witness :
  description (issueOf (lit "Corregir texto del pie") [] [lit "docs"]) = []
  /\ exists analysis,
    analyzeIssueForQA toLowerCase_latin1
                      (issueOf (lit "Corregir texto del pie") [] [lit "docs"])
    = Ok analysis
    /\ requirements analysis
       = [lit "Implementar: "
          ++ title (issueOf (lit "Corregir texto del pie") [] [lit "docs"])]
    /\ acceptanceCriteria analysis = []
    /\ (mentionsKeyword
          (fullTextOf toLowerCase_latin1
                      (issueOf (lit "Corregir texto del pie") [] [lit "docs"]))
        = false ->
        testingSuggestions analysis
        = [lit "Verificar que el cambio no rompe funcionalidad existente";
           lit "Probar en diferentes navegadores/dispositivos";
           lit "Validar performance bajo carga normal";
           lit "Revisar logs de errores durante las pruebas"])
    /\ (matchesAny riskIndicators
          (fullTextOf toLowerCase_latin1
                      (issueOf (lit "Corregir texto del pie") [] [lit "docs"]))
        = false ->
        hasCriticalLabel toLowerCase_latin1
          (labels (issueOf (lit "Corregir texto del pie") [] [lit "docs"]))
        = false ->
        riskAreas analysis = [])
    /\ (matchesAny typeMapping
          (fullTextOf toLowerCase_latin1
                      (issueOf (lit "Corregir texto del pie") [] [lit "docs"]))
        = false ->
        testTypes analysis
        = [lit "Testing Funcional"; lit "Testing de Regresión"]).
Proof.
  split; [reflexivity|].
  apply (analyzeIssueForQA_empty_description
           toLowerCase_latin1
           (issueOf (lit "Corregir texto del pie") [] [lit "docs"])).
  reflexivity.
Defined.

(** On that issue the conditions hold and every field is its fallback. *)
Example analyzeIssueForQA_plain_title :
  analyzeIssueForQA toLowerCase_latin1
                    (issueOf (lit "Corregir texto del pie") [] [lit "docs"])
  = Ok {| requirements := [lit "Implementar: Corregir texto del pie"];
          acceptanceCriteria := [];
          testingSuggestions :=
            [lit "Verificar que el cambio no rompe funcionalidad existente";
             lit "Probar en diferentes navegadores/dispositivos";
             lit "Validar performance bajo carga normal";
             lit "Revisar logs de errores durante las pruebas"];
          riskAreas := [];
          testTypes := [lit "Testing Funcional"; lit "Testing de Regresión"] |}.
Proof. vm_compute. reflexivity. Qed.

(** The property as the specification words it, for any title, fails: the
    title is part of the text the keyword tables are run on.  With the title
    "Login API" and an empty description the suggestions number twelve. *)
Lemma analyzeIssueForQA_title_matters :
  ~ (forall issueData : IssueData,
        description issueData = [] ->
        analyzeIssueForQA toLowerCase_latin1 issueData
        = Ok {| requirements := [lit "Implementar: " ++ title issueData];
                acceptanceCriteria := [];
                testingSuggestions :=
                  [lit "Verificar que el cambio no rompe funcionalidad existente";
                   lit "Probar en diferentes navegadores/dispositivos";
                   lit "Validar performance bajo carga normal";
                   lit "Revisar logs de errores durante las pruebas"];
                riskAreas := [];
                testTypes :=
                  [lit "Testing Funcional"; lit "Testing de Regresión"] |}).
Proof.
  intros H.
  specialize (H (issueOf (lit "Login API") [] []) eq_refl).
  apply (f_equal (fun r => match r with
                           | Ok a => List.length (testingSuggestions a)
                           | _ => 0
                           end)) in H.
  vm_compute in H. discriminate H.
Qed.

Example analyzeIssueForQA_login_api :
  analyzeIssueForQA toLowerCase_latin1 (issueOf (lit "Login API") [] [])
  = Ok {| requirements := [lit "Implementar: Login API"];
          acceptanceCriteria := [];
          testingSuggestions :=
            [lit "Verificar login con credenciales válidas";
             lit "Verificar error con credenciales inválidas";
             lit "Verificar logout funciona correctamente";
             lit "Probar casos de seguridad (inyección, XSS)";
             lit "Probar respuestas con datos válidos";
             lit "Verificar manejo de errores HTTP";
             lit "Validar estructura de respuestas JSON";
             lit "Probar autenticación y autorización";
             lit "Verificar que el cambio no rompe funcionalidad existente";
             lit "Probar en diferentes navegadores/dispositivos";
             lit "Validar performance bajo carga normal";
             lit "Revisar logs de errores durante las pruebas"];
          riskAreas := [];
          testTypes := [lit "Testing de API"; lit "Testing Funcional";
                        lit "Testing de Regresión"] |}.
Proof. vm_compute. reflexivity. Qed.

(** The analyzer returns on every issue: the scanning loops end and read a
    capture that is always set, and nothing else in it can raise. *)
Lemma analyzeIssueForQA_total (toLowerCase : jsstring -> jsstring)
      (issueData : IssueData) :
  exists analysis, analyzeIssueForQA toLowerCase issueData = Ok analysis.
Proof.
  destruct (@scan_patterns_total 10 reqPatterns (description issueData)
                                 reqPatterns_safe [])
    as (reqs & R & _).
  destruct (@scan_patterns_total 5 criteriaPatterns (description issueData)
                                 criteriaPatterns_safe [])
    as (crit & C & _).
  unfold analyzeIssueForQA, extractRequirements, extractAcceptanceCriteria.
  rewrite R, C. cbn [bind]. eauto.
Qed.

(** ** Reading a match of a case-sensitive pattern *)

Section MatchesInversion.

Variable fl : flags.

Lemma Matches_Seq_inv (a b : regex) (s s3 : mstate) :
  Matches fl (Seq a b) s s3 ->
  exists s2, Matches fl a s s2 /\ Matches fl b s2 s3.
Proof. inversion 1; subst. eauto. Qed.

Lemma Matches_Chr_inv (a : cset) (s s' : mstate) :
  Matches fl (Chr a) s s' ->
  exists c, rest s = c :: rest s' /\ cset_mem fl a c = true.
Proof. inversion 1; subst. simpl. eauto. Qed.

Lemma Matches_Opt_inv (a : regex) (s s' : mstate) :
  Matches fl (Opt a) s s' -> Matches fl a s s' \/ s' = s.
Proof.
  unfold Opt. inversion 1; subst; [now left|].
  match goal with H : Matches _ Empty _ _ |- _ => inversion H; subst end.
  now right.
Qed.

Lemma Matches_Group_inv (n : nat) (a : regex) (s s' : mstate) :
  Matches fl (Group n a) s s' ->
  exists s1, Matches fl a s s1 /\ rest s' = rest s1.
Proof. inversion 1; subst. eexists. split; [eassumption | reflexivity]. Qed.

Lemma Matches_Bol_inv (s s' : mstate) :
  Matches fl Bol s s' -> pos s = 0 /\ s' = s.
Proof. inversion 1; subst. auto. Qed.

(** A repeated character class consumes characters of the class. *)
Lemma Matches_Star_Chr (g : bool) (a : cset) (s s' : mstate) :
  Matches fl (Star g (Chr a)) s s' ->
  exists w, rest s = w ++ rest s'
            /\ Forall (fun c => cset_mem fl a c = true) w.
Proof.
  intros M. remember (Star g (Chr a)) as r eqn:R.
  induction M; try discriminate.
  - exists []. split; [reflexivity | constructor].
  - injection R as -> ->.
    destruct (IHM2 eq_refl) as (w & Rw & Fw).
    apply Matches_Chr_inv in M1. destruct M1 as (c & Rc & Cc).
    simpl in Rc. exists (c :: w). rewrite Rc, Rw.
    split; [reflexivity | now constructor].
Qed.

Lemma Matches_Plus_Chr (g : bool) (a : cset) (s s' : mstate) :
  Matches fl (Plus g (Chr a)) s s' ->
  exists c w, rest s = c :: w ++ rest s'
              /\ Forall (fun c => cset_mem fl a c = true) (c :: w).
Proof.
  unfold Plus. intros M. apply Matches_Seq_inv in M.
  destruct M as (s2 & M1 & M2).
  apply Matches_Chr_inv in M1. destruct M1 as (c & Rc & Cc).
  apply Matches_Star_Chr in M2. destruct M2 as (w & Rw & Fw).
  exists c, w. rewrite Rc, Rw. split; [reflexivity | now constructor].
Qed.

Hypothesis case_sensitive : ignoreCase fl = false.

Lemma cset_mem_CLit (p c : N) : cset_mem fl (CLit p) c = true -> c = p.
Proof.
  simpl. unfold variants. rewrite case_sensitive. simpl.
  rewrite orb_false_r. intros H. apply N.eqb_eq in H. congruence.
Qed.

(** A literal string consumes itself. *)
Lemma Matches_Str (l : jsstring) :
  forall s s', Matches fl (Str l) s s' -> rest s = l ++ rest s'.
Proof.
  induction l as [|c l IH]; intros s s' M.
  - inversion M; subst. reflexivity.
  - destruct l as [|c' l].
    + simpl in M. apply Matches_Chr_inv in M. destruct M as (x & R & C).
      apply cset_mem_CLit in C. subst. exact R.
    + change (Str (c :: c' :: l)) with (Seq (Chr (CLit c)) (Str (c' :: l))) in M.
      apply Matches_Seq_inv in M. destruct M as (s2 & M1 & M2).
      apply Matches_Chr_inv in M1. destruct M1 as (x & R & C).
      apply cset_mem_CLit in C. subst. apply IH in M2.
      rewrite R, M2. reflexivity.
Qed.

End MatchesInversion.

(** ** The GitHub issue link *)

Lemma notSlash_spec (c : N) :
  cset_mem no_flags notSlash c = true -> N.eqb c 0x2F = false.
Proof.
  assert (E : notSlash = CNot (CLit 0x2F)) by (vm_compute; reflexivity).
  rewrite E. cbn [cset_mem variants ignoreCase no_flags existsb].
  rewrite orb_false_r, N.eqb_sym. apply negb_true_iff.
Qed.

Lemma segment_app (o r : jsstring) :
  Forall (fun c => cset_mem no_flags notSlash c = true) o ->
  segment (o ++ 0x2F%N :: r) = (o, 0x2F%N :: r).
Proof.
  induction 1 as [|c o Hc Ho IH]; [reflexivity|].
  cbn [app segment]. rewrite (notSlash_spec _ Hc), IH. reflexivity.
Qed.

Lemma issueShape_https (c1 c2 d : N) (o p tl : jsstring) :
  Forall (fun c => cset_mem no_flags notSlash c = true) (c1 :: o) ->
  Forall (fun c => cset_mem no_flags notSlash c = true) (c2 :: p) ->
  cset_mem no_flags CDigit d = true ->
  issueShape (lit "https://github.com/"
              ++ (c1 :: o) ++ 0x2F%N :: (c2 :: p) ++ lit "/issues/" ++ d :: tl)
  = true
  /\ issueShape (lit "http://github.com/"
                 ++ (c1 :: o) ++ 0x2F%N :: (c2 :: p) ++ lit "/issues/" ++ d :: tl)
     = true.
Proof.
  intros Fo Fp D.
  assert (S1 : forall x, after_scheme (lit "https://github.com/" ++ x)
                         = Some (lit "github.com/" ++ x))
    by (intros x; vm_compute; reflexivity).
  assert (S2 : forall x, after_scheme (lit "http://github.com/" ++ x)
                         = Some (lit "github.com/" ++ x))
    by (intros x; vm_compute; reflexivity).
  assert (S3 : forall x, strip (lit "github.com/") (lit "github.com/" ++ x)
                         = Some x)
    by (intros x; vm_compute; reflexivity).
  assert (S4 : forall x, segment (lit "/issues/" ++ x) = ([], lit "/issues/" ++ x))
    by (intros x; vm_compute; reflexivity).
  assert (S5 : forall x, strip (lit "/issues/") (lit "/issues/" ++ x) = Some x)
    by (intros x; vm_compute; reflexivity).
  assert (G : forall x, segment ((c2 :: p) ++ lit "/issues/" ++ x)
                        = (c2 :: p, lit "/issues/" ++ x)).
  { intros x. assert (E : lit "/issues/" ++ x = 0x2F%N :: lit "issues/" ++ x)
      by (vm_compute; reflexivity).
    rewrite E. apply segment_app. exact Fp. }
  unfold issueShape. rewrite S1, S2, S3.
  rewrite (segment_app _ Fo), G, S5. simpl in D. auto.
Qed.

(** A link the pattern accepts has the expected shape. *)
Lemma issueUrlPattern_shape (url : jsstring) (mt : match_result) :
  str_match url issueUrlPattern = Some mt -> issueShape url = true.
Proof.
  unfold str_match, exec. cbn [flag issueUrlPattern global no_flags Nat.leb skipn].
  intros H. apply search_sound in H.
  destruct H as (pre & suf & s' & U & I & M & _ & _).
  unfold issueUrlPattern in M. cbn [source seqs] in M. unfold str in M.
  apply Matches_Seq_inv in M. destruct M as (s0 & M0 & M).
  apply Matches_Bol_inv in M0. destruct M0 as [P0 ->]. cbn [pos] in P0.
  assert (pre = []) by (destruct pre; [reflexivity | simpl in I; lia]).
  subst pre. cbn [app] in U. subst suf.
  apply Matches_Seq_inv in M. destruct M as (s1 & M1 & M).
  apply (@Matches_Str no_flags eq_refl) in M1. cbn [rest] in M1.
  apply Matches_Seq_inv in M. destruct M as (s2 & M2 & M).
  apply Matches_Seq_inv in M. destruct M as (s3 & M3 & M).
  apply (@Matches_Str no_flags eq_refl) in M3.
  apply Matches_Seq_inv in M. destruct M as (s4 & M4 & M).
  apply Matches_Group_inv in M4. destruct M4 as (s4' & M4 & R4).
  apply Matches_Plus_Chr in M4. destruct M4 as (c1 & o & Ro & Fo).
  apply Matches_Seq_inv in M. destruct M as (s5 & M5 & M).
  apply Matches_Chr_inv in M5. destruct M5 as (x5 & R5 & C5).
  apply (@cset_mem_CLit no_flags eq_refl) in C5.
  apply Matches_Seq_inv in M. destruct M as (s6 & M6 & M).
  apply Matches_Group_inv in M6. destruct M6 as (s6' & M6 & R6).
  apply Matches_Plus_Chr in M6. destruct M6 as (c2 & p & Rp & Fp).
  apply Matches_Seq_inv in M. destruct M as (s7 & M7 & M).
  apply (@Matches_Str no_flags eq_refl) in M7.
  apply Matches_Group_inv in M. destruct M as (s8 & M8 & R8).
  apply Matches_Plus_Chr in M8. destruct M8 as (d & ds & Rd & Fd).
  inversion Fd as [|? ? D _]; subst.
  rewrite <- R4 in Ro. rewrite <- R6 in Rp.
  rewrite Rd in M7. rewrite M7 in Rp. rewrite Rp in R5. rewrite R5 in Ro.
  rewrite Ro in M3.
  destruct (@issueShape_https c1 c2 d o p (ds ++ rest s8) Fo Fp D) as [Hs Hp].
  apply Matches_Opt_inv in M2. destruct M2 as [M2| ->].
  - apply Matches_Chr_inv in M2. destruct M2 as (x & R2 & C2).
    apply (@cset_mem_CLit no_flags eq_refl) in C2.
    rewrite R2, M3, C2.
    match goal with
    | |- issueShape ?u = true =>
      replace u with (lit "https://github.com/" ++ (c1 :: o) ++ 0x2F%N
                        :: (c2 :: p) ++ lit "/issues/" ++ d :: ds ++ rest s8)
        by (vm_compute; reflexivity)
    end.
    exact Hs.
  - rewrite M3.
    match goal with
    | |- issueShape ?u = true =>
      replace u with (lit "http://github.com/" ++ (c1 :: o) ++ 0x2F%N
                        :: (c2 :: p) ++ lit "/issues/" ++ d :: ds ++ rest s8)
        by (vm_compute; reflexivity)
    end.
    exact Hp.
Qed.

(** ** The matcher finds a match when there is one *)

Section MatcherComplete.

Variable fl : flags.

Lemma m_complete_star (r : regex) (s s' : mstate) :
  Matches fl r s s' ->
  forall k x, k s' = Some x ->
    (exists y, m fl r k s = Some y)
    /\ (forall g a, r = Star g a ->
        forall fuel, List.length (rest s) < fuel ->
        exists y, star_loop (m fl a) g (groups a) fuel k s = Some y).
Proof.
  induction 1 as [s|a c t s R C|a b s1 s2 s3 M1 IH1 M2 IH2|a b s s' M IH
                  |a b s s' M IH|g a s|g a s s1 s2 M1 IH1 N M2 IH2
                  |n a s s' M IH|s P|s R];
    intros k x K.
  - split; [exists x; exact K | discriminate].
  - split; [|discriminate]. exists x. cbn [m]. rewrite R, C. exact K.
  - split; [|discriminate]. cbn [m].
    destruct (IH2 k x K) as [[y Hy] _].
    destruct (IH1 (m fl b k) y Hy) as [Hz _]. exact Hz.
  - split; [|discriminate]. cbn [m].
    destruct (IH k x K) as [[y Hy] _]. rewrite Hy. eauto.
  - split; [|discriminate]. cbn [m].
    destruct (m fl a k s) as [y|]; [eauto|].
    destruct (IH k x K) as [Hy _]. exact Hy.
  - assert (L : forall fuel, List.length (rest s) < fuel ->
                 exists y, star_loop (m fl a) g (groups a) fuel k s = Some y).
    { intros [|fuel] Hf; [lia|]. cbn [star_loop]. destruct g.
      - destruct (m fl a _ (clear_caps (groups a) s)); eauto.
      - rewrite K. eauto. }
    split.
    + cbn [m]. apply L. lia.
    + intros g0 a0 [= -> ->]. exact L.
  - assert (L : forall fuel, List.length (rest s) < fuel ->
                 exists y, star_loop (m fl a) g (groups a) fuel k s = Some y).
    { intros [|fuel] Hf; [lia|]. cbn [star_loop].
      destruct (Matches_consumes M1) as (w & Rw & Pw).
      cbn [clear_caps rest pos] in Rw, Pw.
      assert (Hlen : List.length (rest s1) < fuel).
      { rewrite Rw, length_app in Hf. destruct w; simpl in *; lia. }
      destruct (IH2 k x K) as [_ Star2].
      destruct (Star2 g a eq_refl fuel Hlen) as [y Hy].
      destruct (IH1 (fun s' => if Nat.eqb (pos s') (pos s) then None
                               else star_loop (m fl a) g (groups a) fuel k s')
                    y) as [[z Hz] _].
      { apply Nat.eqb_neq in N. rewrite N. exact Hy. }
      rewrite Hz. destruct g; [eauto|]. destruct (k s); eauto. }
    split.
    + cbn [m]. apply L. lia.
    + intros g0 a0 [= -> ->]. exact L.
  - split; [|discriminate]. cbn [m].
    destruct (IH (fun s1 => k (set_cap n (firstn (pos s1 - pos s) (rest s)) s1))
                 x K) as [Hy _].
    exact Hy.
  - split; [|discriminate]. cbn [m]. rewrite P. cbn [Nat.eqb]. eauto.
  - split; [|discriminate]. cbn [m]. rewrite R. eauto.
Qed.

(** Completeness: when [r] has a match that the continuation accepts, [m]
    returns one (the first in the priority order, which need not be that
    one). *)
Lemma m_complete (r : regex) (s s' : mstate) (k : cont) (x : mstate) :
  Matches fl r s s' -> k s' = Some x -> exists y, m fl r k s = Some y.
Proof. intros M K. exact (proj1 (@m_complete_star r s s' M k x K)). Qed.

Lemma search_complete (r : regex) (suf : jsstring) (s' : mstate) :
  forall pre i,
    Matches fl r {| pos := i + List.length pre; rest := suf; caps := [] |} s' ->
    exists mt, search fl r i (pre ++ suf) = Some mt.
Proof.
  induction pre as [|c pre IH]; intros i M.
  - cbn [List.length app] in *. rewrite Nat.add_0_r in M.
    destruct (@m_complete r _ s' Some s' M eq_refl) as [y Hy].
    destruct suf; cbn [search]; rewrite Hy; eauto.
  - cbn [app search].
    destruct (m fl r Some _); [eauto|].
    apply IH. cbn [List.length] in M.
    now replace (S i + List.length pre) with (i + S (List.length pre)) by lia.
Qed.

End MatcherComplete.

(** ** Building a match *)

Section AcceptsIntro.

Variable fl : flags.

Lemma Accepts_Empty (t : jsstring) : Accepts fl Empty t t.
Proof. intros i c. exists i, c. constructor. Qed.

Lemma Accepts_Chr (a : cset) (x : N) (t : jsstring) :
  cset_mem fl a x = true -> Accepts fl (Chr a) (x :: t) t.
Proof.
  intros C i c. exists (S i), c.
  exact (@M_Chr fl a x t {| pos := i; rest := x :: t; caps := c |} eq_refl C).
Qed.

Lemma Accepts_Seq (a b : regex) (u v t : jsstring) :
  Accepts fl a u v -> Accepts fl b v t -> Accepts fl (Seq a b) u t.
Proof.
  intros A B i c. destruct (A i c) as (j & c1 & Ma).
  destruct (B j c1) as (j' & c2 & Mb). exists j', c2.
  econstructor; eassumption.
Qed.

Lemma Accepts_Opt_some (a : regex) (u t : jsstring) :
  Accepts fl a u t -> Accepts fl (Opt a) u t.
Proof.
  intros A i c. destruct (A i c) as (j & c' & M). exists j, c'.
  now apply M_AltL.
Qed.

Lemma Accepts_Opt_none (a : regex) (t : jsstring) : Accepts fl (Opt a) t t.
Proof. intros i c. exists i, c. apply M_AltR. constructor. Qed.

Lemma Accepts_Group (n : nat) (a : regex) (u t : jsstring) :
  Accepts fl a u t -> Accepts fl (Group n a) u t.
Proof.
  intros A i c. destruct (A i c) as (j & c' & M).
  exists j, ((n, firstn (j - i) u) :: c').
  exact (M_Group n M).
Qed.

Lemma cset_mem_CLit_self (x : N) : cset_mem fl (CLit x) x = true.
Proof.
  simpl. unfold variants. destruct (ignoreCase fl); simpl;
    rewrite N.eqb_refl; reflexivity.
Qed.

Lemma Accepts_Str (l t : jsstring) : Accepts fl (Str l) (l ++ t) t.
Proof.
  induction l as [|x l IH]; [apply Accepts_Empty|].
  destruct l as [|y l].
  - apply Accepts_Chr, cset_mem_CLit_self.
  - change (Str (x :: y :: l)) with (Seq (Chr (CLit x)) (Str (y :: l))).
    eapply Accepts_Seq; [|exact IH].
    apply Accepts_Chr, cset_mem_CLit_self.
Qed.

Lemma Accepts_Star_Chr (g : bool) (a : cset) (w t : jsstring) :
  Forall (fun x => cset_mem fl a x = true) w ->
  Accepts fl (Star g (Chr a)) (w ++ t) t.
Proof.
  induction 1 as [|x w Hx Hw IH]; intros i c.
  - exists i, c. constructor.
  - destruct (IH (S i) (caps (clear_caps (groups (Chr a))
                                          {| pos := i; rest := (x :: w) ++ t;
                                             caps := c |})))
      as (j & c' & M).
    exists j, c'. eapply M_StarIter; [| |exact M].
    + exact (@M_Chr fl a x (w ++ t)
                    (clear_caps (groups (Chr a))
                                {| pos := i; rest := (x :: w) ++ t; caps := c |})
                    eq_refl Hx).
    + simpl. lia.
Qed.

Lemma Accepts_Plus_Chr (g : bool) (a : cset) (x : N) (w t : jsstring) :
  Forall (fun x => cset_mem fl a x = true) (x :: w) ->
  Accepts fl (Plus g (Chr a)) ((x :: w) ++ t) t.
Proof.
  intros F. inversion F as [|? ? Hx Hw]; subst. unfold Plus.
  eapply Accepts_Seq; [apply Accepts_Chr; exact Hx|].
  now apply Accepts_Star_Chr.
Qed.

End AcceptsIntro.

(** ** A link of the expected shape is accepted *)

Lemma startsWith_app (p s : jsstring) :
  startsWith s p = true -> s = p ++ skipn (List.length p) s.
Proof.
  revert s; induction p as [|x p IH]; intros s H; [reflexivity|].
  destruct s as [|y s]; [discriminate|]. cbn [startsWith] in H.
  apply andb_true_iff in H. destruct H as [E H]. apply N.eqb_eq in E.
  subst y. cbn [List.length skipn app]. f_equal. now apply IH.
Qed.

Lemma strip_spec (p s r : jsstring) : strip p s = Some r -> s = p ++ r.
Proof.
  unfold strip. destruct (startsWith s p) eqn:E; [|discriminate].
  intros [= <-]. now apply startsWith_app.
Qed.

Lemma notSlash_intro (c : N) :
  N.eqb c 0x2F = false -> cset_mem no_flags notSlash c = true.
Proof.
  assert (E : notSlash = CNot (CLit 0x2F)) by (vm_compute; reflexivity).
  rewrite E. cbn [cset_mem variants ignoreCase no_flags existsb].
  rewrite orb_false_r, N.eqb_sym. intros ->. reflexivity.
Qed.

Lemma segment_spec (s : jsstring) :
  forall a b,
    segment s = (a, b) ->
    s = a ++ b
    /\ Forall (fun c => cset_mem no_flags notSlash c = true) a
    /\ (forall c b', b = c :: b' -> c = 0x2F%N).
Proof.
  induction s as [|x s IH]; intros a b H; cbn [segment] in H.
  - injection H as <- <-. repeat split; [constructor | discriminate].
  - destruct (N.eqb x 0x2F) eqn:E.
    + injection H as <- <-. apply N.eqb_eq in E.
      repeat split; [constructor | congruence].
    + destruct (segment s) as [a' b'] eqn:S. injection H as <- <-.
      destruct (IH a' b' eq_refl) as (-> & F & B).
      repeat split; [| assumption].
      constructor; [now apply notSlash_intro | assumption].
Qed.

Lemma issueShape_accepts (url : jsstring) :
  issueShape url = true -> exists tl, Accepts no_flags issueUrlBody url tl.
Proof.
  unfold issueShape.
  destruct (after_scheme url) as [r0|] eqn:A; [|discriminate].
  destruct (strip (lit "github.com/") r0) as [r1|] eqn:S1; [|discriminate].
  destruct (segment r1) as [o r2] eqn:G1.
  destruct o as [|c1 o]; [discriminate|].
  destruct r2 as [|x r3]; [discriminate|].
  destruct (segment r3) as [p r4] eqn:G2.
  destruct p as [|c2 p]; [discriminate|].
  destruct (strip (lit "/issues/") r4) as [[|d r5]|] eqn:S2;
    try discriminate.
  intros D.
  apply strip_spec in S1. apply strip_spec in S2.
  apply segment_spec in G1. destruct G1 as (E1 & Fo & X).
  apply segment_spec in G2. destruct G2 as (E2 & Fp & _).
  specialize (X x r3 eq_refl). subst x r4 r3 r1 r0.
  exists r5. unfold issueUrlBody. cbn [seqs]. unfold str.
  assert (Tail : Accepts no_flags
                   (Seq (Str (lit "://github.com/"))
                      (Seq (Group 1 (Plus true (Chr notSlash)))
                         (Seq (Chr (chr "/"))
                            (Seq (Group 2 (Plus true (Chr notSlash)))
                               (Seq (Str (lit "/issues/"))
                                    (Group 3 (Plus true (Chr CDigit))))))))
                   (lit "://github.com/" ++ (c1 :: o) ++ 0x2F%N
                      :: (c2 :: p) ++ lit "/issues/" ++ d :: r5)
                   r5).
  { eapply Accepts_Seq; [apply Accepts_Str|].
    eapply Accepts_Seq; [apply Accepts_Group, Accepts_Plus_Chr; exact Fo|].
    eapply Accepts_Seq;
      [apply (@Accepts_Chr no_flags (chr "/") 0x2F%N); reflexivity|].
    eapply Accepts_Seq; [apply Accepts_Group, Accepts_Plus_Chr; exact Fp|].
    eapply Accepts_Seq; [apply Accepts_Str|].
    apply Accepts_Group.
    apply (@Accepts_Plus_Chr no_flags true CDigit d [] r5).
    constructor; [exact D | constructor]. }
  unfold after_scheme in A.
  destruct (strip (lit "https://") url) as [r|] eqn:S0.
  - injection A as ->. apply strip_spec in S0. subst url.
    match goal with
    | |- Accepts _ _ ?u _ =>
      replace u
        with (lit "http" ++ hd 0%N (lit "s")
                :: lit "://github.com/" ++ (c1 :: o) ++ 0x2F%N
                :: (c2 :: p) ++ lit "/issues/" ++ d :: r5)
        by (vm_compute; reflexivity)
    end.
    eapply Accepts_Seq; [apply Accepts_Str|].
    eapply Accepts_Seq; [|exact Tail].
    apply Accepts_Opt_some, Accepts_Chr, cset_mem_CLit_self.
  - apply strip_spec in A. subst url.
    match goal with
    | |- Accepts _ _ ?u _ =>
      replace u
        with (lit "http" ++ lit "://github.com/" ++ (c1 :: o) ++ 0x2F%N
                :: (c2 :: p) ++ lit "/issues/" ++ d :: r5)
        by (vm_compute; reflexivity)
    end.
    eapply Accepts_Seq; [apply Accepts_Str|].
    eapply Accepts_Seq; [apply Accepts_Opt_none | exact Tail].
Qed.

Lemma issueUrlPattern_accepts (url : jsstring) :
  issueShape url = true ->
  exists mt, str_match url issueUrlPattern = Some mt.
Proof.
  intros H. apply issueShape_accepts in H. destruct H as (tl & A).
  destruct (A 0 []) as (j & c & M).
  unfold str_match, exec.
  cbn [flag issueUrlPattern global no_flags Nat.leb skipn source].
  apply (@search_complete no_flags _ url {| pos := j; rest := tl; caps := c |}
                          [] 0).
  cbn [List.length Nat.add].
  change (seqs _) with (Seq Bol issueUrlBody).
  eapply M_Seq; [apply M_Bol; reflexivity | exact M].
Qed.

(** A link of the expected shape parses. *)
Lemma parseGitHubIssueUrl_accepts (url : jsstring) :
  issueShape url = true -> exists ref, parseGitHubIssueUrl url = Ok ref.
Proof.
  intros H. apply issueUrlPattern_accepts in H. destruct H as [mt H].
  unfold parseGitHubIssueUrl. rewrite H. eauto.
Qed.

Lemma statedShape_issueShape (url : jsstring) :
  statedShape url = true -> issueShape url = true.
Proof.
  unfold statedShape, issueShape, after_scheme.
  destruct (strip (lit "https://") url) as [r0|]; [|discriminate].
  destruct (strip (lit "github.com/") r0) as [r1|]; [|discriminate].
  destruct (segment r1) as [o r2].
  destruct o as [|o1 o]; [discriminate|].
  destruct r2 as [|c r3]; [discriminate|].
  destruct (segment r3) as [p r4].
  destruct p as [|p1 p]; [discriminate|].
  destruct (strip (lit "/issues/") r4) as [[|d ds]|]; try discriminate.
  cbn [forallb]. intros H. apply andb_true_iff in H. exact (proj1 H).
Qed.

(** C9. The link [https://github.com/o/r/issues/7] parses to the owner
    [o], the repository [r] and the issue 7.  The parser raises the error
    for invalid parameters exactly for the strings that do not begin with
    the scheme [http] or [https], the host [github.com], an owner, a
    repository, [/issues/] and a digit; a string of the shape
    [https://github.com/owner/repo/issues/{n}] is one that it accepts, and
    not the only one. *)
Theorem parseGitHubIssueUrl_shape :
  parseGitHubIssueUrl (lit "https://github.com/o/r/issues/7")
  = Ok {| owner := lit "o"; repo := lit "r"; issueNumber := 7%N |}
  /\ (forall url : jsstring,
         issueShape url = false ->
         parseGitHubIssueUrl url
         = Throw (McpError InvalidParams
                    (lit "URL de issue de GitHub inválido. Formato esperado: https://github.com/owner/repo/issues/123")))
  /\ (forall url : jsstring,
         issueShape url = true -> exists ref, parseGitHubIssueUrl url = Ok ref)
  /\ (forall url : jsstring, statedShape url = true -> issueShape url = true).
Proof.
  split; [|split; [|split]].
  - vm_compute. reflexivity.
  - intros url H. unfold parseGitHubIssueUrl.
    destruct (str_match url issueUrlPattern) as [mt|] eqn:E.
    + apply issueUrlPattern_shape in E. congruence.
    + reflexivity.
  - exact parseGitHubIssueUrl_accepts.
  - exact statedShape_issueShape.
Qed.

Lemma parseGitHubIssueUrl_shape_witness :
  issueShape (lit "https://github.com/o/r/pull/7") = false
  /\ parseGitHubIssueUrl (lit "https://github.com/o/r/pull/7")
     = Throw (McpError InvalidParams
                (lit "URL de issue de GitHub inválido. Formato esperado: https://github.com/owner/repo/issues/123")).
Proof.
  split.
  - vm_compute. reflexivity.
  - apply (proj1 (proj2 parseGitHubIssueUrl_shape)). vm_compute. reflexivity.
Defined.

(** A string that is not of the shape
    [https://github.com/owner/repo/issues/{n}], for the text after its
    number, and that the parser accepts all the same. *)
Lemma parseGitHubIssueUrl_outside_stated_shape :
  statedShape (lit "https://github.com/o/r/issues/7abc") = false
  /\ parseGitHubIssueUrl (lit "https://github.com/o/r/issues/7abc")
     = Ok {| owner := lit "o"; repo := lit "r"; issueNumber := 7%N |}.
Proof. split; vm_compute; reflexivity. Qed.

(** The scheme [http] and text after the number are accepted. *)
Example parseGitHubIssueUrl_lenient :
  parseGitHubIssueUrl (lit "http://github.com/o/r/issues/7#issuecomment-1")
  = Ok {| owner := lit "o"; repo := lit "r"; issueNumber := 7%N |}.
Proof. vm_compute. reflexivity. Qed.

(** ** What the scans collect *)

Lemma trimStart_suffix (s : jsstring) : exists p, s = p ++ trimStart s.
Proof.
  induction s as [|c s [p IH]]; [exists []; reflexivity|].
  simpl. destruct (isSpace c).
  - exists (c :: p). simpl. now rewrite <- IH.
  - exists []. reflexivity.
Qed.

Lemma trimStart_head (s : jsstring) (c : N) (t : jsstring) :
  trimStart s = c :: t -> isSpace c = false.
Proof.
  induction s as [|x s IH]; simpl; [discriminate|].
  destruct (isSpace x) eqn:E; [exact IH|]. intros [= <- <-]. exact E.
Qed.

Lemma last_rev (l : jsstring) (d : N) : last (rev l) d = hd d l.
Proof. destruct l as [|c t]; [reflexivity|]. simpl. apply last_last. Qed.

Lemma hd_rev (l : jsstring) (d : N) : hd d (rev l) = last l d.
Proof. rewrite <- (rev_involutive l) at 2. now rewrite last_rev. Qed.

Lemma last_app_nonempty (p l : jsstring) (d : N) :
  l <> [] -> last (p ++ l) d = last l d.
Proof.
  intros H. induction p as [|x p IH]; [reflexivity|].
  simpl app. rewrite <- IH. simpl.
  destruct (p ++ l) eqn:E; [|reflexivity].
  apply app_eq_nil in E. tauto.
Qed.

(** [trim] leaves no white space at either end. *)
Lemma trim_isTrimmed (s : jsstring) : isTrimmed (trim s) = true.
Proof.
  unfold trim.
  destruct (trimStart s) as [|a s1] eqn:A; [reflexivity|].
  destruct (trimStart (rev (a :: s1))) as [|b s2] eqn:B; [reflexivity|].
  pose proof (trimStart_head _ B) as Hb.
  pose proof (trimStart_head _ A) as Ha.
  destruct (trimStart_suffix (rev (a :: s1))) as [p Hp]. rewrite B in Hp.
  assert (H1 : hd 0%N (rev (b :: s2)) = a).
  { rewrite hd_rev, <- (last_app_nonempty p (l:=b :: s2)) by discriminate.
    rewrite <- Hp. apply last_rev. }
  assert (H2 : last (rev (b :: s2)) 0%N = b) by apply last_rev.
  unfold isTrimmed. destruct (rev (b :: s2)) as [|c t] eqn:R; [reflexivity|].
  simpl in H1. subst c. rewrite H2, Ha, Hb. reflexivity.
Qed.

Lemma excerpt_refl (x : jsstring) : excerpt x x.
Proof. exists [], []. now rewrite app_nil_r. Qed.

Lemma excerpt_trans (x y z : jsstring) :
  excerpt x y -> excerpt y z -> excerpt x z.
Proof.
  intros (a & b & ->) (c & d & ->). exists (c ++ a), (b ++ d).
  now rewrite <- !app_assoc.
Qed.

Lemma excerpt_app_r (x p s : jsstring) : excerpt x s -> excerpt x (p ++ s).
Proof.
  intros (a & b & ->). exists (p ++ a), b. now rewrite <- app_assoc.
Qed.

Lemma excerpt_rev (x y : jsstring) : excerpt x y -> excerpt (rev x) (rev y).
Proof.
  intros (a & b & ->). exists (rev b), (rev a).
  now rewrite !rev_app_distr, <- app_assoc.
Qed.

Lemma trimStart_excerpt (s : jsstring) : excerpt (trimStart s) s.
Proof.
  destruct (trimStart_suffix s) as [p H]. exists p, [].
  now rewrite app_nil_r.
Qed.

(** What [trim] returns stands in its argument. *)
Lemma trim_excerpt (s : jsstring) : excerpt (trim s) s.
Proof.
  unfold trim. eapply excerpt_trans; [|apply trimStart_excerpt].
  rewrite <- (rev_involutive (trimStart s)) at 2.
  apply excerpt_rev, trimStart_excerpt.
Qed.

Section CapturesAreExcerpts.

Variable fl : flags.
Variable text : jsstring.

Lemma Matches_caps_excerpt (r : regex) (s s' : mstate) :
  Matches fl r s s' ->
  (exists p, text = p ++ rest s) ->
  Forall (fun kv => excerpt (snd kv) text) (caps s) ->
  Forall (fun kv => excerpt (snd kv) text) (caps s').
Proof.
  induction 1 as [s|a c t s R C|a b s1 s2 s3 M1 IH1 M2 IH2|a b s s' M IH
                  |a b s s' M IH|g a s|g a s s1 s2 M1 IH1 N M2 IH2
                  |n a s s' M IH|s P|s R];
    intros Suf Caps; auto.
  - apply IH2; [|now apply IH1].
    destruct (Matches_consumes M1) as (w & Rw & _). destruct Suf as [p Hp].
    exists (p ++ w). now rewrite <- app_assoc, <- Rw.
  - assert (Caps1 : Forall (fun kv => excerpt (snd kv) text) (caps s1)).
    { apply IH1; [exact Suf|]. simpl.
      apply Forall_forall. intros kv Hin. apply filter_In in Hin.
      rewrite Forall_forall in Caps. now apply Caps. }
    apply IH2; [|exact Caps1].
    destruct (Matches_consumes M1) as (w & Rw & _). simpl in Rw.
    destruct Suf as [p Hp]. exists (p ++ w). now rewrite <- app_assoc, <- Rw.
  - simpl. constructor; [|now apply IH]. simpl.
    destruct Suf as [p Hp].
    exists p, (skipn (pos s' - pos s) (rest s)).
    now rewrite firstn_skipn.
Qed.

Lemma capture_In (n : nat) (c : list (nat * jsstring)) (v : jsstring) :
  capture n c = Some v -> In (n, v) c.
Proof.
  induction c as [|[k w] c IH]; simpl; [discriminate|].
  destruct (Nat.eqb k n) eqn:E.
  - apply Nat.eqb_eq in E. intros [= ->]. subst. now left.
  - intros H. right. now apply IH.
Qed.

End CapturesAreExcerpts.

(** What [exec] captures stands in the text searched. *)
Lemma exec_capture_excerpt (re : regexp) (text : jsstring) (lastIndex n : nat)
      (mt : match_result) (v : jsstring) :
  exec re text lastIndex = Some mt ->
  capture n (captures mt) = Some v ->
  excerpt v text.
Proof.
  unfold exec.
  set (start := if global (flag re) then lastIndex else 0).
  destruct (Nat.leb start (List.length text)); [|discriminate].
  intros H C. apply search_sound in H.
  destruct H as (pre & suf & s' & S & _ & M & _ & E).
  rewrite E in C. apply capture_In in C.
  assert (F : Forall (fun kv => excerpt (snd kv) text) (caps s')).
  { apply (Matches_caps_excerpt (text:=text) M); [|constructor].
    exists (firstn start text ++ pre). simpl.
    rewrite <- app_assoc, <- S. symmetry. apply firstn_skipn. }
  rewrite Forall_forall in F. exact (F _ C).
Qed.

(** The loop adds to [out] only trimmed captures longer than [threshold]
    that stand in the text. *)
Lemma exec_loop_collects (threshold : nat) (pattern : regexp) (text : jsstring) :
  forall fuel lastIndex out result,
    exec_loop threshold pattern text fuel lastIndex out = Ok result ->
    exists found,
      result = out ++ found
      /\ Forall (fun x => threshold < List.length x
                          /\ isTrimmed x = true
                          /\ excerpt x text) found.
Proof.
  induction fuel as [|fuel IH]; intros lastIndex out result H; [discriminate|].
  simpl in H. destruct (exec pattern text lastIndex) as [mt|] eqn:E.
  - destruct (capture 1 (captures mt)) as [c|] eqn:C; [|discriminate].
    apply IH in H. destruct H as (found & -> & F).
    destruct (Nat.ltb threshold (List.length (trim c))) eqn:T.
    + exists (trim c :: found). rewrite <- app_assoc. split; [reflexivity|].
      constructor; [|exact F]. apply Nat.ltb_lt in T.
      refine (conj T (conj (trim_isTrimmed c) _)).
      eapply excerpt_trans; [apply trim_excerpt|].
      exact (exec_capture_excerpt _ _ _ _ E C).
    + exists found. split; [reflexivity | exact F].
  - injection H as <-. exists []. rewrite app_nil_r.
    split; [reflexivity | constructor].
Qed.

Lemma scan_patterns_collects (threshold : nat) (patterns : list regexp)
      (text : jsstring) :
  forall out result,
    scan_patterns threshold patterns text out = Ok result ->
    exists found,
      result = out ++ found
      /\ Forall (fun x => threshold < List.length x
                          /\ isTrimmed x = true
                          /\ excerpt x text) found.
Proof.
  induction patterns as [|p ps IH]; intros out result H; cbn [scan_patterns] in H.
  - injection H as <-. exists []. rewrite app_nil_r.
    split; [reflexivity | constructor].
  - destruct (exec_loop threshold p text (S (List.length text)) 0 out)
      as [r1| |] eqn:E; cbn [bind] in H; try discriminate.
    apply exec_loop_collects in E. destruct E as (f1 & -> & F1).
    apply IH in H. destruct H as (f2 & -> & F2).
    exists (f1 ++ f2). rewrite app_assoc.
    split; [reflexivity | now apply Forall_app].
Qed.

(** X1. For every issue, [extractAcceptanceCriteria] returns, and every
    criterion it returns is longer than 5 code units, has no white space at
    either end and stands verbatim in the description. *)
Theorem extractAcceptanceCriteria_excerpts :
  forall issueData : IssueData,
  exists criteria,
    extractAcceptanceCriteria issueData = Ok criteria
    /\ forall x, In x criteria ->
                 5 < List.length x
                 /\ isTrimmed x = true
                 /\ excerpt x (description issueData).
Proof.
  intros issueData. unfold extractAcceptanceCriteria.
  destruct (@scan_patterns_total 5 criteriaPatterns (description issueData)
                                 criteriaPatterns_safe [])
    as (found & F & _).
  cbn [app] in F. exists found. split; [exact F|].
  apply scan_patterns_collects in F. destruct F as (f & E & All).
  cbn [app] in E. subst f. now apply Forall_forall.
Qed.

(** X2. For every issue, [extractRequirements] returns a list that is never
    empty: either the one synthetic entry made of the title, or entries
    that are each longer than 10 code units, free of white space at both
    ends, and verbatim parts of the description. *)
Theorem extractRequirements_nonempty_excerpts :
  forall issueData : IssueData,
  exists requirements,
    extractRequirements issueData = Ok requirements
    /\ requirements <> []
    /\ (requirements = [lit "Implementar: " ++ title issueData]
        \/ forall x, In x requirements ->
                     10 < List.length x
                     /\ isTrimmed x = true
                     /\ excerpt x (description issueData)).
Proof.
  intros issueData. unfold extractRequirements.
  destruct (@scan_patterns_total 10 reqPatterns (description issueData)
                                 reqPatterns_safe [])
    as (found & F & _).
  cbn [app] in F. rewrite F. cbn [bind].
  apply scan_patterns_collects in F. destruct F as (f & E & All).
  cbn [app] in E. subst f.
  destruct found as [|x found]; cbn [List.length Nat.eqb app].
  - eexists. split; [reflexivity|]. split; [discriminate | now left].
  - eexists. split; [reflexivity|]. split; [discriminate|]. right.
    now apply Forall_forall.
Qed.

(** ** Substrings and patterns made of words *)

Lemma nodupb_NoDup (l : list jsstring) : nodupb l = true -> NoDup l.
Proof.
  induction l as [|x l IH]; simpl; [constructor|]. intros H.
  apply andb_true_iff in H. destruct H as [H1 H2].
  apply negb_true_iff, arr_includes_not_In in H1.
  constructor; auto.
Qed.

Lemma fresh_NoDup_id (l seen : list jsstring) :
  NoDup l -> (forall x, In x l -> ~ In x seen) -> fresh seen l = l.
Proof.
  revert seen; induction l as [|x l IH]; intros seen N D; [reflexivity|].
  simpl. inversion N as [|? ? Nx Nl]; subst.
  assert (E : arr_includes seen x = false).
  { apply arr_includes_not_In, D. now left. }
  rewrite E. f_equal. apply IH; [assumption|].
  intros y Hy Hs. apply in_app_or in Hs. destruct Hs as [Hs|[<-|[]]].
  - apply (D y); [now right | assumption].
  - contradiction.
Qed.

(** A [Set] built from an array without duplicates is that array. *)
Lemma dedupe_NoDup_id (l : list jsstring) : NoDup l -> dedupe l = l.
Proof.
  intros N. rewrite dedupe_fresh. apply fresh_NoDup_id; [assumption|].
  intros x _ [].
Qed.

Lemma startsWith_self (p t : jsstring) : startsWith (p ++ t) p = true.
Proof.
  induction p as [|x p IH]; [reflexivity|].
  simpl. now rewrite N.eqb_refl, IH.
Qed.

(** [includes] is substring containment. *)
Lemma includes_spec (s p : jsstring) :
  includes s p = true <-> exists a b, s = a ++ p ++ b.
Proof.
  split.
  - induction s as [|x s IH]; simpl.
    + rewrite orb_false_r. intros H. apply startsWith_app in H.
      exists [], (skipn (List.length p) []). exact H.
    + intros H. apply orb_true_iff in H. destruct H as [H|H].
      * apply startsWith_app in H. exists [], (skipn (List.length p) (x :: s)).
        exact H.
      * destruct (IH H) as (a & b & ->). exists (x :: a), b. reflexivity.
  - intros (a & b & ->). induction a as [|x a IH].
    + simpl app. destruct (p ++ b) eqn:E; simpl; rewrite <- E;
        now rewrite startsWith_self.
    + simpl. rewrite IH. apply orb_true_r.
Qed.

Lemma Matches_alts_inv (fl : flags) (l : list regex) (s s' : mstate) :
  l <> [] ->
  Matches fl (alts l) s s' -> exists a, In a l /\ Matches fl a s s'.
Proof.
  induction l as [|a l IH]; [congruence|]. intros _ M.
  destruct l as [|b l].
  - exists a. split; [now left | exact M].
  - change (alts (a :: b :: l)) with (Alt a (alts (b :: l))) in M.
    inversion M; subst.
    + exists a. split; [now left | assumption].
    + destruct IH as (c & Hc & Mc); [discriminate | assumption |].
      exists c. split; [now right | assumption].
Qed.

Lemma Matches_alts_intro (fl : flags) (l : list regex) (a : regex)
      (s s' : mstate) :
  In a l -> Matches fl a s s' -> Matches fl (alts l) s s'.
Proof.
  induction l as [|b l IH]; intros I M; [destruct I|].
  destruct l as [|c l].
  - destruct I as [<-|[]]. exact M.
  - change (alts (b :: c :: l)) with (Alt b (alts (c :: l))).
    destruct I as [<-|I]; [now apply M_AltL|]. apply M_AltR. now apply IH.
Qed.

(** A pattern without flags that is an alternation of words matches a text
    exactly when one of the words occurs in it. *)
Lemma test_words (ws : list jsstring) (text : jsstring) :
  ws <> [] ->
  test (words (map Str ws)) text = includesAny text ws.
Proof.
  intros NE. unfold test, exec, words, mk_plain.
  cbn [flag source global no_flags Nat.leb skipn].
  destruct (includesAny text ws) eqn:I.
  - unfold includesAny in I. apply existsb_exists in I.
    destruct I as (w & Hw & Hi). apply includes_spec in Hi.
    destruct Hi as (a & b & ->).
    destruct (@Accepts_Str no_flags w b (0 + List.length a) []) as (j & c & M).
    destruct (@search_complete no_flags (alts (map Str ws)) (w ++ b)
                               {| pos := j; rest := b; caps := c |} a 0)
      as [mt Hmt].
    { eapply Matches_alts_intro; [|exact M]. now apply in_map. }
    now rewrite Hmt.
  - destruct (search no_flags (alts (map Str ws)) 0 text) as [mt|] eqn:S;
      [|reflexivity].
    apply search_sound in S. destruct S as (pre & suf & s' & -> & _ & M & _).
    apply Matches_alts_inv in M; [|destruct ws; [congruence | discriminate]].
    destruct M as (r & Hr & M). apply in_map_iff in Hr.
    destruct Hr as (w & <- & Hw).
    apply (@Matches_Str no_flags eq_refl) in M. cbn [rest] in M.
    assert (T : includesAny (pre ++ suf) ws = true).
    { unfold includesAny. apply existsb_exists. exists w. split; [exact Hw|].
      apply includes_spec. exists pre, (rest s'). now rewrite M. }
    congruence.
Qed.

Lemma test_matches (r : regex) (text : jsstring) :
  test (mk_plain r) text = true
  <-> exists pre suf s',
      text = pre ++ suf
      /\ Matches no_flags r
                 {| pos := List.length pre; rest := suf; caps := [] |} s'.
Proof.
  unfold test, exec, mk_plain.
  cbn [flag source global no_flags Nat.leb skipn].
  split.
  - destruct (search no_flags r 0 text) as [mt|] eqn:S; [|discriminate].
    intros _. apply search_sound in S.
    destruct S as (pre & suf & s' & E & I & M & _).
    exists pre, suf, s'. split; [exact E|]. now rewrite I in M.
  - intros (pre & suf & s' & -> & M).
    destruct (@search_complete no_flags r suf s' pre 0 M) as [mt Hmt].
    now rewrite Hmt.
Qed.

(** ** The tables of the analyzer, read as substring tests *)

Lemma map_snd_injective (A : Type) (rules : list (A * jsstring)) (a b : A * jsstring) :
  NoDup (map snd rules) -> In a rules -> In b rules -> snd a = snd b -> a = b.
Proof.
  induction rules as [|r rules IH]; intros N Ia Ib E; [destruct Ia|].
  simpl in N. inversion N as [|? ? Nr Nrs]; subst.
  destruct Ia as [<-|Ia], Ib as [<-|Ib]; auto.
  - exfalso. apply Nr. rewrite E. now apply in_map.
  - exfalso. apply Nr. rewrite <- E. now apply in_map.
Qed.

Lemma push_matching_iff (rules : list (regexp * jsstring))
      (rule : regexp * jsstring) (fullText : jsstring) :
  NoDup (map snd rules) -> In rule rules ->
  (In (snd rule) (push_matching rules fullText)
   <-> test (fst rule) fullText = true).
Proof.
  intros N I. unfold push_matching. rewrite in_flat_map. split.
  - intros (r & Hr & Hin).
    destruct (test (fst r) fullText) eqn:T; [|destruct Hin].
    destruct Hin as [E|[]].
    now rewrite <- (map_snd_injective rules r rule N Hr I E).
  - intros T. exists rule. split; [exact I|]. rewrite T. now left.
Qed.

Lemma push_matching_filter (rules : list (regexp * jsstring))
      (fullText : jsstring) :
  push_matching rules fullText
  = map snd (List.filter (fun rule => test (fst rule) fullText) rules).
Proof.
  unfold push_matching. induction rules as [|r rules IH]; [reflexivity|].
  simpl. destruct (test (fst r) fullText); simpl; now rewrite IH.
Qed.

Lemma flat_map_select (A : Type) (P : A -> bool) (f : A -> list jsstring)
      (l : list A) :
  flat_map (fun e => if P e then f e else []) l = flat_map f (List.filter P l).
Proof.
  induction l as [|x l IH]; [reflexivity|].
  simpl. destruct (P x); simpl; now rewrite IH.
Qed.

Lemma NoDup_flat_map_filter (A : Type) (P : A -> bool)
      (f : A -> list jsstring) (l : list A) (u : list jsstring) :
  NoDup (flat_map f l ++ u) -> NoDup (flat_map f (List.filter P l) ++ u).
Proof.
  induction l as [|x l IH]; [auto|]. simpl. rewrite <- app_assoc.
  intros N.
  assert (Sub : forall y, In y (flat_map f (List.filter P l) ++ u) ->
                          In y (flat_map f l ++ u)).
  { intros y Hy. apply in_app_or in Hy. apply in_or_app.
    destruct Hy as [Hy|Hy]; [left | now right].
    apply in_flat_map in Hy. destruct Hy as (e & He & Hy).
    apply filter_In in He. apply in_flat_map. exists e. tauto. }
  pose proof (NoDup_app_remove_l _ _ N) as Nl.
  destruct (P x); [|now apply IH].
  simpl. rewrite <- app_assoc. apply NoDup_app.
  - exact (NoDup_app_remove_r _ _ N).
  - now apply IH.
  - intros y Hy Hin. apply Sub in Hin. revert y Hy Hin.
    clear - N. induction (f x) as [|z fx IHf]; [intros y []|].
    simpl in N. inversion N as [|? ? Nz Nfx]; subst.
    intros y [<-|Hy] Hin.
    + apply Nz. apply in_or_app. now right.
    + now apply (IHf Nfx y).
Qed.

Lemma filter_length_bound (A : Type) (P : A -> bool) (l : list A) :
  List.length (List.filter P l) <= List.length l.
Proof.
  induction l as [|x l IH]; [auto|]. simpl. destruct (P x); simpl; lia.
Qed.

Lemma flat_map_singleton (A : Type) (f : A -> jsstring) (l : list A) :
  flat_map (fun e => [f e]) l = map f l.
Proof. induction l as [|x l IH]; [reflexivity|]. simpl. now rewrite IH. Qed.

Lemma pushedTypes_NoDup (fullText : jsstring) : NoDup (pushedTypes fullText).
Proof.
  unfold pushedTypes. rewrite push_matching_filter.
  rewrite <- (flat_map_singleton snd).
  apply NoDup_flat_map_filter. rewrite flat_map_singleton.
  apply nodupb_NoDup. vm_compute. reflexivity.
Qed.

Lemma type_rule (ws : list jsstring) (t : jsstring) :
  In (words (map Str ws), t) typeMapping -> ws <> [] ->
  forall fullText labels,
    In t (determineTestTypes fullText labels)
    <-> includesAny fullText ws = true.
Proof.
  intros I NE fullText labels. unfold determineTestTypes.
  rewrite dedupe_In. unfold pushedTypes. rewrite in_app_iff.
  rewrite <- (test_words fullText NE).
  assert (N : NoDup (map snd typeMapping))
    by (apply nodupb_NoDup; vm_compute; reflexivity).
  rewrite <- (push_matching_iff typeMapping (words (map Str ws), t) fullText N I).
  cbn [snd]. split; [|tauto]. intros [H|H]; [exact H|].
  exfalso.
  assert (D : forall x, In x (map snd typeMapping) -> ~ In x baselineTypes).
  { intros x Hx Hb. apply arr_includes_In in Hx, Hb.
    revert Hx Hb. 
    assert (forallb (fun y => negb (arr_includes baselineTypes y))
                    (map snd typeMapping) = true) by (vm_compute; reflexivity).
    intros Hx Hb. apply arr_includes_In in Hx.
    rewrite forallb_forall in H0. specialize (H0 x Hx).
    rewrite Hb in H0. discriminate. }
  apply (D t); [|exact H]. change t with (snd (words (map Str ws), t)).
  now apply in_map.
Qed.

(** X3. [determineTestTypes] by substrings: each of the eight types is
    returned exactly when the text contains one of the words of its
    pattern, anywhere (inside longer words too); the two baseline types
    always come last, nothing is returned twice and the labels play no
    part. *)
Theorem determineTestTypes_by_words :
  forall (fullText : jsstring) (labels : list jsstring),
    (In (lit "Testing Unitario") (determineTestTypes fullText labels)
     <-> includesAny fullText [lit "unit"; lit "unitario"] = true)
    /\ (In (lit "Testing de Integración") (determineTestTypes fullText labels)
        <-> includesAny fullText [lit "integration"; lit "integración"] = true)
    /\ (In (lit "Testing de UI/UX") (determineTestTypes fullText labels)
        <-> includesAny fullText [lit "ui"; lit "interfaz"; lit "frontend"]
            = true)
    /\ (In (lit "Testing de API") (determineTestTypes fullText labels)
        <-> includesAny fullText [lit "api"; lit "service"; lit "backend"]
            = true)
    /\ (In (lit "Testing de Performance") (determineTestTypes fullText labels)
        <-> includesAny fullText [lit "performance"; lit "rendimiento"] = true)
    /\ (In (lit "Testing de Seguridad") (determineTestTypes fullText labels)
        <-> includesAny fullText [lit "security"; lit "seguridad"] = true)
    /\ (In (lit "Testing Mobile") (determineTestTypes fullText labels)
        <-> includesAny fullText [lit "mobile"; lit "móvil"] = true)
    /\ (In (lit "Testing de Accesibilidad") (determineTestTypes fullText labels)
        <-> includesAny fullText [lit "accessibility"; lit "accesibilidad"]
            = true)
    /\ exists matched,
        determineTestTypes fullText labels
        = matched ++ [lit "Testing Funcional"; lit "Testing de Regresión"]
        /\ List.length matched <= 8.
Proof.
  intros fullText labels.
  assert (R : forall n ws t,
             nth_error typeMapping n = Some (words (map Str ws), t) ->
             ws <> [] ->
             (In t (determineTestTypes fullText labels)
              <-> includesAny fullText ws = true)).
  { intros n ws t H NE. apply (@type_rule ws t); [|exact NE].
    exact (nth_error_In _ _ H). }
  split; [apply (R 0); [reflexivity | discriminate]|].
  split; [apply (R 1); [reflexivity | discriminate]|].
  split; [apply (R 2); [reflexivity | discriminate]|].
  split; [apply (R 3); [reflexivity | discriminate]|].
  split; [apply (R 4); [reflexivity | discriminate]|].
  split; [apply (R 5); [reflexivity | discriminate]|].
  split; [apply (R 6); [reflexivity | discriminate]|].
  split; [apply (R 7); [reflexivity | discriminate]|].
  exists (push_matching typeMapping fullText). split.
  - unfold determineTestTypes.
    rewrite (dedupe_NoDup_id (pushedTypes_NoDup fullText)). reflexivity.
  - rewrite push_matching_filter, length_map.
    apply (filter_length_bound _ typeMapping).
Qed.

Lemma risk_rule (toLowerCase : jsstring -> jsstring)
      (pattern : regexp) (risk : jsstring) (n : nat) :
  nth_error riskIndicators n = Some (pattern, risk) ->
  forall fullText labels,
    In risk (identifyRiskAreas toLowerCase fullText labels)
    <-> test pattern fullText = true.
Proof.
  intros H fullText labels. apply nth_error_In in H.
  unfold identifyRiskAreas. rewrite in_app_iff.
  assert (N : NoDup (map snd riskIndicators))
    by (apply nodupb_NoDup; vm_compute; reflexivity).
  pose proof (push_matching_iff riskIndicators (pattern, risk) fullText N H)
    as P.
  cbn [fst snd] in P. rewrite <- P.
  split; [|tauto]. intros [I|I]; [exact I|]. exfalso.
  destruct (hasCriticalLabel toLowerCase labels); [|destruct I].
  destruct I as [E|[]].
  apply highPriorityRisk_not_indicator. rewrite E.
  change risk with (snd (pattern, risk)). now apply in_map.
Qed.

Lemma Matches_third_party (s s' : mstate) :
  Matches no_flags (seqs [str "third"; Chr CAny; str "party"]) s s'
  -> exists c, isLineTerminator c = false
               /\ rest s = lit "third" ++ c :: lit "party" ++ rest s'.
Proof.
  cbn [seqs]. unfold str. intros M.
  apply Matches_Seq_inv in M. destruct M as (s1 & M1 & M).
  apply Matches_Seq_inv in M. destruct M as (s2 & M2 & M3).
  apply (@Matches_Str no_flags eq_refl) in M1, M3.
  apply Matches_Chr_inv in M2. destruct M2 as (c & R & C).
  cbn [cset_mem dotAll no_flags orb] in C. apply negb_true_iff in C.
  exists c. split; [exact C|]. now rewrite M1, R, M3.
Qed.

Lemma test_integration (fullText : jsstring) :
  test (words [str "integration"; str "integración";
               seqs [str "third"; Chr CAny; str "party"]]) fullText = true
  <-> includesAny fullText [lit "integration"; lit "integración"] = true
      \/ exists c, isLineTerminator c = false
                   /\ includes fullText (lit "third" ++ c :: lit "party") = true.
Proof.
  unfold words. rewrite test_matches. split.
  - intros (pre & suf & s' & -> & M).
    apply Matches_alts_inv in M; [|discriminate].
    destruct M as (a & [<-|[<-|[<-|[]]]] & M).
    + left. unfold str in M. apply (@Matches_Str no_flags eq_refl) in M.
      cbn [rest] in M. unfold includesAny. cbn [existsb].
      apply orb_true_iff. left. apply includes_spec.
      exists pre, (rest s'). now rewrite M.
    + left. unfold str in M. apply (@Matches_Str no_flags eq_refl) in M.
      cbn [rest] in M. unfold includesAny. cbn [existsb].
      apply orb_true_iff. right. apply orb_true_iff. left.
      apply includes_spec. exists pre, (rest s'). now rewrite M.
    + right. apply Matches_third_party in M. destruct M as (c & C & R).
      cbn [rest] in R. exists c. split; [exact C|]. apply includes_spec.
      exists pre, (rest s'). rewrite R, <- !app_assoc. reflexivity.
  - intros [H|(c & C & H)].
    + unfold includesAny in H. apply existsb_exists in H.
      destruct H as (w & Hw & Hi). apply includes_spec in Hi.
      destruct Hi as (a & b & ->).
      destruct (@Accepts_Str no_flags w b (List.length a) []) as (j & c & M).
      exists a, (w ++ b), {| pos := j; rest := b; caps := c |}.
      split; [reflexivity|].
      destruct Hw as [<-|[<-|[]]].
      * eapply Matches_alts_intro; [|exact M]. now left.
      * eapply Matches_alts_intro; [|exact M]. right. now left.
    + apply includes_spec in H. destruct H as (a & b & ->).
      assert (A : Accepts no_flags (seqs [str "third"; Chr CAny; str "party"])
                          ((lit "third" ++ c :: lit "party") ++ b) b).
      { cbn [seqs]. unfold str. rewrite <- app_assoc.
        eapply Accepts_Seq; [apply Accepts_Str|].
        eapply Accepts_Seq; [|apply Accepts_Str].
        apply Accepts_Chr. cbn [cset_mem dotAll no_flags orb]. now rewrite C. }
      destruct (A (List.length a) []) as (j & c' & M).
      exists a, ((lit "third" ++ c :: lit "party") ++ b),
             {| pos := j; rest := b; caps := c' |}.
      split; [reflexivity|].
      eapply Matches_alts_intro; [|exact M]. right. right. now left.
Qed.

Lemma identifyRiskAreas_NoDup (toLowerCase : jsstring -> jsstring)
      (fullText : jsstring) (labels : list jsstring) :
  NoDup (identifyRiskAreas toLowerCase fullText labels).
Proof.
  unfold identifyRiskAreas. rewrite push_matching_filter.
  rewrite <- (flat_map_singleton snd).
  assert (N : NoDup (flat_map (fun e : regexp * jsstring => [snd e])
                              riskIndicators ++ [highPriorityRisk])).
  { rewrite flat_map_singleton. apply nodupb_NoDup. vm_compute. reflexivity. }
  destruct (hasCriticalLabel toLowerCase labels).
  - now apply NoDup_flat_map_filter.
  - rewrite app_nil_r. apply (NoDup_app_remove_r _ [highPriorityRisk]).
    now apply NoDup_flat_map_filter.
Qed.

(** X4. [identifyRiskAreas] by substrings: each of the six risk messages
    is returned exactly when the text contains one of the words of its
    pattern, anywhere (for the integration risk also [third] and [party]
    with any one character other than a line terminator between them); no
    message is returned twice and at most seven are returned. *)
Theorem identifyRiskAreas_by_words :
  forall (toLowerCase : jsstring -> jsstring)
         (fullText : jsstring) (labels : list jsstring),
    (In (lit "Seguridad - requiere testing exhaustivo")
        (identifyRiskAreas toLowerCase fullText labels)
     <-> includesAny fullText [lit "security"; lit "seguridad"; lit "auth";
                               lit "password"] = true)
    /\ (In (lit "Pagos - crítico para el negocio")
           (identifyRiskAreas toLowerCase fullText labels)
        <-> includesAny fullText [lit "payment"; lit "pago"; lit "billing";
                                  lit "facturación"] = true)
    /\ (In (lit "Integridad de datos - riesgo de pérdida")
           (identifyRiskAreas toLowerCase fullText labels)
        <-> includesAny fullText [lit "data"; lit "datos"; lit "database"]
            = true)
    /\ (In (lit "Migración - riesgo de downtime")
           (identifyRiskAreas toLowerCase fullText labels)
        <-> includesAny fullText [lit "migration"; lit "migración"] = true)
    /\ (In (lit "Integraciones externas - dependencias")
           (identifyRiskAreas toLowerCase fullText labels)
        <-> includesAny fullText [lit "integration"; lit "integración"] = true
            \/ exists c, isLineTerminator c = false
                         /\ includes fullText (lit "third" ++ c :: lit "party")
                            = true)
    /\ (In (lit "Performance - impacto en UX")
           (identifyRiskAreas toLowerCase fullText labels)
        <-> includesAny fullText [lit "performance"; lit "rendimiento"] = true)
    /\ NoDup (identifyRiskAreas toLowerCase fullText labels)
    /\ List.length (identifyRiskAreas toLowerCase fullText labels) <= 7.
Proof.
  intros toLowerCase fullText labels.
  assert (R : forall n ws t,
             nth_error riskIndicators n = Some (words (map Str ws), t) ->
             ws <> [] ->
             (In t (identifyRiskAreas toLowerCase fullText labels)
              <-> includesAny fullText ws = true)).
  { intros n ws t H NE. rewrite <- (test_words fullText NE).
    exact (@risk_rule toLowerCase _ _ n H fullText labels). }
  split; [apply (R 0); [reflexivity | discriminate]|].
  split; [apply (R 1); [reflexivity | discriminate]|].
  split; [apply (R 2); [reflexivity | discriminate]|].
  split; [apply (R 3); [reflexivity | discriminate]|].
  split.
  { rewrite <- test_integration.
    assert (H4 : nth_error riskIndicators 4
                 = Some (words [str "integration"; str "integración";
                                seqs [str "third"; Chr CAny; str "party"]],
                         lit "Integraciones externas - dependencias"))
      by reflexivity.
    exact (@risk_rule toLowerCase _ _ 4 H4 fullText labels). }
  split; [apply (R 5); [reflexivity | discriminate]|].
  split; [apply identifyRiskAreas_NoDup|].
  unfold identifyRiskAreas. rewrite length_app, push_matching_filter, length_map.
  match goal with
  | |- List.length (List.filter ?P ?l) + _ <= _ =>
    pose proof (filter_length_bound P l) as B;
      generalize dependent (List.length (List.filter P l))
  end.
  intros k B. assert (L6 : List.length riskIndicators = 6) by reflexivity.
  rewrite L6 in B. clear L6.
  destruct (hasCriticalLabel toLowerCase labels); cbn [List.length]; lia.
Qed.

Lemma pushedSuggestions_select (fullText : jsstring) :
  pushedSuggestions fullText
  = flat_map snd (List.filter (fun entry => includesAny fullText (fst entry))
                              testingSuggestionsTable)
    ++ universalSuggestions.
Proof.
  unfold pushedSuggestions. f_equal.
  exact (flat_map_select (fun entry => includesAny fullText (fst entry)) snd
                         testingSuggestionsTable).
Qed.

Lemma pushedSuggestions_NoDup (fullText : jsstring) :
  NoDup (pushedSuggestions fullText).
Proof.
  rewrite pushedSuggestions_select. apply NoDup_flat_map_filter.
  apply nodupb_NoDup. vm_compute. reflexivity.
Qed.

Lemma flat_map_blocks (A : Type) (f : A -> list jsstring) (k : nat)
      (l : list A) :
  Forall (fun e => List.length (f e) = k) l ->
  List.length (flat_map f l) = k * List.length l.
Proof.
  induction 1 as [|x l Hx Hl IH]; simpl; [lia|].
  rewrite length_app, Hx, IH. lia.
Qed.

Lemma NoDup_app_disjoint (l1 l2 : list jsstring) (x : jsstring) :
  NoDup (l1 ++ l2) -> In x l1 -> In x l2 -> False.
Proof.
  induction l1 as [|y l1 IH]; [intros _ []|].
  simpl. intros N [->|H1] H2; inversion N as [|? ? Ny Nl]; subst.
  - apply Ny, in_or_app. now right.
  - now apply IH.
Qed.

Lemma flat_map_owner (A : Type) (f : A -> list jsstring) (l : list A)
      (e e' : A) (t : jsstring) :
  NoDup (flat_map f l) -> In e l -> In e' l -> In t (f e) -> In t (f e') ->
  e = e'.
Proof.
  induction l as [|x l IH]; [intros _ []|].
  simpl. intros N [->|He] [->|He'] Ht Ht'; auto.
  - exfalso. apply (NoDup_app_disjoint _ _ t N Ht).
    apply in_flat_map. now exists e'.
  - exfalso. apply (NoDup_app_disjoint _ _ t N Ht').
    apply in_flat_map. now exists e.
  - apply IH; auto. exact (NoDup_app_remove_l _ _ N).
Qed.

(** X5. [generateTestingSuggestions] by keyword groups: the list is the
    tests of the groups one of whose keywords occurs in the text, in the
    order of the table, followed by the four universal suggestions; the
    final [Set] removes nothing, so the list has 4 entries for each such
    group and 4 more; a test of a group is returned exactly when a keyword
    of the group occurs in the text. *)
Theorem generateTestingSuggestions_groups :
  forall (issueData : IssueData) (fullText : jsstring),
    generateTestingSuggestions issueData fullText
    = flat_map snd (List.filter (fun entry => includesAny fullText (fst entry))
                                testingSuggestionsTable)
      ++ [lit "Verificar que el cambio no rompe funcionalidad existente";
          lit "Probar en diferentes navegadores/dispositivos";
          lit "Validar performance bajo carga normal";
          lit "Revisar logs de errores durante las pruebas"]
    /\ List.length (generateTestingSuggestions issueData fullText)
       = 4 * List.length
               (List.filter (fun entry => includesAny fullText (fst entry))
                            testingSuggestionsTable) + 4
    /\ forall entry t,
        In entry testingSuggestionsTable -> In t (snd entry) ->
        (In t (generateTestingSuggestions issueData fullText)
         <-> includesAny fullText (fst entry) = true).
Proof.
  intros issueData fullText.
  assert (E : generateTestingSuggestions issueData fullText
              = flat_map snd
                         (List.filter
                            (fun entry => includesAny fullText (fst entry))
                            testingSuggestionsTable)
                ++ universalSuggestions).
  { unfold generateTestingSuggestions.
    rewrite (dedupe_NoDup_id (pushedSuggestions_NoDup fullText)).
    apply pushedSuggestions_select. }
  refine (conj E (conj _ _)).
  - rewrite E, length_app.
    rewrite (@flat_map_blocks _ snd 4).
    + reflexivity.
    + apply Forall_forall. intros e He. apply filter_In in He.
      destruct He as [He _]. revert e He. apply Forall_forall.
      repeat constructor.
  - intros entry t He Ht.
    assert (N : NoDup (flat_map snd testingSuggestionsTable
                       ++ universalSuggestions))
      by (apply nodupb_NoDup; vm_compute; reflexivity).
    rewrite E, in_app_iff, in_flat_map. split.
    + intros [(e & Hf & Hin)|Hu].
      * apply filter_In in Hf. destruct Hf as [Hf Hk].
        rewrite <- (flat_map_owner snd testingSuggestionsTable e entry t
                                   (NoDup_app_remove_r _ _ N) Hf He Hin Ht).
        exact Hk.
      * exfalso. apply (NoDup_app_disjoint _ _ t N); [|exact Hu].
        apply in_flat_map. exists entry. split; assumption.
    + intros Hk. left. exists entry. split; [|exact Ht].
      apply filter_In. split; assumption.
Qed.

Lemma generateTestingSuggestions_groups_witness :
  In (nth 2 testingSuggestionsTable ([], [])) testingSuggestionsTable
  /\ In (lit "Verificar manejo de errores HTTP")
        (snd (nth 2 testingSuggestionsTable ([], [])))
  /\ (In (lit "Verificar manejo de errores HTTP")
         (generateTestingSuggestions (issueOf (lit "t") [] [])
                                     (lit "nuevo endpoint de pagos"))
      <-> includesAny (lit "nuevo endpoint de pagos")
                      (fst (nth 2 testingSuggestionsTable ([], []))) = true).
Proof.
  assert (H1 : In (nth 2 testingSuggestionsTable ([], []))
                  testingSuggestionsTable)
    by (apply nth_In; vm_compute; lia).
  assert (H2 : In (lit "Verificar manejo de errores HTTP")
                  (snd (nth 2 testingSuggestionsTable ([], []))))
    by (apply arr_includes_In; vm_compute; reflexivity).
  refine (conj H1 (conj H2 _)).
  exact (proj2 (proj2 (generateTestingSuggestions_groups
                         (issueOf (lit "t") [] [])
                         (lit "nuevo endpoint de pagos")))
               _ _ H1 H2).
Defined.

Lemma generateTestingSuggestions_select (issueData : IssueData)
      (fullText : jsstring) :
  generateTestingSuggestions issueData fullText
  = flat_map snd (List.filter (fun entry => includesAny fullText (fst entry))
                              testingSuggestionsTable)
    ++ universalSuggestions.
Proof.
  unfold generateTestingSuggestions.
  rewrite (dedupe_NoDup_id (pushedSuggestions_NoDup fullText)).
  apply pushedSuggestions_select.
Qed.

Lemma determineTestTypes_select (fullText : jsstring) (labels : list jsstring) :
  determineTestTypes fullText labels
  = push_matching typeMapping fullText ++ baselineTypes.
Proof.
  unfold determineTestTypes.
  rewrite (dedupe_NoDup_id (pushedTypes_NoDup fullText)). reflexivity.
Qed.

Lemma identifyRiskAreas_length (toLowerCase : jsstring -> jsstring)
      (fullText : jsstring) (labels : list jsstring) :
  List.length (identifyRiskAreas toLowerCase fullText labels) <= 7.
Proof.
  unfold identifyRiskAreas. rewrite length_app, push_matching_filter, length_map.
  match goal with
  | |- List.length (List.filter ?P ?l) + _ <= _ =>
    pose proof (filter_length_bound P l) as B;
      generalize dependent (List.length (List.filter P l))
  end.
  intros k B. assert (L6 : List.length riskIndicators = 6) by reflexivity.
  rewrite L6 in B. clear L6.
  destruct (hasCriticalLabel toLowerCase labels); cbn [List.length]; lia.
Qed.

(** X6. For every issue and whatever [toLowerCase] does, [analyzeIssueForQA]
    returns (it neither raises nor loops), and the analysis keeps the
    invariants of the data model: the requirements are not empty, every
    acceptance criterion is longer than 5 code units, the suggestions end
    with the four universal ones, the test types end with the two baseline
    ones, and the risk areas are at most seven and pairwise different. *)
Theorem analyzeIssueForQA_invariants :
  forall (toLowerCase : jsstring -> jsstring) (issueData : IssueData),
  exists analysis,
    analyzeIssueForQA toLowerCase issueData = Ok analysis
    /\ requirements analysis <> []
    /\ (forall x, In x (acceptanceCriteria analysis) -> 5 < List.length x)
    /\ (exists groups,
           testingSuggestions analysis
           = groups
             ++ [lit "Verificar que el cambio no rompe funcionalidad existente";
                 lit "Probar en diferentes navegadores/dispositivos";
                 lit "Validar performance bajo carga normal";
                 lit "Revisar logs de errores durante las pruebas"])
    /\ (exists matched,
           testTypes analysis
           = matched ++ [lit "Testing Funcional"; lit "Testing de Regresión"])
    /\ NoDup (riskAreas analysis)
    /\ List.length (riskAreas analysis) <= 7.
Proof.
  intros toLowerCase issueData.
  destruct (@scan_patterns_total 10 reqPatterns (description issueData)
                                 reqPatterns_safe [])
    as (reqs & R & _).
  destruct (@scan_patterns_total 5 criteriaPatterns (description issueData)
                                 criteriaPatterns_safe [])
    as (crit & C & Long).
  cbn [app] in R, C.
  unfold analyzeIssueForQA, extractRequirements, extractAcceptanceCriteria.
  rewrite R, C. cbn [bind].
  eexists. split; [reflexivity|].
  cbn [requirements acceptanceCriteria testingSuggestions riskAreas testTypes].
  refine (conj _ (conj _ (conj _ (conj _ (conj _ _))))).
  - destruct reqs as [|x reqs]; cbn [List.length Nat.eqb app]; discriminate.
  - intros x Hx. rewrite Forall_forall in Long. exact (Long x Hx).
  - eexists. apply generateTestingSuggestions_select.
  - eexists. apply determineTestTypes_select.
  - apply identifyRiskAreas_NoDup.
  - apply identifyRiskAreas_length.
Qed.

(** ** Running the matcher on an input of known form *)

Section MatcherRuns.

Variable fl : flags.

Lemma m_Seq (a b : regex) (k : cont) (s : mstate) :
  m fl (Seq a b) k s = m fl a (m fl b k) s.
Proof. reflexivity. Qed.

Lemma m_Group (n : nat) (a : regex) (k : cont) (s : mstate) :
  m fl (Group n a) k s
  = m fl a (fun s' => k (set_cap n (firstn (pos s' - pos s) (rest s)) s')) s.
Proof. reflexivity. Qed.

Lemma m_Chr_hit (a : cset) (k : cont) (i : nat) (x : N) (t : jsstring)
      (c : list (nat * jsstring)) :
  cset_mem fl a x = true ->
  m fl (Chr a) k {| pos := i; rest := x :: t; caps := c |}
  = k {| pos := S i; rest := t; caps := c |}.
Proof. intros H. cbn [m rest pos caps]. now rewrite H. Qed.

Lemma m_Chr_miss (a : cset) (k : cont) (i : nat) (t : jsstring)
      (c : list (nat * jsstring)) :
  stops_at fl a t ->
  m fl (Chr a) k {| pos := i; rest := t; caps := c |} = None.
Proof.
  intros H. cbn [m rest]. destruct t as [|x t]; [reflexivity|].
  simpl in H. now rewrite H.
Qed.

Lemma m_Str (l : jsstring) :
  forall (k : cont) (i : nat) (t : jsstring) (c : list (nat * jsstring)),
    m fl (Str l) k {| pos := i; rest := l ++ t; caps := c |}
    = k {| pos := i + List.length l; rest := t; caps := c |}.
Proof.
  induction l as [|x l IH]; intros k i t c.
  - cbn [Str m app List.length]. now rewrite Nat.add_0_r.
  - destruct l as [|y l].
    + cbn [Str app List.length]. rewrite m_Chr_hit by apply cset_mem_CLit_self.
      now rewrite Nat.add_1_r.
    + change (Str (x :: y :: l)) with (Seq (Chr (CLit x)) (Str (y :: l))).
      rewrite m_Seq. cbn [app].
      rewrite m_Chr_hit by apply cset_mem_CLit_self.
      change (y :: l ++ t) with ((y :: l) ++ t). rewrite IH.
      cbn [List.length]. f_equal. f_equal. lia.
Qed.

Lemma clear_none (i : nat) (u : jsstring) (c : list (nat * jsstring)) :
  clear_caps [] {| pos := i; rest := u; caps := c |}
  = {| pos := i; rest := u; caps := c |}.
Proof.
  unfold clear_caps. cbn [pos rest caps]. f_equal.
  induction c as [|kv c IH]; [reflexivity|]. simpl. f_equal. exact IH.
Qed.

(** A greedy repetition of a character class takes the whole run of
    characters of the class when what follows the run is accepted. *)
Lemma star_loop_greedy_run (a : cset) (k : cont) (t : jsstring)
      (c : list (nat * jsstring)) (x : mstate) (w : jsstring) :
  Forall (fun y => cset_mem fl a y = true) w ->
  stops_at fl a t ->
  forall fuel i,
    List.length w < fuel ->
    k {| pos := i + List.length w; rest := t; caps := c |} = Some x ->
    star_loop (m fl (Chr a)) true [] fuel k
              {| pos := i; rest := w ++ t; caps := c |} = Some x.
Proof.
  intros F St. induction F as [|y w Hy Hw IH]; intros fuel i Hf K.
  - destruct fuel as [|fuel]; [lia|]. cbn [star_loop app].
    rewrite clear_none, m_Chr_miss by exact St.
    cbn [List.length] in K. now rewrite Nat.add_0_r in K.
  - destruct fuel as [|fuel]; [cbn [List.length] in Hf; lia|].
    cbn [star_loop app]. rewrite clear_none, m_Chr_hit by exact Hy.
    cbn [pos]. replace (Nat.eqb (S i) i) with false
      by (symmetry; apply Nat.eqb_neq; lia).
    rewrite (IH fuel (S i)); [reflexivity | cbn [List.length] in Hf; lia |].
    cbn [List.length] in K.
    now replace (S i + List.length w) with (i + S (List.length w)) by lia.
Qed.

Lemma m_Plus_greedy_run (a : cset) (k : cont) (t : jsstring)
      (c : list (nat * jsstring)) (x : mstate) (y : N) (w : jsstring) (i : nat) :
  Forall (fun z => cset_mem fl a z = true) (y :: w) ->
  stops_at fl a t ->
  k {| pos := i + List.length (y :: w); rest := t; caps := c |} = Some x ->
  m fl (Plus true (Chr a)) k {| pos := i; rest := (y :: w) ++ t; caps := c |}
  = Some x.
Proof.
  intros F St K. inversion F as [|? ? Hy Hw]; subst.
  unfold Plus. rewrite m_Seq. cbn [app]. rewrite m_Chr_hit by exact Hy.
  cbn [m groups rest]. apply star_loop_greedy_run; auto.
  - rewrite length_app. lia.
  - cbn [List.length] in K.
    now replace (S i + List.length w) with (i + S (List.length w)) by lia.
Qed.

Lemma m_Opt_hit (a : cset) (k : cont) (i : nat) (y : N) (t : jsstring)
      (c : list (nat * jsstring)) (x : mstate) :
  cset_mem fl a y = true ->
  k {| pos := S i; rest := t; caps := c |} = Some x ->
  m fl (Opt (Chr a)) k {| pos := i; rest := y :: t; caps := c |} = Some x.
Proof.
  intros H K. unfold Opt. cbn [m rest pos caps]. now rewrite H, K.
Qed.

Lemma m_Opt_miss (a : cset) (k : cont) (i : nat) (t : jsstring)
      (c : list (nat * jsstring)) :
  stops_at fl a t ->
  m fl (Opt (Chr a)) k {| pos := i; rest := t; caps := c |}
  = k {| pos := i; rest := t; caps := c |}.
Proof.
  intros H. unfold Opt.
  change (m fl (Alt (Chr a) Empty) k {| pos := i; rest := t; caps := c |})
    with (match m fl (Chr a) k {| pos := i; rest := t; caps := c |} with
          | Some z => Some z
          | None => k {| pos := i; rest := t; caps := c |}
          end).
  now rewrite m_Chr_miss.
Qed.

Lemma search_hit (r : regex) (i : nat) (input : jsstring) (s' : mstate) :
  m fl r Some {| pos := i; rest := input; caps := [] |} = Some s' ->
  search fl r i input
  = Some {| index := i; endIndex := pos s'; captures := caps s' |}.
Proof. intros H. destruct input; cbn [search]; now rewrite H. Qed.

End MatcherRuns.

(** ** The GitHub issue link: what is parsed is what was written *)

Lemma m_Bol_start (fl : flags) (k : cont) (u : jsstring)
      (c : list (nat * jsstring)) :
  m fl Bol k {| pos := 0; rest := u; caps := c |}
  = k {| pos := 0; rest := u; caps := c |}.
Proof. reflexivity. Qed.

Lemma firstn_run (i : nat) (w t : jsstring) :
  firstn (i + List.length w - i) (w ++ t) = w.
Proof.
  replace (i + List.length w - i) with (List.length w + 0) by lia.
  rewrite firstn_app_2. simpl. apply app_nil_r.
Qed.

Lemma isSegment_run (s : jsstring) :
  isSegment s = true ->
  exists c w, s = c :: w
              /\ Forall (fun y => cset_mem no_flags notSlash y = true) (c :: w).
Proof.
  unfold isSegment. intros H. apply andb_true_iff in H. destruct H as [NE F].
  destruct s as [|c w]; [discriminate|]. exists c, w. split; [reflexivity|].
  apply Forall_forall. intros y Hy. rewrite forallb_forall in F.
  apply notSlash_intro, negb_true_iff, F, Hy.
Qed.

Lemma isNumber_run (s : jsstring) :
  isNumber s = true ->
  exists c w, s = c :: w
              /\ Forall (fun y => cset_mem no_flags CDigit y = true) (c :: w).
Proof.
  unfold isNumber. intros H. apply andb_true_iff in H. destruct H as [NE F].
  destruct s as [|c w]; [discriminate|]. exists c, w. split; [reflexivity|].
  apply Forall_forall. intros y Hy. rewrite forallb_forall in F.
  exact (F y Hy).
Qed.

Lemma endsRun_digit (rest : jsstring) :
  endsRun isDigit rest = true -> stops_at no_flags CDigit rest.
Proof.
  destruct rest as [|c t]; [constructor|]. simpl.
  intros H. now apply negb_true_iff in H.
Qed.

Lemma slash_stops (t : jsstring) :
  stops_at no_flags notSlash (0x2F%N :: t).
Proof. vm_compute. reflexivity. Qed.

(** [parseInt] is exact on the digits of a number below 2^53, and rounds
    above. *)
Lemma parseInt10_exact (ds : jsstring) :
  (digitsValue ds < 2 ^ 53)%N -> parseInt10 ds = Finite (digitsValue ds).
Proof.
  intros H. unfold parseInt10, toDouble.
  apply N.ltb_lt in H. now rewrite H.
Qed.

Example parseInt10_rounds :
  parseInt10 (lit "9007199254740993") = Finite 9007199254740992
  /\ parseInt10 (lit "9007199254740995") = Finite 9007199254740996
  /\ parseInt10 (lit "0042") = Finite 42.
Proof. repeat split; vm_compute; reflexivity. Qed.

(** X7. For every owner and repository name without [/], every run of
    decimal digits and every rest that does not go on with a digit, the
    link written from them, with either scheme, parses back to the owner,
    the repository and the number that [parseInt] reads in the digits:
    the double nearest to the number written, which is that number
    itself when it is below 2^53. *)
Theorem parseGitHubIssueUrl_round_trip :
  forall (secure : bool) (o r ds after : jsstring),
    isSegment o = true -> isSegment r = true -> isNumber ds = true ->
    endsRun isDigit after = true ->
    parseGitHubIssueUrl
      (scheme secure ++ lit "://github.com/" ++ o ++ lit "/" ++ r
       ++ lit "/issues/" ++ ds ++ after)
    = Ok {| owner := o; repo := r; issueNumber := toDouble (digitsValue ds) |}
    /\ ((digitsValue ds < 2 ^ 53)%N ->
        toDouble (digitsValue ds) = Finite (digitsValue ds)).
Proof.
  intros secure o r ds after Ho Hr Hd He.
  destruct (isSegment_run o Ho) as (o1 & ow & -> & Fo).
  destruct (isSegment_run r Hr) as (r1 & rw & -> & Fr).
  destruct (isNumber_run ds Hd) as (d1 & dw & -> & Fd).
  apply endsRun_digit in He.
  assert (M : m no_flags (source issueUrlPattern) Some
                {| pos := 0;
                   rest := scheme secure ++ lit "://github.com/" ++ (o1 :: ow)
                           ++ lit "/" ++ (r1 :: rw) ++ lit "/issues/"
                           ++ (d1 :: dw) ++ after;
                   caps := [] |}
              = Some {| pos := List.length (scheme secure) + 14
                               + List.length (o1 :: ow) + 1
                               + List.length (r1 :: rw) + 8
                               + List.length (d1 :: dw);
                        rest := after;
                        caps := [(3, d1 :: dw); (2, r1 :: rw); (1, o1 :: ow)] |}).
  { unfold issueUrlPattern. cbn [source seqs]. unfold str.
    rewrite m_Seq, m_Bol_start.
    assert (Tail : forall i,
               m no_flags
                 (Seq (Str (lit "://github.com/"))
                    (Seq (Group 1 (Plus true (Chr notSlash)))
                       (Seq (Chr (chr "/"))
                          (Seq (Group 2 (Plus true (Chr notSlash)))
                             (Seq (Str (lit "/issues/"))
                                (Group 3 (Plus true (Chr CDigit))))))))
                 Some
                 {| pos := i;
                    rest := lit "://github.com/" ++ (o1 :: ow) ++ lit "/"
                            ++ (r1 :: rw) ++ lit "/issues/" ++ (d1 :: dw) ++ after;
                    caps := [] |}
               = Some {| pos := i + 14 + List.length (o1 :: ow) + 1
                                + List.length (r1 :: rw) + 8
                                + List.length (d1 :: dw);
                         rest := after;
                         caps := [(3, d1 :: dw); (2, r1 :: rw); (1, o1 :: ow)] |}).
    { intros i. rewrite m_Seq, m_Str, m_Seq, m_Group.
      change (lit "/" ++ (r1 :: rw) ++ lit "/issues/" ++ (d1 :: dw) ++ after)
        with (0x2F%N :: (r1 :: rw) ++ lit "/issues/" ++ (d1 :: dw) ++ after).
      apply m_Plus_greedy_run; [exact Fo | apply slash_stops |].
      unfold set_cap; cbn [pos rest caps]. rewrite firstn_run.
      rewrite m_Seq, m_Chr_hit by reflexivity.
      rewrite m_Seq, m_Group.
      assert (E8 : forall x, lit "/issues/" ++ x = 0x2F%N :: lit "issues/" ++ x)
        by (intros x; vm_compute; reflexivity).
      rewrite E8.
      apply m_Plus_greedy_run; [exact Fr | apply slash_stops |].
      unfold set_cap; cbn [pos rest caps]. rewrite firstn_run, <- E8.
      rewrite m_Seq, m_Str, m_Group.
      apply m_Plus_greedy_run; [exact Fd | exact He |].
      unfold set_cap; cbn [pos rest caps]. rewrite firstn_run.
      f_equal. f_equal.
      change (List.length (lit "://github.com/")) with 14.
      change (List.length (lit "/issues/")) with 8. lia. }
    destruct secure; unfold scheme.
    - replace (lit "https") with (lit "http" ++ [hd 0%N (lit "s")])
        by (vm_compute; reflexivity).
      rewrite <- !app_assoc. rewrite m_Seq, m_Str. cbn [app].
      rewrite m_Seq. apply m_Opt_hit; [apply cset_mem_CLit_self|].
      rewrite Tail. reflexivity.
    - rewrite m_Seq, m_Str, m_Seq, m_Opt_miss by (vm_compute; reflexivity).
      rewrite Tail. reflexivity. }
  unfold parseGitHubIssueUrl, str_match, exec.
  cbn [flag issueUrlPattern global no_flags Nat.leb skipn].
  rewrite (search_hit _ _ _ _ M).
  split; [reflexivity | exact (parseInt10_exact (d1 :: dw))].
Qed.

(** An issue number above 2^53 is read as the nearest double. *)
Lemma parseGitHubIssueUrl_round_trip_witness :
  parseGitHubIssueUrl
    (scheme false ++ lit "://github.com/" ++ lit "octo" ++ lit "/"
     ++ lit "hello-world" ++ lit "/issues/" ++ lit "9007199254740993"
     ++ lit "#issuecomment-1")
  = Ok {| owner := lit "octo"; repo := lit "hello-world";
          issueNumber := 9007199254740992%N |}.
Proof.
  rewrite (proj1 (parseGitHubIssueUrl_round_trip false (lit "octo")
                    (lit "hello-world") (lit "9007199254740993")
                    (lit "#issuecomment-1") eq_refl eq_refl eq_refl eq_refl)).
  vm_compute. reflexivity.
Defined.

(** ** Links: what a successful parse says about the link *)

Section Anatomy.

Variable fl : flags.

Lemma clear_none_state (s : mstate) : clear_caps [] s = s.
Proof. destruct s as [i u c]. apply clear_none. Qed.

Lemma Matches_flat_caps (r : regex) (s s' : mstate) :
  Matches fl r s s' -> groups r = [] -> caps s' = caps s.
Proof.
  induction 1 as [s|a c t s R C|a b s1 s2 s3 _ IH1 _ IH2|a b s s' _ IH
                  |a b s s' _ IH|g a s|g a s s1 s2 _ IH1 N _ IH2
                  |n a s s' _ IH|s P|s R]; cbn [groups]; intros G;
    try reflexivity.
  - apply app_eq_nil in G. destruct G as [G1 G2].
    rewrite IH2, IH1 by assumption. reflexivity.
  - apply app_eq_nil in G. destruct G as [G1 G2]. auto.
  - apply app_eq_nil in G. destruct G as [G1 G2]. auto.
  - rewrite IH2, IH1 by assumption. rewrite G. now rewrite clear_none_state.
  - discriminate.
Qed.

(** An expression without groups moves the matcher over the word it
    takes and leaves the captures alone. *)
Lemma flat_step (r : regex) (i : nat) (u : jsstring)
      (c : list (nat * jsstring)) (s' : mstate) :
  groups r = [] ->
  Matches fl r {| pos := i; rest := u; caps := c |} s' ->
  exists w t, u = w ++ t
              /\ s' = {| pos := i + List.length w; rest := t; caps := c |}
              /\ Takes fl r w.
Proof.
  intros G M.
  destruct (Matches_consumes M) as (w & R & P).
  pose proof (Matches_flat_caps M G) as C. cbn [pos rest caps] in *.
  exists w, (rest s'). split; [exact R|]. split.
  - destruct s' as [j t c']. cbn [pos rest caps] in *. now subst.
  - exists {| pos := i; rest := u; caps := c |}, s'. split; assumption.
Qed.

(** A group around such an expression records the word taken. *)
Lemma group_step (n : nat) (a : regex) (i : nat) (u : jsstring)
      (c : list (nat * jsstring)) (s' : mstate) :
  groups a = [] ->
  Matches fl (Group n a) {| pos := i; rest := u; caps := c |} s' ->
  exists w t, u = w ++ t
              /\ s' = {| pos := i + List.length w; rest := t;
                         caps := (n, w) :: c |}
              /\ Takes fl a w.
Proof.
  intros G M. inversion M as [| | | | | | |? ? ? s1 M1| |]; subst.
  destruct (flat_step G M1) as (w & t & -> & -> & T).
  exists w, t. split; [reflexivity|]. split; [|exact T].
  unfold set_cap. cbn [pos rest caps]. now rewrite firstn_run.
Qed.

Lemma groups_Str (l : jsstring) : groups (Str l) = [].
Proof.
  induction l as [|x l IH]; [reflexivity|].
  destruct l as [|y l]; [reflexivity|].
  change (Str (x :: y :: l)) with (Seq (Chr (CLit x)) (Str (y :: l))).
  cbn [groups app]. exact IH.
Qed.

Lemma Takes_Plus_Chr (g : bool) (a : cset) (w : jsstring) :
  Takes fl (Plus g (Chr a)) w ->
  w <> [] /\ Forall (fun c => cset_mem fl a c = true) w.
Proof.
  intros (s & s' & M & R). apply Matches_Plus_Chr in M.
  destruct M as (c & w' & R' & F). rewrite R in R'.
  change (c :: w' ++ rest s') with ((c :: w') ++ rest s') in R'.
  apply app_inv_tail in R'. subst w. split; [discriminate | exact F].
Qed.

Lemma Matches_AtMost_Chr (a : cset) (n : nat) :
  forall s s', Matches fl (AtMost n (Chr a)) s s' ->
    exists w, rest s = w ++ rest s' /\ List.length w <= n
              /\ Forall (fun c => cset_mem fl a c = true) w.
Proof.
  induction n as [|n IH]; intros s s' M; cbn [AtMost] in M.
  - inversion M; subst. exists [].
    split; [reflexivity | split; [cbn; lia | constructor]].
  - apply Matches_Opt_inv in M. destruct M as [M| ->].
    + apply Matches_Seq_inv in M. destruct M as (s2 & M1 & M2).
      apply Matches_Chr_inv in M1. destruct M1 as (c & Rc & Cc).
      apply IH in M2. destruct M2 as (w & Rw & L & F).
      exists (c :: w). rewrite Rc, Rw. cbn [List.length].
      split; [reflexivity | split; [lia | now constructor]].
    + exists []. split; [reflexivity | split; [cbn; lia | constructor]].
Qed.

Lemma Matches_Times_Chr (a : cset) (r : regex) (n : nat) :
  forall s s', Matches fl (Times n (Chr a) r) s s' ->
    exists w s1, rest s = w ++ rest s1 /\ List.length w = n
                 /\ Forall (fun c => cset_mem fl a c = true) w
                 /\ Matches fl r s1 s'.
Proof.
  induction n as [|n IH]; intros s s' M; cbn [Times] in M.
  - exists [], s.
    split; [reflexivity | split; [reflexivity | split; [constructor | exact M]]].
  - apply Matches_Seq_inv in M. destruct M as (s2 & M1 & M2).
    apply Matches_Chr_inv in M1. destruct M1 as (c & Rc & Cc).
    apply IH in M2. destruct M2 as (w & s1 & Rw & L & F & M).
    exists (c :: w), s1. rewrite Rc, Rw. cbn [List.length].
    split; [reflexivity
           | split; [lia | split; [now constructor | exact M]]].
Qed.

Lemma Takes_Between_Chr (lo hi : nat) (a : cset) (w : jsstring) :
  lo <= hi ->
  Takes fl (Between lo hi (Chr a)) w ->
  lo <= List.length w <= hi /\ Forall (fun c => cset_mem fl a c = true) w.
Proof.
  intros LH (s & s' & M & R). unfold Between in M.
  apply Matches_Times_Chr in M. destruct M as (w1 & s1 & R1 & L1 & F1 & M).
  apply Matches_AtMost_Chr in M. destruct M as (w2 & R2 & L2 & F2).
  rewrite R2, app_assoc in R1. rewrite R in R1. apply app_inv_tail in R1.
  subst w. rewrite length_app. split; [lia | now apply Forall_app].
Qed.

Lemma groups_AtMost_Chr (a : cset) (n : nat) : groups (AtMost n (Chr a)) = [].
Proof. induction n as [|n IH]; [reflexivity|]. cbn [AtMost Opt groups app]. now rewrite IH. Qed.

Lemma groups_Between_Chr (lo hi : nat) (a : cset) :
  groups (Between lo hi (Chr a)) = [].
Proof.
  unfold Between. generalize (hi - lo). intros n.
  induction lo as [|lo IH]; cbn [Times groups app].
  - apply groups_AtMost_Chr.
  - exact IH.
Qed.

Hypothesis case_sensitive : ignoreCase fl = false.

Lemma Takes_Str (l w : jsstring) : Takes fl (Str l) w -> w = l.
Proof.
  intros (s & s' & M & R). apply (@Matches_Str fl case_sensitive) in M.
  rewrite R in M. now apply app_inv_tail in M.
Qed.

Lemma Takes_Chr_CLit (p : N) (w : jsstring) :
  Takes fl (Chr (CLit p)) w -> w = [p].
Proof.
  intros (s & s' & M & R). apply Matches_Chr_inv in M.
  destruct M as (c & Rc & Cc). apply (@cset_mem_CLit fl case_sensitive) in Cc.
  subst c. rewrite R in Rc. change (p :: rest s') with ([p] ++ rest s') in Rc.
  now apply app_inv_tail in Rc.
Qed.

Lemma Takes_Opt_Chr_CLit (p : N) (w : jsstring) :
  Takes fl (Opt (Chr (CLit p))) w -> w = [] \/ w = [p].
Proof.
  intros (s & s' & M & R). apply Matches_Opt_inv in M. destruct M as [M| ->].
  - right. apply Takes_Chr_CLit. exists s, s'. split; assumption.
  - left. change (rest s) with ([] ++ rest s) in R at 1.
    apply app_inv_tail in R. now symmetry.
Qed.

End Anatomy.

(** A link that the shared pattern accepts is made of the scheme, the
    separator, three words and anything at all; the three groups hold the
    three words. *)
Lemma linkPattern_anatomy (sep : jsstring) (A B : regex) (mid : jsstring)
      (C : regex) (url : jsstring) (mt : match_result) :
  groups A = [] -> groups B = [] -> groups C = [] ->
  str_match url {| source := linkPattern sep A B mid C; flag := no_flags |}
  = Some mt ->
  exists secure w1 w2 w3 after,
    url = scheme secure ++ sep ++ w1 ++ lit "/" ++ w2 ++ mid ++ w3 ++ after
    /\ captures mt = [(3, w3); (2, w2); (1, w1)]
    /\ Takes no_flags A w1 /\ Takes no_flags B w2 /\ Takes no_flags C w3.
Proof.
  intros GA GB GC.
  unfold str_match, exec. cbn [flag source global no_flags Nat.leb skipn].
  intros H. apply search_sound in H.
  destruct H as (pre & suf & s' & U & I & M & _ & Cap).
  unfold linkPattern in M. cbn [seqs] in M. unfold str, chr in M.
  apply Matches_Seq_inv in M. destruct M as (s0 & M0 & M).
  apply Matches_Bol_inv in M0. destruct M0 as [P0 ->]. cbn [pos] in P0.
  assert (pre = []) by (destruct pre; [reflexivity | simpl in I; lia]).
  subst pre. cbn [app] in U. subst suf. rewrite P0 in M. clear I P0.
  apply Matches_Seq_inv in M. destruct M as (s1 & M1 & M).
  apply (flat_step (groups_Str _)) in M1.
  destruct M1 as (h & t1 & -> & -> & T1). apply (@Takes_Str no_flags eq_refl) in T1.
  apply Matches_Seq_inv in M. destruct M as (s2 & M2 & M).
  apply (@flat_step no_flags (Opt (Chr _)) _ _ _ _ eq_refl) in M2.
  destruct M2 as (sc & t2 & -> & -> & T2).
  apply (@Takes_Opt_Chr_CLit no_flags eq_refl) in T2.
  apply Matches_Seq_inv in M. destruct M as (s3 & M3 & M).
  apply (flat_step (groups_Str _)) in M3.
  destruct M3 as (sp & t3 & -> & -> & T3). apply (@Takes_Str no_flags eq_refl) in T3.
  apply Matches_Seq_inv in M. destruct M as (s4 & M4 & M).
  apply (group_step GA) in M4. destruct M4 as (w1 & t4 & -> & -> & T4).
  apply Matches_Seq_inv in M. destruct M as (s5 & M5 & M).
  apply (@flat_step no_flags (Chr _) _ _ _ _ eq_refl) in M5.
  destruct M5 as (sl & t5 & -> & -> & T5).
  apply (@Takes_Chr_CLit no_flags eq_refl) in T5.
  apply Matches_Seq_inv in M. destruct M as (s6 & M6 & M).
  apply (group_step GB) in M6. destruct M6 as (w2 & t6 & -> & -> & T6).
  apply Matches_Seq_inv in M. destruct M as (s7 & M7 & M).
  apply (flat_step (groups_Str _)) in M7.
  destruct M7 as (md & t7 & -> & -> & T7). apply (@Takes_Str no_flags eq_refl) in T7.
  apply (group_step GC) in M. destruct M as (w3 & t8 & -> & -> & T8).
  cbn [caps] in Cap.
  exists (match sc with [] => false | _ => true end), w1, w2, w3, t8.
  split; [|split; [exact Cap|split; [exact T4|split; [exact T6|exact T8]]]].
  subst h sp sl md.
  destruct T2 as [-> | ->]; unfold scheme.
  - reflexivity.
  - replace (lit "https") with (lit "http" ++ [hd 0%N (lit "s")])
      by (vm_compute; reflexivity).
    rewrite <- app_assoc. reflexivity.
Qed.

(** ** The GitHub commit link *)

Lemma hexDigit_isHex (c : N) : cset_mem no_flags hexDigit c = isHex c.
Proof.
  unfold hexDigit, isHex.
  cbn [cset_mem variants ignoreCase no_flags existsb].
  rewrite !orb_false_r. now rewrite orb_assoc.
Qed.

Lemma run_isSegment (w : jsstring) :
  w <> [] -> Forall (fun c => cset_mem no_flags notSlash c = true) w ->
  isSegment w = true.
Proof.
  intros NE F. unfold isSegment. apply andb_true_iff. split.
  - destruct w; [congruence | reflexivity].
  - apply forallb_forall. intros c Hc. rewrite Forall_forall in F.
    apply negb_true_iff, notSlash_spec, F, Hc.
Qed.

Lemma run_isHex (w : jsstring) :
  Forall (fun c => cset_mem no_flags hexDigit c = true) w ->
  forallb isHex w = true.
Proof.
  intros F. apply forallb_forall. intros c Hc. rewrite Forall_forall in F.
  rewrite <- hexDigit_isHex. exact (F c Hc).
Qed.

(** X8. [parseGitHubCommitUrl] either raises the error for invalid
    parameters or returns the parts of the link as they are written: the
    link is the scheme, [://github.com/], the owner, [/], the repository,
    [/commit/], the sha and anything after it; owner and repository are
    not empty and hold no [/]; the sha is 7 to 40 hexadecimal digits. *)
Theorem parseGitHubCommitUrl_anatomy :
  forall url : jsstring,
    match GitHubCommit.parseGitHubCommitUrl url with
    | Ok ref =>
      (exists secure after,
          url = scheme secure ++ lit "://github.com/"
                ++ GitHubCommit.owner ref ++ lit "/" ++ GitHubCommit.repo ref
                ++ lit "/commit/" ++ GitHubCommit.sha ref ++ after)
      /\ isSegment (GitHubCommit.owner ref) = true
      /\ isSegment (GitHubCommit.repo ref) = true
      /\ forallb isHex (GitHubCommit.sha ref) = true
      /\ 7 <= List.length (GitHubCommit.sha ref) <= 40
    | Throw e =>
      e = McpError InvalidParams
            (lit "URL de commit de GitHub inválido. Formato esperado: https://github.com/owner/repo/commit/<sha>")
    | Diverge => False
    end.
Proof.
  intros url. unfold GitHubCommit.parseGitHubCommitUrl.
  destruct (str_match url GitHubCommit.commitUrlPattern) as [mt|] eqn:E;
    [|reflexivity].
  apply (@linkPattern_anatomy (lit "://github.com/")
           (Plus true (Chr notSlash)) (Plus true (Chr notSlash))
           (lit "/commit/") (Between 7 40 (Chr hexDigit)) url mt
           eq_refl eq_refl (groups_Between_Chr 7 40 hexDigit)) in E.
  destruct E as (secure & w1 & w2 & w3 & after & U & Cap & T1 & T2 & T3).
  apply Takes_Plus_Chr in T1. destruct T1 as [N1 F1].
  apply Takes_Plus_Chr in T2. destruct T2 as [N2 F2].
  apply Takes_Between_Chr in T3; [|lia]. destruct T3 as [L3 F3].
  unfold group. rewrite Cap.
  cbn [capture Nat.eqb GitHubCommit.owner GitHubCommit.repo GitHubCommit.sha].
  split; [exists secure, after; exact U|].
  split; [now apply run_isSegment|].
  split; [now apply run_isSegment|].
  split; [now apply run_isHex | exact L3].
Qed.

Section BoundedRuns.

Variable fl : flags.

Lemma m_Times_run (a : cset) (r : regex) (k : cont) (t : jsstring)
      (c : list (nat * jsstring)) (w : jsstring) :
  Forall (fun z => cset_mem fl a z = true) w ->
  forall i,
    m fl (Times (List.length w) (Chr a) r) k
      {| pos := i; rest := w ++ t; caps := c |}
    = m fl r k {| pos := i + List.length w; rest := t; caps := c |}.
Proof.
  induction 1 as [|y w Hy Hw IH]; intros i.
  - cbn [Times List.length app]. now rewrite Nat.add_0_r.
  - cbn [Times List.length app]. rewrite m_Seq, m_Chr_hit by exact Hy.
    rewrite IH. f_equal. f_equal. lia.
Qed.

(** A greedy bounded repetition of a character class takes the run that
    stands there, up to its bound. *)
Lemma m_AtMost_greedy_run (a : cset) (k : cont) (t : jsstring)
      (c : list (nat * jsstring)) (x : mstate) (n : nat) :
  forall (w : jsstring) (i : nat),
    Forall (fun z => cset_mem fl a z = true) w ->
    List.length w <= n ->
    List.length w = n \/ stops_at fl a t ->
    k {| pos := i + List.length w; rest := t; caps := c |} = Some x ->
    m fl (AtMost n (Chr a)) k {| pos := i; rest := w ++ t; caps := c |}
    = Some x.
Proof.
  induction n as [|n IH]; intros w i F L E K.
  - destruct w; [|cbn in L; lia]. cbn [AtMost m app].
    cbn [List.length] in K. now rewrite Nat.add_0_r in K.
  - cbn [AtMost]. destruct w as [|y w].
    + destruct E as [E|E]; [discriminate|].
      cbn [app List.length] in *. rewrite Nat.add_0_r in K.
      unfold Opt.
      change (m fl (Alt (Seq (Chr a) (AtMost n (Chr a))) Empty) k
                {| pos := i; rest := t; caps := c |})
        with (match m fl (Chr a) (m fl (AtMost n (Chr a)) k)
                      {| pos := i; rest := t; caps := c |} with
              | Some z => Some z
              | None => k {| pos := i; rest := t; caps := c |}
              end).
      now rewrite m_Chr_miss.
    + inversion F as [|? ? Hy Hw]; subst. cbn [app List.length] in *.
      unfold Opt.
      change (m fl (Alt (Seq (Chr a) (AtMost n (Chr a))) Empty) k
                {| pos := i; rest := y :: w ++ t; caps := c |})
        with (match m fl (Chr a) (m fl (AtMost n (Chr a)) k)
                      {| pos := i; rest := y :: w ++ t; caps := c |} with
              | Some z => Some z
              | None => k {| pos := i; rest := y :: w ++ t; caps := c |}
              end).
      rewrite m_Chr_hit by exact Hy.
      rewrite (IH w (S i)); [reflexivity | exact Hw | lia | | ].
      * destruct E as [E|E]; [left; lia | now right].
      * now replace (S i + List.length w) with (i + S (List.length w)) by lia.
Qed.

Lemma m_Between_greedy_run (a : cset) (k : cont) (t : jsstring)
      (c : list (nat * jsstring)) (x : mstate) (lo hi : nat)
      (w : jsstring) (i : nat) :
  Forall (fun z => cset_mem fl a z = true) w ->
  lo <= List.length w <= hi ->
  List.length w = hi \/ stops_at fl a t ->
  k {| pos := i + List.length w; rest := t; caps := c |} = Some x ->
  m fl (Between lo hi (Chr a)) k {| pos := i; rest := w ++ t; caps := c |}
  = Some x.
Proof.
  intros F L E K. unfold Between.
  rewrite <- (firstn_skipn lo w) in F. apply Forall_app in F.
  destruct F as [F1 F2].
  assert (L1 : List.length (firstn lo w) = lo) by (rewrite length_firstn; lia).
  assert (L2 : List.length (skipn lo w) = List.length w - lo)
    by apply length_skipn.
  rewrite <- (firstn_skipn lo w) at 1. rewrite <- app_assoc.
  rewrite <- L1 at 1. rewrite m_Times_run by exact F1.
  apply m_AtMost_greedy_run; [exact F2 | lia | | ].
  - destruct E as [E|E]; [left; lia | now right].
  - rewrite L1, L2. now replace (i + lo + (List.length w - lo))
                      with (i + List.length w) by lia.
Qed.

End BoundedRuns.

(** A link to [github.com] with an owner and a repository name is read
    in one pass, when the last group reads what follows [mid]. *)
Lemma github_link_forward (secure : bool) (o r mid' tail after w3 : jsstring)
      (C : regex) :
  isSegment o = true -> isSegment r = true ->
  (forall i c,
      m no_flags (Group 3 C) Some {| pos := i; rest := tail; caps := c |}
      = Some {| pos := i + List.length w3; rest := after;
                caps := (3, w3) :: c |}) ->
  exists mt,
    str_match (scheme secure ++ lit "://github.com/" ++ o ++ lit "/" ++ r
               ++ (0x2F%N :: mid') ++ tail)
              {| source := linkPattern (lit "://github.com/")
                             (Plus true (Chr notSlash))
                             (Plus true (Chr notSlash)) (0x2F%N :: mid') C;
                 flag := no_flags |}
    = Some mt
    /\ captures mt = [(3, w3); (2, r); (1, o)].
Proof.
  intros Ho Hr HC.
  destruct (isSegment_run o Ho) as (o1 & ow & -> & Fo).
  destruct (isSegment_run r Hr) as (r1 & rw & -> & Fr).
  assert (M : exists j,
             m no_flags (linkPattern (lit "://github.com/")
                           (Plus true (Chr notSlash))
                           (Plus true (Chr notSlash)) (0x2F%N :: mid') C)
               Some
               {| pos := 0;
                  rest := scheme secure ++ lit "://github.com/" ++ (o1 :: ow)
                          ++ lit "/" ++ (r1 :: rw) ++ (0x2F%N :: mid') ++ tail;
                  caps := [] |}
             = Some {| pos := j; rest := after;
                       caps := [(3, w3); (2, r1 :: rw); (1, o1 :: ow)] |}).
  { unfold linkPattern. cbn [seqs]. unfold str.
    assert (Tail : forall i, exists j,
               m no_flags
                 (Seq (Str (lit "://github.com/"))
                    (Seq (Group 1 (Plus true (Chr notSlash)))
                       (Seq (Chr (chr "/"))
                          (Seq (Group 2 (Plus true (Chr notSlash)))
                             (Seq (Str (0x2F%N :: mid')) (Group 3 C))))))
                 Some
                 {| pos := i;
                    rest := lit "://github.com/" ++ (o1 :: ow) ++ lit "/"
                            ++ (r1 :: rw) ++ (0x2F%N :: mid') ++ tail;
                    caps := [] |}
               = Some {| pos := j; rest := after;
                         caps := [(3, w3); (2, r1 :: rw); (1, o1 :: ow)] |}).
    { intros i. eexists. rewrite m_Seq, m_Str, m_Seq, m_Group.
      change (lit "/" ++ (r1 :: rw) ++ (0x2F%N :: mid') ++ tail)
        with (0x2F%N :: (r1 :: rw) ++ (0x2F%N :: mid') ++ tail).
      apply m_Plus_greedy_run; [exact Fo | apply slash_stops |].
      unfold set_cap; cbn [pos rest caps]. rewrite firstn_run.
      rewrite m_Seq, m_Chr_hit by reflexivity.
      rewrite m_Seq, m_Group.
      change ((0x2F%N :: mid') ++ tail) with (0x2F%N :: mid' ++ tail).
      apply m_Plus_greedy_run; [exact Fr | apply slash_stops |].
      unfold set_cap; cbn [pos rest caps]. rewrite firstn_run.
      change (0x2F%N :: mid' ++ tail) with ((0x2F%N :: mid') ++ tail).
      rewrite m_Seq, m_Str. apply HC. }
    rewrite m_Seq, m_Bol_start.
    destruct secure; unfold scheme.
    - replace (lit "https") with (lit "http" ++ [hd 0%N (lit "s")])
        by (vm_compute; reflexivity).
      rewrite <- !app_assoc. rewrite m_Seq, m_Str. cbn [app].
      destruct (Tail (S (0 + List.length (lit "http")))) as (j & Ej).
      exists j. rewrite m_Seq. apply m_Opt_hit; [apply cset_mem_CLit_self|].
      exact Ej.
    - destruct (Tail (0 + List.length (lit "http"))) as (j & Ej).
      exists j.
      rewrite m_Seq, m_Str, m_Seq, m_Opt_miss by (vm_compute; reflexivity).
      exact Ej. }
  destruct M as (j & M).
  unfold str_match, exec. cbn [flag source global no_flags Nat.leb skipn].
  rewrite (search_hit _ _ _ _ M). eexists. split; reflexivity.
Qed.

(** The greedy [{7,40}] takes the hexadecimal digits that stand after
    [/commit/], up to 40 of them. *)
Lemma commitUrlPattern_reads :
  forall (secure : bool) (o r h after : jsstring),
    isSegment o = true -> isSegment r = true ->
    forallb isHex h = true -> 7 <= List.length h ->
    40 <= List.length h \/ endsRun isHex after = true ->
    exists mt,
      str_match (scheme secure ++ lit "://github.com/" ++ o ++ lit "/" ++ r
                 ++ lit "/commit/" ++ h ++ after)
                GitHubCommit.commitUrlPattern
      = Some mt
      /\ captures mt = [(3, firstn 40 h); (2, r); (1, o)].
Proof.
  intros secure o r h after Ho Hr Hh L7 E.
  assert (F : Forall (fun z => cset_mem no_flags hexDigit z = true) h).
  { apply Forall_forall. intros c Hc. rewrite hexDigit_isHex.
    rewrite forallb_forall in Hh. exact (Hh c Hc). }
  rewrite <- (firstn_skipn 40 h) in F. apply Forall_app in F.
  destruct F as [F1 _].
  assert (L1 : List.length (firstn 40 h) = Nat.min 40 (List.length h))
    by apply length_firstn.
  assert (HC : forall i c,
             m no_flags (Group 3 (Between 7 40 (Chr hexDigit))) Some
               {| pos := i; rest := h ++ after; caps := c |}
             = Some {| pos := i + List.length (firstn 40 h);
                       rest := skipn 40 h ++ after;
                       caps := (3, firstn 40 h) :: c |}).
  { intros i c.
    replace (h ++ after) with (firstn 40 h ++ skipn 40 h ++ after)
      by (now rewrite app_assoc, firstn_skipn).
    rewrite m_Group.
    apply m_Between_greedy_run; [exact F1 | lia | | ].
    - destruct E as [E|E]; [left; lia|].
      destruct (Nat.le_gt_cases 40 (List.length h)) as [G|G]; [left; lia|].
      right. rewrite skipn_all2 by lia. cbn [app].
      destruct after as [|y t]; [constructor|].
      cbn [endsRun] in E. cbn [stops_at]. rewrite hexDigit_isHex.
      now apply negb_true_iff.
    - unfold set_cap; cbn [pos rest caps]. now rewrite firstn_run. }
  destruct (@github_link_forward secure o r (lit "commit/") (h ++ after)
              (skipn 40 h ++ after) (firstn 40 h)
              (Between 7 40 (Chr hexDigit)) Ho Hr HC) as (mt & Em & Cap).
  exists mt. split; [exact Em | exact Cap].
Qed.

(** X9. A commit link to [github.com] with an owner, a repository name and
    seven or more hexadecimal digits parses to them, with either scheme
    and whatever follows; of a longer run of digits the sha is the first
    40: the link is not refused. *)
Theorem parseGitHubCommitUrl_cuts_sha :
  forall (secure : bool) (o r h after : jsstring),
    isSegment o = true -> isSegment r = true ->
    forallb isHex h = true -> 7 <= List.length h ->
    40 <= List.length h \/ endsRun isHex after = true ->
    GitHubCommit.parseGitHubCommitUrl
      (scheme secure ++ lit "://github.com/" ++ o ++ lit "/" ++ r
       ++ lit "/commit/" ++ h ++ after)
    = Ok {| GitHubCommit.owner := o; GitHubCommit.repo := r;
            GitHubCommit.sha := firstn 40 h |}.
Proof.
  intros secure o r h after Ho Hr Hh L7 E.
  destruct (commitUrlPattern_reads secure o r h after Ho Hr Hh L7 E)
    as (mt & Em & Cap).
  unfold GitHubCommit.parseGitHubCommitUrl. rewrite Em.
  unfold group. rewrite Cap.
  cbn [capture Nat.eqb]. reflexivity.
Qed.

Lemma parseGitHubCommitUrl_cuts_sha_witness :
  GitHubCommit.parseGitHubCommitUrl
    (scheme true ++ lit "://github.com/" ++ lit "octo" ++ lit "/"
     ++ lit "hello-world" ++ lit "/commit/"
     ++ lit "7638417db6d59f3c431d3e1f261cc637155684cd0123" ++ lit ".patch")
  = Ok {| GitHubCommit.owner := lit "octo";
          GitHubCommit.repo := lit "hello-world";
          GitHubCommit.sha :=
            firstn 40 (lit "7638417db6d59f3c431d3e1f261cc637155684cd0123") |}.
Proof.
  apply (parseGitHubCommitUrl_cuts_sha true (lit "octo") (lit "hello-world")
           (lit "7638417db6d59f3c431d3e1f261cc637155684cd0123") (lit ".patch"));
    [reflexivity | reflexivity | reflexivity | vm_compute; lia
    | left; vm_compute; lia].
Defined.

(** ** GitLab links *)

Lemma run_isNumber (w : jsstring) :
  w <> [] -> Forall (fun c => cset_mem no_flags CDigit c = true) w ->
  isNumber w = true.
Proof.
  intros NE F. unfold isNumber. apply andb_true_iff. split.
  - destruct w; [congruence | reflexivity].
  - apply forallb_forall. intros c Hc. rewrite Forall_forall in F.
    exact (F c Hc).
Qed.

Lemma run_one_line (w : jsstring) :
  Forall (fun c => cset_mem no_flags CAny c = true) w ->
  forallb (fun c => negb (isLineTerminator c)) w = true.
Proof.
  intros F. apply forallb_forall. intros c Hc. rewrite Forall_forall in F.
  exact (F c Hc).
Qed.

(** The base URL that goes with a link to the host [domain]. *)
Lemma gitlabUrl_choice (domain currentHost baseUrl : jsstring) :
  (currentHost = domain
   /\ (if negb (str_eqb domain currentHost) then lit "https://" ++ domain
       else baseUrl) = baseUrl)
  \/ (currentHost <> domain
      /\ (if negb (str_eqb domain currentHost) then lit "https://" ++ domain
          else baseUrl) = lit "https://" ++ domain).
Proof.
  destruct (str_eqb domain currentHost) eqn:E.
  - apply str_eqb_eq in E. left. split; [now symmetry | reflexivity].
  - apply str_eqb_neq in E. right. split; [congruence | reflexivity].
Qed.

(** X10. [parseGitLabUrl] returns the parts of the link as they are
    written: the link is the scheme, [://], a host without [/], [/], the
    project path (not empty, on one line), [/-/issues/], a run of digits
    and anything after them; the issue number is what [parseInt] reads in
    the digits, the double nearest to the number written.  The base URL
    returned is the configured one when its host name is the host of the
    link, and otherwise [https://] with the host of the link, whatever the
    scheme of the link.  A link of another form raises the error for invalid
    parameters; a [TypeError] is raised only for a well-formed link when
    the configured base URL has no host name. *)
Theorem parseGitLabUrl_anatomy :
  forall (hostname : jsstring -> option jsstring) (baseUrl url : jsstring),
    match GitLab.parseGitLabUrl hostname baseUrl url with
    | Ok ref =>
      exists secure domain digits after,
        url = scheme secure ++ lit "://" ++ domain ++ lit "/"
              ++ GitLab.projectId ref ++ lit "/-/issues/" ++ digits ++ after
        /\ isSegment domain = true
        /\ GitLab.projectId ref <> []
        /\ forallb (fun c => negb (isLineTerminator c)) (GitLab.projectId ref)
           = true
        /\ isNumber digits = true
        /\ GitLab.issueIid ref = toDouble (digitsValue digits)
        /\ ((hostname baseUrl = Some domain /\ GitLab.gitlabUrl ref = baseUrl)
            \/ (hostname baseUrl <> Some domain
                /\ GitLab.gitlabUrl ref = lit "https://" ++ domain))
    | Throw e =>
      (e = McpError InvalidParams
             (lit "URL de issue de GitLab inválido. Formato esperado: https://gitlab.com/namespace/project/-/issues/123")
       /\ str_match url GitLab.urlPattern = None)
      \/ (e = TypeError /\ hostname baseUrl = None
          /\ str_match url GitLab.urlPattern <> None)
    | Diverge => False
    end.
Proof.
  intros hostname baseUrl url. unfold GitLab.parseGitLabUrl.
  destruct (str_match url GitLab.urlPattern) as [mt|] eqn:E;
    [|left; split; reflexivity].
  destruct (hostname baseUrl) as [currentHost|];
    [|right; split; [reflexivity | split; [reflexivity | discriminate]]].
  apply (@linkPattern_anatomy (lit "://")
           (Plus true (Chr notSlash)) (Plus true (Chr CAny))
           (lit "/-/issues/") (Plus true (Chr CDigit)) url mt
           eq_refl eq_refl eq_refl) in E.
  destruct E as (secure & w1 & w2 & w3 & after & U & Cap & T1 & T2 & T3).
  apply Takes_Plus_Chr in T1. destruct T1 as [N1 F1].
  apply Takes_Plus_Chr in T2. destruct T2 as [N2 F2].
  apply Takes_Plus_Chr in T3. destruct T3 as [N3 F3].
  unfold group. rewrite Cap.
  cbn [capture Nat.eqb GitLab.gitlabUrl GitLab.projectId GitLab.issueIid].
  exists secure, w1, w3, after.
  split; [exact U|].
  split; [now apply run_isSegment|].
  split; [exact N2|].
  split; [now apply run_one_line|].
  split; [now apply run_isNumber|].
  split; [reflexivity|].
  destruct (gitlabUrl_choice w1 currentHost baseUrl) as [[-> G]|[D G]].
  - left. split; [reflexivity | exact G].
  - right. split; [congruence | exact G].
Qed.

(** X11. [parseGitLabCommitUrl] returns the parts of the link as they are
    written: the scheme, [://], a host without [/], [/], the project path
    (not empty, on one line), [/-/commit/], a sha of 7 to 40 hexadecimal
    digits and anything after it; the base URL is chosen as for an issue
    link, and the errors are those of an issue link. *)
Theorem parseGitLabCommitUrl_anatomy :
  forall (hostname : jsstring -> option jsstring) (baseUrl url : jsstring),
    match GitLabCommit.parseGitLabCommitUrl hostname baseUrl url with
    | Ok ref =>
      exists secure domain after,
        url = scheme secure ++ lit "://" ++ domain ++ lit "/"
              ++ GitLabCommit.projectId ref ++ lit "/-/commit/"
              ++ GitLabCommit.sha ref ++ after
        /\ isSegment domain = true
        /\ GitLabCommit.projectId ref <> []
        /\ forallb (fun c => negb (isLineTerminator c))
                   (GitLabCommit.projectId ref) = true
        /\ forallb isHex (GitLabCommit.sha ref) = true
        /\ 7 <= List.length (GitLabCommit.sha ref) <= 40
        /\ ((hostname baseUrl = Some domain
             /\ GitLabCommit.gitlabUrl ref = baseUrl)
            \/ (hostname baseUrl <> Some domain
                /\ GitLabCommit.gitlabUrl ref = lit "https://" ++ domain))
    | Throw e =>
      (e = McpError InvalidParams
             (lit "URL de commit de GitLab inválido. Formato esperado: https://gitlab.com/namespace/project/-/commit/<sha>")
       /\ str_match url GitLabCommit.urlPattern = None)
      \/ (e = TypeError /\ hostname baseUrl = None
          /\ str_match url GitLabCommit.urlPattern <> None)
    | Diverge => False
    end.
Proof.
  intros hostname baseUrl url. unfold GitLabCommit.parseGitLabCommitUrl.
  destruct (str_match url GitLabCommit.urlPattern) as [mt|] eqn:E;
    [|left; split; reflexivity].
  destruct (hostname baseUrl) as [currentHost|];
    [|right; split; [reflexivity | split; [reflexivity | discriminate]]].
  apply (@linkPattern_anatomy (lit "://")
           (Plus true (Chr notSlash)) (Plus true (Chr CAny))
           (lit "/-/commit/") (Between 7 40 (Chr hexDigit)) url mt
           eq_refl eq_refl (groups_Between_Chr 7 40 hexDigit)) in E.
  destruct E as (secure & w1 & w2 & w3 & after & U & Cap & T1 & T2 & T3).
  apply Takes_Plus_Chr in T1. destruct T1 as [N1 F1].
  apply Takes_Plus_Chr in T2. destruct T2 as [N2 F2].
  apply Takes_Between_Chr in T3; [|lia]. destruct T3 as [L3 F3].
  unfold group. rewrite Cap.
  cbn [capture Nat.eqb GitLabCommit.gitlabUrl GitLabCommit.projectId
       GitLabCommit.sha].
  exists secure, w1, after.
  split; [exact U|].
  split; [now apply run_isSegment|].
  split; [exact N2|].
  split; [now apply run_one_line|].
  split; [now apply run_isHex|].
  split; [exact L3|].
  destruct (gitlabUrl_choice w1 currentHost baseUrl) as [[-> G]|[D G]].
  - left. split; [reflexivity | exact G].
  - right. split; [congruence | exact G].
Qed.


(** ** The MongoDB tool: the connection *)

Section MongoRuns.

Variable toLowerCase : jsstring -> jsstring.
Variable json : Type.
Variable emptyObject : json.
Variable stringify : json -> jsstring.
Variable driver : MongoCall json -> jsstring + json.


End MongoRuns.


(** ** The dispatcher *)

Section Dispatcher.

Variable World Args Result : Type.
Variable handlerOf : jsstring -> Service.Handler World Args Result.

Lemma toolsNamed_names (names : list jsstring) :
  Service.listTools (Service.toolsNamed handlerOf names) = names.
Proof.
  unfold Service.listTools, Service.toolsNamed. rewrite map_map.
  cbn [Service.name]. apply map_id.
Qed.

Lemma find_toolsNamed (names : list jsstring) (toolName : jsstring) :
  find (fun t => str_eqb (Service.name t) toolName)
       (Service.toolsNamed handlerOf names)
  = if arr_includes names toolName
    then Some {| Service.name := toolName;
                 Service.handler := handlerOf toolName |}
    else None.
Proof.
  unfold arr_includes.
  induction names as [|n names IH]; [reflexivity|].
  cbn [Service.toolsNamed map find existsb Service.name].
  destruct (str_eqb n toolName) eqn:E.
  - apply str_eqb_eq in E. subst n. now rewrite str_eqb_refl.
  - assert (E' : str_eqb toolName n = false).
    { apply str_eqb_neq. apply str_eqb_neq in E. congruence. }
    rewrite E'. cbn [orb]. exact IH.
Qed.

Lemma serverTools_named (env : option jsstring) :
  Service.serverTools handlerOf env
  = Service.toolsNamed handlerOf
      ((if Service.truthy (Service.envOr env []) then Service.gitlabToolNames
        else [])
       ++ Service.httpToolNames ++ Service.dbToolNames
       ++ Service.webToolNames ++ Service.githubToolNames).
Proof.
  unfold Service.serverTools, Service.createGitLabTools,
    Service.createHttpTools, Service.createDbTools, Service.createWebTools,
    Service.createGitHubTools, Service.toolsNamed.
  rewrite !map_app. now destruct (Service.truthy (Service.envOr env [])).
Qed.

Lemma rethrow_McpError (toolName : jsstring) (r : World * outcome exn Result)
      (e : exn) :
  snd (Service.rethrow toolName r) = Throw e ->
  exists code message, e = McpError code message.
Proof.
  destruct r as [w [v|[c msg| |msg|]|]]; cbn [Service.rethrow snd];
    intros H; try discriminate; injection H as <-; eauto.
Qed.

(** X13. The dispatcher of the server.  The registered tools have pairwise
    different names, so the lookup by name finds the one tool of that
    name; a call of a registered tool runs the handler of that tool, once,
    and an error of the handler leaves the dispatcher unchanged when it is
    an [McpError] and wrapped as an internal error otherwise; a call of
    any other name raises [MethodNotFound] and leaves the world as it was.
    So every error that leaves the dispatcher is an [McpError].  Without
    a (non-empty) [GITLAB_ACCESS_TOKEN] the five GitLab tools are not
    registered: calling one raises [MethodNotFound]. *)
Theorem callTool_dispatch :
  forall (env : option jsstring) (toolName : jsstring) (args : Args)
         (w : World),
    let tools := Service.serverTools handlerOf env in
    NoDup (Service.listTools tools)
    /\ (if arr_includes (Service.listTools tools) toolName
        then Service.callTool tools toolName args w
             = Service.rethrow toolName (handlerOf toolName args w)
        else Service.callTool tools toolName args w
             = (w, Throw (McpError MethodNotFound
                            (lit "Herramienta desconocida: " ++ toolName))))
    /\ (forall e,
           snd (Service.callTool tools toolName args w) = Throw e ->
           exists code message, e = McpError code message)
    /\ (Service.envOr env [] = [] ->
        In toolName Service.gitlabToolNames ->
        Service.callTool tools toolName args w
        = (w, Throw (McpError MethodNotFound
                       (lit "Herramienta desconocida: " ++ toolName)))).
Proof.
  intros env toolName args w tools. subst tools.
  rewrite serverTools_named, toolsNamed_names.
  set (names := (if Service.truthy (Service.envOr env [])
                 then Service.gitlabToolNames else [])
                ++ Service.httpToolNames ++ Service.dbToolNames
                ++ Service.webToolNames ++ Service.githubToolNames).
  assert (Call : Service.callTool (Service.toolsNamed handlerOf names)
                   toolName args w
                 = if arr_includes names toolName
                   then Service.rethrow toolName (handlerOf toolName args w)
                   else (w, Throw (McpError MethodNotFound
                                     (lit "Herramienta desconocida: "
                                      ++ toolName)))).
  { unfold Service.callTool. rewrite find_toolsNamed.
    now destruct (arr_includes names toolName). }
  split; [|split; [|split]].
  - subst names. apply nodupb_NoDup.
    destruct (Service.truthy (Service.envOr env [])); vm_compute; reflexivity.
  - rewrite Call. now destruct (arr_includes names toolName).
  - intros e. rewrite Call. destruct (arr_includes names toolName).
    + apply rethrow_McpError.
    + cbn [snd]. intros H. injection H as <-. eauto.
  - intros Env Hin. rewrite Call.
    replace (arr_includes names toolName) with false; [reflexivity|].
    symmetry. apply arr_includes_not_In. subst names. rewrite Env.
    cbn [Service.truthy app]. intros Hin'.
    assert (D : forallb (fun n => negb (arr_includes
                                          (Service.httpToolNames
                                           ++ Service.dbToolNames
                                           ++ Service.webToolNames
                                           ++ Service.githubToolNames) n))
                        Service.gitlabToolNames = true)
      by (vm_compute; reflexivity).
    rewrite forallb_forall in D. specialize (D _ Hin).
    apply negb_true_iff in D. apply arr_includes_not_In in D. exact (D Hin').
Qed.

End Dispatcher.


(** ** The GitLab tools: where the requests go *)

Section GitLabRequests.

Variable toLowerCase : jsstring -> jsstring.
Variable toLocaleDateString_esES : jsstring -> jsstring.
Variable hostname : jsstring -> option jsstring.
Variable numberToString : number -> jsstring.
Variable json : Type.
Variable stringify : json -> jsstring.
Variable network :
  list (GitLabTools.Request json) -> GitLabTools.Request json
  -> GitLabTools.AxiosError + json.
Variable issueDataOf : json -> json -> outcome exn QA.IssueData.
Variable userCommentsOf : json -> outcome exn (list Report.Comment).
Variable secondRejectsFirst : bool.

#[local] Abbreviation analyze :=
  (GitLabTools.analyzeHandler toLowerCase toLocaleDateString_esES hostname
     numberToString network issueDataOf userCommentsOf secondRejectsFirst).
#[local] Abbreviation apiGet := (GitLabTools.apiGetHandler stringify network).
#[local] Abbreviation commitByUrl :=
  (GitLabTools.getCommitByUrlHandler hostname stringify network).
#[local] Abbreviation getCommit :=
  (GitLabTools.getCommitHandler stringify network).

Lemma makeGitLabRequest_world (gitlabUrl accessToken endpoint : jsstring)
      (params : option json) (w : GitLabTools.World json) :
  fst (GitLabTools.makeGitLabRequest network gitlabUrl accessToken endpoint
         params w)
  = (fst w,
     snd w ++ [{| GitLabTools.url := gitlabUrl ++ lit "/api/v4" ++ endpoint;
                  GitLabTools.bearer := accessToken;
                  GitLabTools.params := params |}]).
Proof. reflexivity. Qed.

Lemma getIssueData_world (gitlabUrl accessToken projectId project : jsstring)
      (issueIid : number) (w : GitLabTools.World json) :
  Uri.encodeURIComponent projectId = Some project ->
  fst (GitLabTools.getIssueData numberToString network issueDataOf
         secondRejectsFirst gitlabUrl accessToken projectId issueIid w)
  = (fst w,
     snd w
     ++ [{| GitLabTools.url :=
              gitlabUrl ++ lit "/api/v4"
              ++ GitLabTools.issueEndpoint numberToString project issueIid;
            GitLabTools.bearer := accessToken;
            GitLabTools.params := None |};
         {| GitLabTools.url :=
              gitlabUrl ++ lit "/api/v4" ++ GitLabTools.projectEndpoint project;
            GitLabTools.bearer := accessToken;
            GitLabTools.params := None |}]).
Proof.
  intros E.
  unfold GitLabTools.getIssueData, GitLabTools.tbind, GitLabTools.lift,
    GitLabTools.encoded, GitLabTools.makeGitLabRequest.
  rewrite E. cbn [fst snd]. now rewrite <- app_assoc.
Qed.

Lemma getIssueData_unencodable (gitlabUrl accessToken projectId : jsstring)
      (issueIid : number) (w : GitLabTools.World json) :
  Uri.encodeURIComponent projectId = None ->
  GitLabTools.getIssueData numberToString network issueDataOf
    secondRejectsFirst gitlabUrl accessToken projectId issueIid w
  = (w, Throw URIError).
Proof.
  intros E.
  unfold GitLabTools.getIssueData, GitLabTools.tbind, GitLabTools.lift,
    GitLabTools.encoded.
  now rewrite E.
Qed.

(** The requests of [analyzeHandler] for a link that parses. *)
Lemma analyzeHandler_parsed (issueUrl : jsstring) (argToken : option jsstring)
      (ctx : GitLabTools.Ctx) (log : list (GitLabTools.Request json))
      (parsed : GitLab.IssueRef) :
  GitLab.parseGitLabUrl hostname (GitLabTools.gitlabUrl ctx) issueUrl
  = Ok parsed ->
  let token := Service.envOr argToken (GitLabTools.accessToken ctx) in
  let get endpoint :=
      {| GitLabTools.url := GitLab.gitlabUrl parsed ++ lit "/api/v4" ++ endpoint;
         GitLabTools.bearer := token;
         GitLabTools.params := @None json |} in
  let ctx' := {| GitLabTools.gitlabUrl := GitLab.gitlabUrl parsed;
                 GitLabTools.accessToken := GitLabTools.accessToken ctx |} in
  match Uri.encodeURIComponent (GitLab.projectId parsed) with
  | Some project =>
    let issue :=
        GitLabTools.issueEndpoint numberToString project
                                  (GitLab.issueIid parsed) in
    exists more out,
      analyze issueUrl argToken (ctx, log)
      = ((ctx', log ++ get issue :: get (GitLabTools.projectEndpoint project)
                    :: more),
         out)
      /\ (more = [] /\ (forall v, out <> Ok v)
          \/ more = [get (issue ++ lit "/notes")])
  | None => analyze issueUrl argToken (ctx, log) = ((ctx', log), Throw URIError)
  end.
Proof.
  intros P token get ctx'.
  destruct (Uri.encodeURIComponent (GitLab.projectId parsed))
    as [project|] eqn:E; [intros issue|];
    unfold GitLabTools.analyzeHandler, GitLabTools.tbind at 1 2;
    cbn [GitLabTools.getCtx GitLabTools.lift fst snd]; rewrite P;
    unfold GitLabTools.tbind at 1 2;
    cbn [GitLabTools.setGitlabUrl GitLabTools.getCtx fst snd
         GitLabTools.gitlabUrl GitLabTools.accessToken];
    fold token; fold ctx'; unfold GitLabTools.tbind at 1.
  2:{ rewrite (getIssueData_unencodable _ _ _ _ _ E). reflexivity. }
  pose proof (@getIssueData_world (GitLab.gitlabUrl parsed) token
                (GitLab.projectId parsed) project (GitLab.issueIid parsed)
                (ctx', log) E) as W.
  fold issue in W. cbn [fst snd] in W.
  destruct (GitLabTools.getIssueData numberToString network issueDataOf
              secondRejectsFirst (GitLab.gitlabUrl parsed) token
              (GitLab.projectId parsed) (GitLab.issueIid parsed) (ctx', log))
    as [w2 o']. cbn [fst] in W. subst w2.
  destruct o' as [issueData|e|].
  - unfold GitLabTools.tbind at 1, GitLabTools.lift at 1, GitLabTools.encoded.
    rewrite E.
    unfold GitLabTools.tbind at 1, GitLabTools.makeGitLabRequest.
    cbn [fst snd]. rewrite <- app_assoc. cbn [app]. fold issue.
    match goal with
    | |- context [network ?l ?r] =>
      destruct (network l r) as [[st msg|msg]|comments]
    end.
    + eexists _, _. split; [reflexivity | right; reflexivity].
    + eexists _, _. split; [reflexivity | right; reflexivity].
    + unfold GitLabTools.tbind, GitLabTools.lift, GitLabTools.ret.
      destruct (userCommentsOf comments) as [userComments| |].
      * destruct (QA.analyzeIssueForQA toLowerCase issueData) as [qa| |].
        -- destruct (Report.formatQAAnalysis toLocaleDateString_esES
                       issueData qa userComments).
           ++ eexists _, _. split; [reflexivity | right; reflexivity].
           ++ eexists _, _. split; [reflexivity | right; reflexivity].
           ++ eexists _, _. split; [reflexivity | right; reflexivity].
        -- eexists _, _. split; [reflexivity | right; reflexivity].
        -- eexists _, _. split; [reflexivity | right; reflexivity].
      * eexists _, _. split; [reflexivity | right; reflexivity].
      * eexists _, _. split; [reflexivity | right; reflexivity].
  - exists [], (Throw e). split; [reflexivity|]. left.
    split; [reflexivity | discriminate].
  - exists [], Diverge. split; [reflexivity|]. left.
    split; [reflexivity | discriminate].
Qed.

(** Whatever becomes of the call, the context holds the base URL of the
    link from then on. *)
Lemma analyzeHandler_ctx (issueUrl : jsstring) (argToken : option jsstring)
      (ctx : GitLabTools.Ctx) (log : list (GitLabTools.Request json))
      (parsed : GitLab.IssueRef) :
  GitLab.parseGitLabUrl hostname (GitLabTools.gitlabUrl ctx) issueUrl
  = Ok parsed ->
  fst (fst (analyze issueUrl argToken (ctx, log)))
  = {| GitLabTools.gitlabUrl := GitLab.gitlabUrl parsed;
       GitLabTools.accessToken := GitLabTools.accessToken ctx |}.
Proof.
  intros P. pose proof (analyzeHandler_parsed issueUrl argToken ctx log P) as H.
  cbv zeta in H.
  destruct (Uri.encodeURIComponent (GitLab.projectId parsed)) as [project|].
  - destruct H as (more & out & -> & _). reflexivity.
  - rewrite H. reflexivity.
Qed.



(** X15. The host of a link sticks.  After a call of
    [analyze_gitlab_issue_for_qa] with a link that parses, whatever became
    of that call, a call of [gitlab_api_get] that names no token sends
    its request to the base URL of that link, with the configured
    token. *)
Theorem analyzeHandler_then_apiGet :
  forall (issueUrl : jsstring) (argToken : option jsstring)
         (ctx : GitLabTools.Ctx) (log : list (GitLabTools.Request json))
         (parsed : GitLab.IssueRef) (endpoint : jsstring)
         (params : option json),
    GitLab.parseGitLabUrl hostname (GitLabTools.gitlabUrl ctx) issueUrl
    = Ok parsed ->
    let w := fst (analyze issueUrl argToken (ctx, log)) in
    fst (apiGet endpoint params None w)
    = (fst w,
       snd w ++ [{| GitLabTools.url :=
                      GitLab.gitlabUrl parsed ++ lit "/api/v4" ++ endpoint;
                    GitLabTools.bearer := GitLabTools.accessToken ctx;
                    GitLabTools.params := params |}]).
Proof.
  intros issueUrl argToken ctx log parsed endpoint params P w.
  pose proof (analyzeHandler_ctx issueUrl argToken ctx log P) as C.
  fold w in C. destruct w as [ctx1 log1]. cbn [fst snd] in *. subst ctx1.
  unfold GitLabTools.apiGetHandler, GitLabTools.tbind at 1.
  cbn [GitLabTools.getCtx fst snd GitLabTools.gitlabUrl
       GitLabTools.accessToken Service.envOr].
  unfold GitLabTools.tbind.
  match goal with
  | |- context [GitLabTools.makeGitLabRequest ?n ?g ?t ?e ?p ?w] =>
    pose proof (makeGitLabRequest_world g t e p w) as W;
      destruct (GitLabTools.makeGitLabRequest n g t e p w) as [w' [data|e'|]]
  end; cbn [fst snd] in *; exact W.
Qed.

(** The request of [getGitLabCommit]. *)
Lemma getGitLabCommit_run (gitlabUrl accessToken projectId sha : jsstring)
      (w : GitLabTools.World json) :
  match Uri.encodeURIComponent projectId with
  | Some project =>
    fst (GitLabTools.getGitLabCommit network gitlabUrl accessToken projectId
           sha w)
    = (fst w,
       snd w ++ [{| GitLabTools.url :=
                      gitlabUrl ++ lit "/api/v4"
                      ++ GitLabTools.commitEndpoint project sha;
                    GitLabTools.bearer := accessToken;
                    GitLabTools.params := None |}])
  | None =>
    GitLabTools.getGitLabCommit network gitlabUrl accessToken projectId sha w
    = (w, Throw URIError)
  end.
Proof.
  unfold GitLabTools.getGitLabCommit, GitLabTools.tbind, GitLabTools.lift,
    GitLabTools.encoded.
  destruct (Uri.encodeURIComponent projectId) as [project|]; reflexivity.
Qed.

(** X16. The handler of [gitlab_get_commit_by_url], for a link that
    parses: the base URL of the link becomes the context's [gitlabUrl];
    when the project path can be encoded one request is made, for the
    commit of the link, at that base URL, and when it cannot (a surrogate
    that is not part of a pair) the call raises a [URIError] and makes no
    request.  A later call of [gitlab_get_commit] that names no token
    sends its one request to the base URL of the link too, with the
    configured token, or raises the [URIError] without a request. *)
Theorem getCommitByUrlHandler_then_getCommit :
  forall (commitUrl : jsstring) (argToken : option jsstring)
         (ctx : GitLabTools.Ctx) (log : list (GitLabTools.Request json))
         (parsed : GitLabCommit.CommitRef) (projectId sha : jsstring),
    GitLabCommit.parseGitLabCommitUrl hostname (GitLabTools.gitlabUrl ctx)
                                      commitUrl
    = Ok parsed ->
    let request token project s :=
        {| GitLabTools.url :=
             GitLabCommit.gitlabUrl parsed ++ lit "/api/v4"
             ++ lit "/projects/" ++ project ++ lit "/repository/commits/" ++ s;
           GitLabTools.bearer := token;
           GitLabTools.params := @None json |} in
    let ctx' := {| GitLabTools.gitlabUrl := GitLabCommit.gitlabUrl parsed;
                   GitLabTools.accessToken := GitLabTools.accessToken ctx |} in
    let w := fst (commitByUrl commitUrl argToken (ctx, log)) in
    match Uri.encodeURIComponent (GitLabCommit.projectId parsed) with
    | Some project =>
      w = (ctx', log ++ [request (Service.envOr argToken
                                    (GitLabTools.accessToken ctx))
                                 project (GitLabCommit.sha parsed)])
    | None =>
      commitByUrl commitUrl argToken (ctx, log) = ((ctx', log), Throw URIError)
    end
    /\ match Uri.encodeURIComponent projectId with
       | Some project =>
         fst (getCommit projectId sha None w)
         = (ctx', snd w ++ [request (GitLabTools.accessToken ctx) project sha])
       | None => getCommit projectId sha None w = (w, Throw URIError)
       end.
Proof.
  intros commitUrl argToken ctx log parsed projectId sha P request ctx' w.
  assert (First : match Uri.encodeURIComponent (GitLabCommit.projectId parsed)
                  with
                  | Some project =>
                    w = (ctx', log ++ [request (Service.envOr argToken
                                                  (GitLabTools.accessToken ctx))
                                               project (GitLabCommit.sha parsed)])
                  | None =>
                    commitByUrl commitUrl argToken (ctx, log)
                    = ((ctx', log), Throw URIError)
                  end).
  { subst w.
    pose proof (getGitLabCommit_run (GitLabCommit.gitlabUrl parsed)
                  (Service.envOr argToken (GitLabTools.accessToken ctx))
                  (GitLabCommit.projectId parsed) (GitLabCommit.sha parsed)
                  (ctx', log)) as R.
    destruct (Uri.encodeURIComponent (GitLabCommit.projectId parsed))
      as [project|];
      unfold GitLabTools.getCommitByUrlHandler, GitLabTools.tbind at 1 2;
      cbn [GitLabTools.getCtx GitLabTools.lift fst snd]; rewrite P;
      unfold GitLabTools.tbind at 1 2;
      cbn [GitLabTools.setGitlabUrl GitLabTools.getCtx fst snd
           GitLabTools.gitlabUrl GitLabTools.accessToken];
      fold ctx'; unfold GitLabTools.tbind at 1.
    - destruct (GitLabTools.getGitLabCommit network
                  (GitLabCommit.gitlabUrl parsed)
                  (Service.envOr argToken (GitLabTools.accessToken ctx))
                  (GitLabCommit.projectId parsed) (GitLabCommit.sha parsed)
                  (ctx', log)) as [w' [data|e'|]];
        cbn [fst snd] in *; exact R.
    - rewrite R. reflexivity. }
  assert (Cw : fst w = ctx').
  { destruct (Uri.encodeURIComponent (GitLabCommit.projectId parsed)).
    - rewrite First. reflexivity.
    - subst w. rewrite First. reflexivity. }
  split; [exact First|].
  destruct w as [ctx1 log1]. cbn [fst snd] in *. subst ctx1.
  pose proof (getGitLabCommit_run (GitLabTools.gitlabUrl ctx')
                (GitLabTools.accessToken ctx') projectId sha (ctx', log1)) as R.
  destruct (Uri.encodeURIComponent projectId) as [project|];
    unfold GitLabTools.getCommitHandler, GitLabTools.tbind at 1;
    cbn [GitLabTools.getCtx fst snd Service.envOr];
    unfold GitLabTools.tbind at 1.
  - destruct (GitLabTools.getGitLabCommit network (GitLabTools.gitlabUrl ctx')
                (GitLabTools.accessToken ctx') projectId sha (ctx', log1))
      as [w' [data|e'|]]; cbn [fst snd] in *; exact R.
  - rewrite R. reflexivity.
Qed.

End GitLabRequests.

(** A link with the scheme [http] to another host: the requests that
    follow go to that host by [https], with the configured token. *)
Lemma analyzeHandler_then_apiGet_witness :
  let ctx := GitLabTools.configured in
  let link := lit "http://gitlab.example.org/ns/proj/-/issues/42" in
  let parsed := {| GitLab.gitlabUrl := lit "https://gitlab.example.org";
                   GitLab.projectId := lit "ns/proj";
                   GitLab.issueIid := 42%N |} in
  let w := fst (GitLabTools.analyzeHandler toLowerCase_latin1 (fun d => d)
                  GitLab.plain_hostname printSmall GitLabTools.offline
                  (fun _ _ => Throw TypeError) (fun _ => Ok []) false
                  link None (ctx, [])) in
  GitLab.parseGitLabUrl GitLab.plain_hostname (GitLabTools.gitlabUrl ctx) link
  = Ok parsed
  /\ fst (GitLabTools.apiGetHandler (fun v : jsstring => v)
            GitLabTools.offline (lit "/user") None None w)
     = (fst w,
        snd w ++ [{| GitLabTools.url :=
                       GitLab.gitlabUrl parsed ++ lit "/api/v4" ++ lit "/user";
                     GitLabTools.bearer := GitLabTools.accessToken ctx;
                     GitLabTools.params := None |}]).
Proof.
  intros ctx link parsed w.
  assert (P : GitLab.parseGitLabUrl GitLab.plain_hostname
                (GitLabTools.gitlabUrl ctx) link = Ok parsed)
    by (vm_compute; reflexivity).
  split; [exact P|].
  exact (@analyzeHandler_then_apiGet toLowerCase_latin1 (fun d => d)
           GitLab.plain_hostname printSmall jsstring (fun v => v)
           GitLabTools.offline
           (fun _ _ => Throw TypeError) (fun _ => Ok []) false
           link None ctx [] parsed (lit "/user") None P).
Defined.

(** A run of [analyze_gitlab_issue_for_qa] on a network that answers: the
    three requests as they are sent, the project [ns/proj] being named
    [ns%2Fproj]. *)
Example analyzeHandler_three_requests :
  let get endpoint :=
      {| GitLabTools.url := lit "https://gitlab.example.org/api/v4" ++ endpoint;
         GitLabTools.bearer := lit "glpat-configured";
         GitLabTools.params := @None jsstring |} in
  snd (fst (GitLabTools.analyzeHandler toLowerCase_latin1 (fun d => d)
              GitLab.plain_hostname printSmall GitLabTools.echo
              (fun _ _ => Ok (QA.issueOf (lit "Login") (lit "Add login") []))
              (fun _ => Ok []) false
              (lit "https://gitlab.example.org/ns/proj/-/issues/42") None
              (GitLabTools.configured, [])))
  = [get (lit "/projects/ns%2Fproj/issues/42");
     get (lit "/projects/ns%2Fproj");
     get (lit "/projects/ns%2Fproj/issues/42/notes")].
Proof. vm_compute. reflexivity. Qed.

(** A project path with a surrogate that is not part of a pair: the link
    parses, the base URL of the context is changed, and the call raises
    the [URIError] before any request. *)
Example analyzeHandler_lone_surrogate :
  GitLabTools.analyzeHandler toLowerCase_latin1 (fun d => d)
    GitLab.plain_hostname printSmall GitLabTools.echo
    (fun _ _ => Ok (QA.issueOf (lit "Login") (lit "Add login") []))
    (fun _ => Ok []) false
    (lit "https://gitlab.example.org/ns/" ++ [0xD800%N]
     ++ lit "/-/issues/42") None
    (GitLabTools.configured, [])
  = (({| GitLabTools.gitlabUrl := lit "https://gitlab.example.org";
         GitLabTools.accessToken := lit "glpat-configured" |}, []),
     Throw URIError).
Proof. vm_compute. reflexivity. Qed.

(** The project [ns/proj] is named [ns%2Fproj] in the request. *)
Lemma getCommitByUrlHandler_then_getCommit_witness :
  let ctx := GitLabTools.configured in
  let link := lit "https://gitlab.example.org/ns/proj/-/commit/7638417db6d5" in
  let parsed := {| GitLabCommit.gitlabUrl := lit "https://gitlab.example.org";
                   GitLabCommit.projectId := lit "ns/proj";
                   GitLabCommit.sha := lit "7638417db6d5" |} in
  GitLabCommit.parseGitLabCommitUrl GitLab.plain_hostname
    (GitLabTools.gitlabUrl ctx) link
  = Ok parsed
  /\ Uri.encodeURIComponent (lit "ns/proj") = Some (lit "ns%2Fproj")
  /\ fst (GitLabTools.getCommitByUrlHandler GitLab.plain_hostname
            (fun v : jsstring => v) GitLabTools.echo link None (ctx, []))
     = ({| GitLabTools.gitlabUrl := lit "https://gitlab.example.org";
           GitLabTools.accessToken := lit "glpat-configured" |},
        [{| GitLabTools.url :=
              lit "https://gitlab.example.org/api/v4/projects/ns%2Fproj/repository/commits/7638417db6d5";
            GitLabTools.bearer := lit "glpat-configured";
            GitLabTools.params := None |}])
  /\ match Uri.encodeURIComponent (GitLabCommit.projectId parsed) with
     | Some project =>
       fst (GitLabTools.getCommitByUrlHandler GitLab.plain_hostname
              (fun v : jsstring => v) GitLabTools.echo link None (ctx, []))
       = ({| GitLabTools.gitlabUrl := GitLabCommit.gitlabUrl parsed;
             GitLabTools.accessToken := GitLabTools.accessToken ctx |},
          [] ++ [{| GitLabTools.url :=
                      GitLabCommit.gitlabUrl parsed ++ lit "/api/v4"
                      ++ lit "/projects/" ++ project
                      ++ lit "/repository/commits/" ++ GitLabCommit.sha parsed;
                    GitLabTools.bearer :=
                      Service.envOr None (GitLabTools.accessToken ctx);
                    GitLabTools.params := None |}])
     | None =>
       GitLabTools.getCommitByUrlHandler GitLab.plain_hostname
         (fun v : jsstring => v) GitLabTools.echo link None (ctx, [])
       = (({| GitLabTools.gitlabUrl := GitLabCommit.gitlabUrl parsed;
              GitLabTools.accessToken := GitLabTools.accessToken ctx |}, []),
          Throw URIError)
     end.
Proof.
  intros ctx link parsed.
  assert (P : GitLabCommit.parseGitLabCommitUrl GitLab.plain_hostname
                (GitLabTools.gitlabUrl ctx) link = Ok parsed)
    by (vm_compute; reflexivity).
  split; [exact P|].
  split; [vm_compute; reflexivity|].
  split; [vm_compute; reflexivity|].
  exact (proj1 (@getCommitByUrlHandler_then_getCommit GitLab.plain_hostname
           jsstring (fun v => v) GitLabTools.echo
           link None ctx [] parsed (lit "ns/proj") (lit "7638417db6d5") P)).
Defined.

(** ** The GitHub tools: the token and the requests *)

Section GitHubRequests.

Variable toLowerCase : jsstring -> jsstring.
Variable toLocaleDateString_esES : jsstring -> jsstring.
Variable numberToString : number -> jsstring.
Variable json : Type.
Variable stringify : json -> jsstring.
Variable network :
  list (GitHubTools.Request json) -> GitHubTools.Request json
  -> GitLabTools.AxiosError + json.
Variable issueDataOf : json -> json -> outcome exn QA.IssueData.
Variable commentsOf : json -> list Report.Comment.
Variable secondRejectsFirst : bool.
Variable defaultAccessToken : jsstring.

#[local] Abbreviation analyze :=
  (GitHubTools.analyzeHandler toLowerCase toLocaleDateString_esES
     numberToString network issueDataOf commentsOf secondRejectsFirst
     defaultAccessToken).
#[local] Abbreviation commitByUrl :=
  (GitHubTools.getCommitByUrlHandler stringify network defaultAccessToken).
#[local] Abbreviation getCommit :=
  (GitHubTools.getCommitHandler stringify network defaultAccessToken).
#[local] Abbreviation apiGet :=
  (GitHubTools.apiGetHandler stringify network defaultAccessToken).

(** X17. Without a token, in the arguments or configured (an empty string
    counts as none), the GitHub tools raise the error for invalid
    parameters and make no request, whatever the other arguments are: the
    token is looked at before the link. *)
Theorem github_tools_need_token :
  forall (argToken : option jsstring) (log : list (GitHubTools.Request json))
         (link owner repo sha endpoint : jsstring) (params : option json),
    Service.envOr argToken defaultAccessToken = [] ->
    analyze link argToken log
    = (log, Throw (McpError InvalidParams
                     (lit "Se requiere un token de acceso de GitHub. Proporciona 'accessToken' en los argumentos o configura GITHUB_ACCESS_TOKEN en las variables de entorno.")))
    /\ (forall out,
           In out [commitByUrl link argToken log;
                   getCommit owner repo sha argToken log;
                   apiGet endpoint params argToken log] ->
           out = (log, Throw (McpError InvalidParams
                                (lit "Se requiere un token de acceso de GitHub. Proporciona 'accessToken' o configura GITHUB_ACCESS_TOKEN.")))).
Proof.
  intros argToken log link owner repo sha endpoint params E.
  unfold GitHubTools.analyzeHandler, GitHubTools.getCommitByUrlHandler,
    GitHubTools.getCommitHandler, GitHubTools.apiGetHandler.
  rewrite E. cbn [Service.truthy negb]. split; [reflexivity|].
  intros out [<-|[<-|[<-|[]]]]; reflexivity.
Qed.

Lemma makeGitHubRequest_world (accessToken endpoint : jsstring)
      (params : option json) (w : list (GitHubTools.Request json)) :
  fst (GitHubTools.makeGitHubRequest network accessToken endpoint params w)
  = w ++ [{| GitHubTools.url := lit "https://api.github.com" ++ endpoint;
             GitHubTools.bearer := accessToken;
             GitHubTools.params := params |}].
Proof. reflexivity. Qed.

Lemma getGitHubIssueData_world (accessToken owner repo : jsstring)
      (issueNumber : number) (w : list (GitHubTools.Request json)) :
  fst (GitHubTools.getGitHubIssueData numberToString network issueDataOf
         secondRejectsFirst accessToken owner repo issueNumber w)
  = w ++ [{| GitHubTools.url :=
               lit "https://api.github.com"
               ++ GitHubTools.issueEndpoint numberToString owner repo
                                            issueNumber;
             GitHubTools.bearer := accessToken;
             GitHubTools.params := None |};
          {| GitHubTools.url :=
               lit "https://api.github.com"
               ++ GitHubTools.repoEndpoint owner repo;
             GitHubTools.bearer := accessToken;
             GitHubTools.params := None |}].
Proof.
  unfold GitHubTools.getGitHubIssueData, GitHubTools.makeGitHubRequest.
  cbn [fst snd]. now rewrite <- app_assoc.
Qed.

Lemma truthy_nonempty (s : jsstring) : s <> [] -> Service.truthy s = true.
Proof. destruct s; [congruence | reflexivity]. Qed.

(** A comment without [author] among the first three makes the formatter
    raise. *)
Lemma mapM_renderComment_raises (comments : list Report.Comment) :
  forallb hasAuthor comments = false ->
  Report.mapM (Report.renderComment toLocaleDateString_esES) comments
  = Throw TypeError.
Proof.
  induction comments as [|c comments IH]; [discriminate|].
  change (Report.mapM (Report.renderComment toLocaleDateString_esES)
                      (c :: comments))
    with (y <- Report.renderComment toLocaleDateString_esES c ;;
          ys <- Report.mapM (Report.renderComment toLocaleDateString_esES)
                            comments ;;
          Ok (y :: ys)).
  cbn [forallb]. unfold hasAuthor at 1, Report.renderComment at 1.
  destruct (Report.author_name c) as [name|]; cbn [andb].
  - intros H. rewrite (IH H). reflexivity.
  - reflexivity.
Qed.

Lemma formatQAAnalysis_raises (issueData : QA.IssueData)
      (qaAnalysis : QA.QAAnalysis) (comments : list Report.Comment) :
  forallb hasAuthor (firstn 3 comments) = false ->
  Report.formatQAAnalysis toLocaleDateString_esES issueData qaAnalysis comments
  = Throw TypeError.
Proof.
  intros H. unfold Report.formatQAAnalysis, Report.commentsSection,
              Report.slice0.
  rewrite (mapM_renderComment_raises _ H).
  destruct comments; [discriminate | reflexivity].
Qed.

(** X18. The handler of [analyze_github_issue_for_qa], given a token.  A
    link that does not parse raises the error of the parser and no
    request is made.  For a link that parses, the two requests of
    [getGitHubIssueData] are always made, and the request for the comments
    after them unless the issue could not be fetched; all go to
    [https://api.github.com], under [/repos/] with the owner and the
    repository of the link, the issue under the number as it is printed,
    and carry the token.  When the comments come and one of the first
    three has no [author], the call raises a [TypeError]: the report is not
    returned. *)
Theorem analyzeHandler_github_requests :
  forall (issueUrl : jsstring) (argToken : option jsstring)
         (log : list (GitHubTools.Request json)),
    Service.envOr argToken defaultAccessToken <> [] ->
    match GitHub.parseGitHubIssueUrl issueUrl with
    | Ok parsed =>
      let get endpoint :=
          {| GitHubTools.url := lit "https://api.github.com" ++ endpoint;
             GitHubTools.bearer := Service.envOr argToken defaultAccessToken;
             GitHubTools.params := @None json |} in
      let repository :=
          lit "/repos/" ++ GitHub.owner parsed ++ lit "/" ++ GitHub.repo parsed in
      let issue :=
          repository ++ lit "/issues/"
          ++ numberToString (GitHub.issueNumber parsed) in
      let first_two := [get issue; get repository] in
      exists more out,
        analyze issueUrl argToken log = (log ++ first_two ++ more, out)
        /\ (more = [] /\ (forall v, out <> Ok v)
            \/ more = [get (issue ++ lit "/comments")]
               /\ forall data,
                   network (log ++ first_two) (get (issue ++ lit "/comments"))
                   = inr data ->
                   forallb hasAuthor (firstn 3 (commentsOf data)) = false ->
                   out = Throw TypeError)
    | Throw e => analyze issueUrl argToken log = (log, Throw e)
    | Diverge => False
    end.
Proof.
  intros issueUrl argToken log Tok.
  unfold GitHubTools.analyzeHandler.
  rewrite (truthy_nonempty Tok). cbn [negb].
  set (token := Service.envOr argToken defaultAccessToken).
  unfold GitHubTools.tbind at 1, GitHubTools.lift at 1.
  destruct (GitHub.parseGitHubIssueUrl issueUrl) as [parsed|e|] eqn:P;
    [|reflexivity|].
  2:{ unfold GitHub.parseGitHubIssueUrl in P.
      destruct (str_match issueUrl GitHub.issueUrlPattern); discriminate. }
  cbv zeta.
  change (lit "/repos/" ++ GitHub.owner parsed ++ lit "/" ++ GitHub.repo parsed)
    with (GitHubTools.repoEndpoint (GitHub.owner parsed) (GitHub.repo parsed)).
  change (GitHubTools.repoEndpoint (GitHub.owner parsed) (GitHub.repo parsed)
          ++ lit "/issues/" ++ numberToString (GitHub.issueNumber parsed))
    with (GitHubTools.issueEndpoint numberToString (GitHub.owner parsed)
            (GitHub.repo parsed) (GitHub.issueNumber parsed)).
  set (issue := GitHubTools.issueEndpoint numberToString (GitHub.owner parsed)
                  (GitHub.repo parsed) (GitHub.issueNumber parsed)).
  unfold GitHubTools.tbind at 1.
  pose proof (getGitHubIssueData_world token (GitHub.owner parsed)
                (GitHub.repo parsed) (GitHub.issueNumber parsed) log) as W.
  fold issue in W.
  destruct (GitHubTools.getGitHubIssueData numberToString network issueDataOf
              secondRejectsFirst token (GitHub.owner parsed)
              (GitHub.repo parsed) (GitHub.issueNumber parsed) log)
    as [w2 o']. cbn [fst] in W. subst w2.
  destruct o' as [issueData|e|].
  - unfold GitHubTools.tbind at 1, GitHubTools.lift at 1.
    destruct (QA.analyzeIssueForQA toLowerCase issueData) as [qa|e|].
    + unfold GitHubTools.tbind at 1, GitHubTools.makeGitHubRequest.
      match goal with
      | |- context [network ?l ?r] =>
        destruct (network l r) as [[st msg|msg]|comments] eqn:Net
      end.
      * eexists _, _. split; [now rewrite <- app_assoc|]. right.
        split; [reflexivity|]. intros data D. discriminate.
      * eexists _, _. split; [now rewrite <- app_assoc|]. right.
        split; [reflexivity|]. intros data D. discriminate.
      * unfold GitHubTools.tbind, GitHubTools.lift, GitHubTools.ret.
        destruct (forallb hasAuthor (firstn 3 (commentsOf comments))) eqn:A.
        -- destruct (Report.formatQAAnalysis toLocaleDateString_esES issueData
                       qa (commentsOf comments));
             (eexists _, _; split; [now rewrite <- app_assoc|]; right;
              split; [reflexivity|]; intros data D; injection D as <-;
              congruence).
        -- rewrite (formatQAAnalysis_raises issueData qa _ A).
           eexists _, _. split; [now rewrite <- app_assoc|]. right.
           split; [reflexivity|]. intros data D. reflexivity.
    + exists [], (Throw e). split; [now rewrite app_nil_r|]. left.
      split; [reflexivity | discriminate].
    + exists [], Diverge. split; [now rewrite app_nil_r|]. left.
      split; [reflexivity | discriminate].
  - exists [], (Throw e). split; [now rewrite app_nil_r|]. left.
    split; [reflexivity | discriminate].
  - exists [], Diverge. split; [now rewrite app_nil_r|]. left.
    split; [reflexivity | discriminate].
Qed.

(** X19. From the link to the request.  Given a token, the handler of
    [github_get_commit_by_url] makes one request for a commit link to
    [github.com] with an owner, a repository and seven or more hexadecimal
    digits: to [https://api.github.com/repos/owner/repo/commits/sha], the
    sha being the first 40 of the digits, with the token. *)
Theorem getCommitByUrlHandler_github_request :
  forall (secure : bool) (o r h after : jsstring)
         (argToken : option jsstring) (log : list (GitHubTools.Request json)),
    Service.envOr argToken defaultAccessToken <> [] ->
    isSegment o = true -> isSegment r = true ->
    forallb isHex h = true -> 7 <= List.length h ->
    40 <= List.length h \/ endsRun isHex after = true ->
    fst (commitByUrl (scheme secure ++ lit "://github.com/" ++ o ++ lit "/"
                      ++ r ++ lit "/commit/" ++ h ++ after)
                     argToken log)
    = log ++ [{| GitHubTools.url :=
                   lit "https://api.github.com" ++ lit "/repos/" ++ o
                   ++ lit "/" ++ r ++ lit "/commits/" ++ firstn 40 h;
                 GitHubTools.bearer :=
                   Service.envOr argToken defaultAccessToken;
                 GitHubTools.params := None |}].
Proof.
  intros secure o r h after argToken log Tok Ho Hr Hh L7 E.
  unfold GitHubTools.getCommitByUrlHandler.
  rewrite (truthy_nonempty Tok). cbn [negb].
  unfold GitHubTools.tbind at 1, GitHubTools.lift at 1.
  destruct (commitUrlPattern_reads secure o r h after Ho Hr Hh L7 E)
    as (mt & Em & Cap).
  unfold GitHubCommit.parseGitHubCommitUrl. rewrite Em.
  unfold group. rewrite Cap.
  cbn [capture Nat.eqb GitHubCommit.owner GitHubCommit.repo GitHubCommit.sha].
  unfold GitHubTools.tbind, GitHubTools.getGitHubCommit.
  match goal with
  | |- context [GitHubTools.makeGitHubRequest ?n ?t ?e ?p ?w] =>
    pose proof (makeGitHubRequest_world t e p w) as W;
      destruct (GitHubTools.makeGitHubRequest n t e p w) as [w' [data|e'|]]
  end; cbn [fst snd] in *; rewrite W; unfold GitHubTools.repoEndpoint;
    now rewrite <- !app_assoc.
Qed.

End GitHubRequests.

Lemma github_tools_need_token_witness :
  let token := @Some jsstring [] in
  let log := @nil (GitHubTools.Request jsstring) in
  Service.envOr token [] = []
  /\ GitHubTools.analyzeHandler toLowerCase_latin1 (fun d => d) printSmall
       GitHubTools.echo (fun _ _ => Throw TypeError) (fun _ => []) false []
       (lit "not a link") token log
     = (log, Throw (McpError InvalidParams
                      (lit "Se requiere un token de acceso de GitHub. Proporciona 'accessToken' en los argumentos o configura GITHUB_ACCESS_TOKEN en las variables de entorno."))).
Proof.
  intros token log. split; [reflexivity|].
  exact (proj1 (@github_tools_need_token toLowerCase_latin1 (fun d => d)
                  printSmall jsstring (fun v => v) GitHubTools.echo
                  (fun _ _ => Throw TypeError) (fun _ => []) false []
                  token log (lit "not a link") [] [] [] [] None eq_refl)).
Defined.

(** The issue and the repository are fetched, the comments come, the first
    has no [author]: three requests, and a [TypeError] for a report. *)
Lemma analyzeHandler_github_requests_witness :
  let token := Some (lit "ghp_token") in
  let log := @nil (GitHubTools.Request jsstring) in
  let link := lit "https://github.com/octo/hello-world/issues/1347" in
  let issueDataOf :=
      fun _ _ : jsstring =>
        @Ok exn QA.IssueData (QA.issueOf (lit "Login") (lit "Add login") []) in
  let commentsOf :=
      fun _ : jsstring =>
        [{| Report.author_name := None;
            Report.comment_created_at := lit "2024-05-01T10:00:00Z";
            Report.body := lit "Looks good" |}] in
  let get endpoint :=
      {| GitHubTools.url := lit "https://api.github.com" ++ endpoint;
         GitHubTools.bearer := lit "ghp_token";
         GitHubTools.params := @None jsstring |} in
  Service.envOr token [] <> []
  /\ GitHubTools.analyzeHandler toLowerCase_latin1 (fun d => d) printSmall
       GitHubTools.echo issueDataOf commentsOf false [] link token log
     = ([get (lit "/repos/octo/hello-world/issues/1347");
         get (lit "/repos/octo/hello-world");
         get (lit "/repos/octo/hello-world/issues/1347/comments")],
        Throw TypeError)
  /\ match GitHub.parseGitHubIssueUrl link with
     | Ok parsed =>
       let get endpoint :=
           {| GitHubTools.url := lit "https://api.github.com" ++ endpoint;
              GitHubTools.bearer := Service.envOr token [];
              GitHubTools.params := @None jsstring |} in
       let repository :=
           lit "/repos/" ++ GitHub.owner parsed ++ lit "/"
           ++ GitHub.repo parsed in
       let issue :=
           repository ++ lit "/issues/"
           ++ printSmall (GitHub.issueNumber parsed) in
       let first_two := [get issue; get repository] in
       exists more out,
         GitHubTools.analyzeHandler toLowerCase_latin1 (fun d => d) printSmall
           GitHubTools.echo issueDataOf commentsOf false [] link token log
         = (log ++ first_two ++ more, out)
         /\ (more = [] /\ (forall v, out <> Ok v)
             \/ more = [get (issue ++ lit "/comments")]
                /\ forall data,
                    GitHubTools.echo (log ++ first_two)
                                     (get (issue ++ lit "/comments"))
                    = inr data ->
                    forallb hasAuthor (firstn 3 (commentsOf data)) = false ->
                    out = Throw TypeError)
     | Throw e =>
       GitHubTools.analyzeHandler toLowerCase_latin1 (fun d => d) printSmall
         GitHubTools.echo issueDataOf commentsOf false [] link token log
       = (log, Throw e)
     | Diverge => False
     end.
Proof.
  intros token log link issueDataOf commentsOf get.
  assert (Tok : Service.envOr token [] <> []) by (vm_compute; discriminate).
  split; [exact Tok|].
  split; [vm_compute; reflexivity|].
  exact (@analyzeHandler_github_requests toLowerCase_latin1 (fun d => d)
           printSmall jsstring GitHubTools.echo issueDataOf commentsOf false
           [] link token log Tok).
Defined.

Lemma getCommitByUrlHandler_github_request_witness :
  let token := Some (lit "ghp_token") in
  let log := @nil (GitHubTools.Request jsstring) in
  let h := lit "7638417db6d59f3c431d3e1f261cc637155684cd0123" in
  fst (GitHubTools.getCommitByUrlHandler (fun v => v) GitHubTools.echo []
         (scheme true ++ lit "://github.com/" ++ lit "octo" ++ lit "/"
          ++ lit "hello-world" ++ lit "/commit/" ++ h ++ lit ".patch")
         token log)
  = log ++ [{| GitHubTools.url :=
                 lit "https://api.github.com" ++ lit "/repos/" ++ lit "octo"
                 ++ lit "/" ++ lit "hello-world" ++ lit "/commits/"
                 ++ firstn 40 h;
               GitHubTools.bearer := Service.envOr token [];
               GitHubTools.params := None |}].
Proof.
  intros token log h.
  apply (@getCommitByUrlHandler_github_request jsstring (fun v => v)
           GitHubTools.echo [] true (lit "octo") (lit "hello-world") h
           (lit ".patch") token log);
    [vm_compute; discriminate | reflexivity | reflexivity | reflexivity
    | vm_compute; lia | left; vm_compute; lia].
Defined.


(** ** The SQL tools: the connection *)

Section SqlRuns.

Variable json : Type.
Variable emptyArray : json.
Variable stringify : json -> jsstring.
Variable rowCountAndRows : json -> json.
Variable firstOf : json -> json.



End SqlRuns.


(** ** The web search *)

Lemma topicItems_bound (t : Web.Related) :
  List.length (Web.topicItems t) <= 1
  /\ Forall (fun it => Web.url it <> []) (Web.topicItems t).
Proof.
  unfold Web.topicItems.
  destruct (Service.truthy (Web.Text (Web.own t)));
    [|destruct (Web.Topics t) as [[|first l]|]];
    try (split; [cbn; lia | constructor]).
  - destruct (Web.FirstURL (Web.own t)) eqn:E; cbn [Service.truthy].
    + split; [cbn; lia | constructor].
    + split; [cbn; lia|]. constructor; [|constructor].
      cbn [Web.url]. discriminate.
  - destruct (Web.FirstURL first) eqn:E; cbn [Service.truthy].
    + split; [cbn; lia | constructor].
    + split; [cbn; lia|]. constructor; [|constructor].
      cbn [Web.url]. discriminate.
Qed.

Lemma flat_map_topicItems (topics : list Web.Related) :
  List.length (flat_map Web.topicItems topics) <= List.length topics
  /\ Forall (fun it => Web.url it <> []) (flat_map Web.topicItems topics).
Proof.
  induction topics as [|t topics [IHl IHf]]; [split; [cbn; lia | constructor]|].
  destruct (topicItems_bound t) as [L F]. cbn [flat_map List.length].
  rewrite length_app. split; [lia | now apply Forall_app].
Qed.

Lemma collect_bound (data : Web.Answer) :
  List.length (Web.collect data)
  <= 1 + match Web.RelatedTopics data with
         | Some topics => List.length topics
         | None => 0
         end
  /\ Forall (fun it => Web.url it <> []) (Web.collect data).
Proof.
  unfold Web.collect. rewrite length_app.
  assert (A : List.length
                (if Service.truthy (Web.Abstract data)
                    && Service.truthy (Web.AbstractURL data)
                 then [{| Web.title := Web.Heading data;
                          Web.url := Web.AbstractURL data;
                          Web.snippet := Web.Abstract data |}]
                 else []) <= 1
              /\ Forall (fun it => Web.url it <> [])
                   (if Service.truthy (Web.Abstract data)
                       && Service.truthy (Web.AbstractURL data)
                    then [{| Web.title := Web.Heading data;
                             Web.url := Web.AbstractURL data;
                             Web.snippet := Web.Abstract data |}]
                    else [])).
  { destruct (Service.truthy (Web.Abstract data)); cbn [andb];
      [|split; [cbn; lia | constructor]].
    destruct (Web.AbstractURL data) eqn:E; cbn [Service.truthy].
    - split; [cbn; lia | constructor].
    - split; [cbn; lia|]. constructor; [|constructor]. discriminate. }
  destruct A as [A1 A2].
  destruct (Web.RelatedTopics data) as [topics|].
  - destruct (flat_map_topicItems topics) as [L F].
    split; [lia | now apply Forall_app].
  - split; [cbn [List.length]; lia | apply Forall_app; split;
                                     [exact A2 | constructor]].
Qed.

(** [slice(0, max)] is a beginning of the list. *)
Lemma slice_prefix (A : Type) (max : Web.number) (items : list A) :
  exists later, items = Web.slice max items ++ later.
Proof.
  destruct max as [q| | |]; cbn [Web.slice].
  - destruct (Web.truncate q <? 0)%Z;
      eexists; symmetry; apply firstn_skipn.
  - exists []. symmetry. apply app_nil_r.
  - exists items. reflexivity.
  - exists items. reflexivity.
Qed.

(** A number above zero is a true condition. *)
Lemma greaterThanZero_truthy (n : Web.number) :
  Web.greaterThanZero n = true -> Web.truthyNumber n = true.
Proof.
  destruct n as [q| | |]; cbn [Web.greaterThanZero Web.truthyNumber];
    try easy.
  intros G. apply negb_true_iff in G. apply negb_true_iff.
  destruct (QArith_base.Qeq_bool q (QArith_base.inject_Z 0)) eqn:E;
    [|reflexivity].
  apply QArith_base.Qeq_bool_iff in E.
  assert (L : QArith_base.Qle_bool q (QArith_base.inject_Z 0) = true).
  { apply QArith_base.Qle_bool_iff. apply QArith_base.Qle_lteq. now right. }
  congruence.
Qed.

(** The whole part of a positive fraction below 1 is 0, and that of a
    positive fraction is not negative. *)
Lemma truncate_positive (q : QArith_base.Q) :
  QArith_base.Qlt (QArith_base.inject_Z 0) q ->
  (0 <= Web.truncate q)%Z
  /\ (QArith_base.Qlt q (QArith_base.inject_Z 1) -> Web.truncate q = 0%Z).
Proof.
  unfold QArith_base.Qlt, Web.truncate. destruct q as [n d].
  cbn [QArith_base.Qnum QArith_base.Qden QArith_base.inject_Z].
  intros P. split.
  - apply Z.quot_pos; lia.
  - intros B. apply Z.quot_small. lia.
Qed.

(** X22. What [web_search] returns.  The items are a beginning of those
    collected; every item has a URL that is not empty; and there are at
    most 1 + the number of related topics of them: the abstract, and of
    each topic or group of topics at most one item (of a group, its first
    topic).  How many are kept is read off [maxResults], which may be any
    number: when it is a fraction above zero, as many as its whole part,
    so none when it is below 1; all of them when it is the positive
    infinity; and the first 5 when it is absent, zero, negative or
    [NaN].  An answer without data gives no item. *)
Theorem searchItems_bounds :
  forall (data : Web.Answer) (maxResults : option Web.number),
    let items := Web.searchItems (Some data) maxResults in
    let collected := Web.collect data in
    (exists later, collected = items ++ later)
    /\ Forall (fun it => Web.url it <> []) items
    /\ List.length items
       <= 1 + match Web.RelatedTopics data with
              | Some topics => List.length topics
              | None => 0
              end
    /\ match maxResults with
       | Some (Web.Num q) =>
         if QArith_base.Qle_bool q (QArith_base.inject_Z 0)
         then items = firstn 5 collected
         else items = firstn (Z.to_nat (Web.truncate q)) collected
              /\ (QArith_base.Qle_bool (QArith_base.inject_Z 1) q = false ->
                  items = [])
       | Some Web.PosInfinity => items = collected
       | Some Web.NegInfinity | Some Web.NaN | None =>
         items = firstn 5 collected
       end
    /\ Web.searchItems None maxResults = [].
Proof.
  intros data maxResults items collected. subst items collected.
  unfold Web.searchItems.
  destruct (collect_bound data) as [C1 C2].
  destruct (slice_prefix (Web.maxOf maxResults) (Web.collect data))
    as [later P].
  split; [now exists later|].
  split; [rewrite P in C2; apply Forall_app in C2; exact (proj1 C2)|].
  split.
  { apply (f_equal (@List.length _)) in P. rewrite length_app in P. lia. }
  split.
  - destruct maxResults as [[q| | |]|]; try reflexivity.
    unfold Web.maxOf.
    destruct (QArith_base.Qle_bool q (QArith_base.inject_Z 0)) eqn:E.
    + cbn [Web.greaterThanZero]. rewrite E. cbn [negb].
      rewrite andb_false_r. reflexivity.
    + assert (G : Web.greaterThanZero (Web.Num q) = true)
        by (cbn [Web.greaterThanZero]; now rewrite E).
      rewrite (greaterThanZero_truthy _ G), G. cbn [andb Web.slice].
      assert (Q0 : QArith_base.Qlt (QArith_base.inject_Z 0) q).
      { apply QArith_base.Qnot_le_lt. intros L.
        apply QArith_base.Qle_bool_iff in L. congruence. }
      destruct (truncate_positive Q0) as [T0 T1].
      assert (B : (Web.truncate q <? 0)%Z = false) by (apply Z.ltb_ge; lia).
      rewrite B. split; [reflexivity|].
      intros L1. rewrite T1; [reflexivity|].
      apply QArith_base.Qnot_le_lt. intros L.
      apply QArith_base.Qle_bool_iff in L. congruence.
  - destruct (slice_prefix (Web.maxOf maxResults)
                           (Web.collect Web.noAnswer)) as [l' P'].
    destruct (Web.slice (Web.maxOf maxResults) (Web.collect Web.noAnswer));
      [reflexivity|].
    discriminate.
Qed.

(** The handler keeps no item of three for [maxResults = 0.5], two for
    [2.7], and five of six when [maxResults] is absent or [0]. *)
Example searchItems_fractions :
  let item := fun n : N =>
    {| Web.own := {| Web.Text := [n]; Web.FirstURL := [n] |};
       Web.Topics := None |} in
  let data := fun l =>
    {| Web.Abstract := []; Web.AbstractURL := []; Web.Heading := [];
       Web.RelatedTopics := Some (map item l) |} in
  let six := [1; 2; 3; 4; 5; 6]%N in
  List.length (Web.searchItems (Some (data six))
                 (Some (Web.Num (QArith_base.Qmake 1 2)))) = 0
  /\ List.length (Web.searchItems (Some (data six))
                    (Some (Web.Num (QArith_base.Qmake 27 10)))) = 2
  /\ List.length (Web.searchItems (Some (data six)) None) = 5
  /\ List.length (Web.searchItems (Some (data six))
                    (Some (Web.Num (QArith_base.inject_Z 0)))) = 5
  /\ List.length (Web.searchItems (Some (data six))
                    (Some Web.PosInfinity)) = 6.
Proof. vm_compute. repeat split. Qed.
